(** * Message reconciliation and streaming response pipeline

    A shallow embedding of the logic of the SaynaAI examples repository
    that carries state and ordering:

    - the browser side, the [App] component that follows the type
      declarations in [src/react-vite-ui/src/lib/types.ts] (module [App]
      below): [parseDataChannelMessage], [handleDataReceived], [addMessage],
      [updateMessageStatus], [handleSendMessage], [handleRetryMessage];
      and, in module [Connection], its actions [connect],
      [handleDisconnect], [handleMicToggle] and [handleEnableAudio] with
      [tryPlayAudio] of [src/react-vite-ui/src/lib/saynaClient.ts] and
      [handleSend] of [src/react-vite-ui/src/components/chat-panel.tsx];
    - the server side, the [AiService] class of [src/unnamed/part_002] and
      [src/nestjs-ai-sdk-server/src/ai/prompts/voice-assistant.prompt.ts]
      (module [AiService] below): [extractCompleteSentences],
      [generateResponse], [generateStreamingResponse], the two [...WithRetry]
      entry points, [addToHistory], [getHistory], [clearHistory],
      [buildMessages], [isRetryableError] and [getRandomFallbackResponse];
      the two streaming methods once more with the callback of their
      caller, which may throw (module [Streaming]); and the [VoiceAgent]
      class of [src/unnamed/part_003] (module [VoiceAgent]) for what it
      does with a speech-to-text result.

    JavaScript strings are sequences of UTF-16 code units; they are modelled
    as [list N].  React state is modelled by explicit state passing, the
    asynchronous server code by a state-and-exception monad over a [World]
    that holds the history map, the log of callback invocations and the
    counters of calls to the language model and to [Math.random]; what those
    calls answer is given by an [Oracle].  Logging is left out, and so are the
    token usage, [maxOutputTokens] and [temperature], which the service only
    passes between its caller and the SDK. *)

From Stdlib Require Import ZArith NArith Ascii String.
From stdpp Require Import base option list gmap.

Local Open Scope Z_scope.

(* ===================================================================== *)
(** ** JavaScript strings and arrays *)
(* ===================================================================== *)

Module Js.

(** A string is its sequence of UTF-16 code units. *)
Definition jsstring := list N.

(** String literals of the source, written in ASCII. *)
Definition lit (s : string) : jsstring :=
  map N_of_ascii (list_ascii_of_string s).

(** Truthiness of a string value: every string but the empty one. *)
Definition truthy (s : jsstring) : bool :=
  match s with [] => false | _ :: _ => true end.

(** Truthiness of an optional string ([undefined] is falsy). *)
Definition truthy_opt (s : option jsstring) : bool :=
  match s with Some s => truthy s | None => false end.

(** The code units matched by [\s] in a regular expression and stripped
    by [String.prototype.trim]: ECMAScript WhiteSpace and LineTerminator. *)
Definition is_white_space (c : N) : bool :=
  ((9 <=? c) && (c <=? 13) || (c =? 32) || (c =? 160) || (c =? 5760)
   || (8192 <=? c) && (c <=? 8202) || (c =? 8232) || (c =? 8233)
   || (c =? 8239) || (c =? 8287) || (c =? 12288) || (c =? 65279))%N.

Fixpoint trimStart (s : jsstring) : jsstring :=
  match s with
  | c :: s' => if is_white_space c then trimStart s' else s
  | [] => []
  end.

Definition trimEnd (s : jsstring) : jsstring := rev (trimStart (rev s)).

Definition trim (s : jsstring) : jsstring := trimEnd (trimStart s).

(** [s.startsWith(p)] *)
Fixpoint startsWith (s p : jsstring) : bool :=
  match p, s with
  | [], _ => true
  | _ :: _, [] => false
  | a :: p', b :: s' => (a =? b)%N && startsWith s' p'
  end.

(** [s.includes(p)] *)
Fixpoint includes (s p : jsstring) : bool :=
  startsWith s p || match s with [] => false | _ :: s' => includes s' p end.

(** [a.slice(start, end)] of strings and arrays: a negative index counts
    from the end, both indices are clamped to [0, length]; [end] absent
    means the length. *)
Definition clamp_index (len i : Z) : Z :=
  if i <? 0 then Z.max (len + i) 0 else Z.min i len.

Definition slice {A} (l : list A) (start : Z) (end_ : option Z) : list A :=
  let len := Z.of_nat (length l) in
  let from := clamp_index len start in
  let to := match end_ with Some e => clamp_index len e | None => len end in
  take (Z.to_nat (to - from)) (drop (Z.to_nat from) l).

(** Strings made of white space only (the empty string included). *)
Definition all_space (s : jsstring) : Prop :=
  Forall (λ c, is_white_space c = true) s.

End Js.

Import Js.

(* ===================================================================== *)
(** ** The browser application: transcript reconciler and send pipeline *)
(* ===================================================================== *)

Module App.

Inductive Role := user | assistant | system.
Inductive Status := sending | sent | failed | streaming.
Inductive Delivery := reliable | lossy.
Inductive WireRole := wire_user | wire_ai.
Inductive DataPacket_Kind := RELIABLE | LOSSY.

#[export] Instance Role_eq_dec : EqDecision Role.
Proof. solve_decision. Defined.
#[export] Instance Status_eq_dec : EqDecision Status.
Proof. solve_decision. Defined.
#[export] Instance Delivery_eq_dec : EqDecision Delivery.
Proof. solve_decision. Defined.
#[export] Instance WireRole_eq_dec : EqDecision WireRole.
Proof. solve_decision. Defined.

(** [interface ChatMessage]; an optional field that is absent or
    [undefined] is [None]. *)
Module ChatMessage.
Record t := mk {
  id : jsstring;
  role : Role;
  text : jsstring;
  timestamp : Z;
  senderId : option jsstring;
  topic : option jsstring;
  status : option Status;
  delivery : option Delivery;
}.

(** Object spread [{...base, ...over}]: a key of [over] overwrites the
    same key of [base]; a key that [over] does not have keeps the value
    of [base]. *)
Definition spread (base over : t) : t :=
  mk (id over) (role over) (text over) (timestamp over)
     (from_option Some (senderId base) (senderId over))
     (from_option Some (topic base) (topic over))
     (from_option Some (status base) (status over))
     (from_option Some (delivery base) (delivery over)).

(** [{...m, status: s}] *)
Definition with_status (m : t) (s : Status) : t :=
  mk (id m) (role m) (text m) (timestamp m) (senderId m) (topic m)
     (Some s) (delivery m).
End ChatMessage.

(** [interface DataChannelMessage] *)
Module DataChannelMessage.
Record t := mk {
  message : jsstring;
  topic : jsstring;
  role : WireRole;
  timestamp : option Z;
  identity : option jsstring;
  isFinal : option bool;
  interim : option bool;
}.
End DataChannelMessage.

(** The values [JSON.parse] can return.  Numbers are only carried around
    by this code, never computed with. *)
#[local] Unset Elimination Schemes.
Inductive json :=
| JNull
| JBool (b : bool)
| JNumber (n : Z)
| JString (s : jsstring)
| JArray (items : list json)
| JObject (fields : list (jsstring * json)).
#[local] Set Elimination Schemes.

(** Property read [parsed.key] on an object built by [JSON.parse]: of
    several members with the same name the last one wins. *)
Fixpoint get_field (fields : list (jsstring * json)) (key : jsstring)
  : option json :=
  match fields with
  | [] => None
  | (k, v) :: rest =>
      match get_field rest key with
      | Some v' => Some v'
      | None => if bool_decide (k = key) then Some v else None
      end
  end.

(** Outcome of a property read on a parsed value: reading a property of
    [null] throws a TypeError, reading one of a primitive or of an array
    gives [undefined] for the names this code uses. *)
Definition prop (parsed : json) (key : string) : option (option json) :=
  match parsed with
  | JNull => None
  | JObject fields => Some (get_field fields (lit key))
  | _ => Some None
  end.

Definition as_string (v : option json) : option jsstring :=
  match v with Some (JString s) => Some s | _ => None end.
Definition as_number (v : option json) : option Z :=
  match v with Some (JNumber n) => Some n | _ => None end.
Definition as_boolean (v : option json) : option bool :=
  match v with Some (JBool b) => Some b | _ => None end.

(** A received payload: its text as decoded by [TextDecoder] (which does
    not throw in its default mode) and the result of [JSON.parse] on that
    text, [None] when [JSON.parse] throws. *)
Record Payload := {
  decoded : jsstring;
  json_parse : option json;
}.

Definition rawTextMessage (rawText : jsstring) : DataChannelMessage.t :=
  DataChannelMessage.mk rawText (lit "chat") wire_ai None None None None.

(** The [try] block of [parseDataChannelMessage] on a parsed value;
    the outer [None] is the TypeError thrown on [null]. *)
Definition parseParsed (parsed : json)
  : option (option DataChannelMessage.t) :=
  match prop parsed "message" with
  | None => None
  | Some pmessage =>
    match as_string pmessage with
    | None => Some None
    | Some message =>
      let get key := default None (prop parsed key) in
      let role :=
        if bool_decide (as_string (get "role"%string) = Some (lit "user"))
        then wire_user else wire_ai in
      let topic := default (lit "chat") (as_string (get "topic"%string)) in
      let timestamp := as_number (get "timestamp"%string) in
      let identity := as_string (get "identity"%string) in
      let isFinal :=
        match as_boolean (get "is_final"%string) with
        | Some b => Some b
        | None =>
          match as_boolean (get "isFinal"%string) with
          | Some b => Some b
          | None => as_boolean (get "final"%string)
          end
        end in
      let interim :=
        match as_boolean (get "interim"%string) with
        | Some b => Some b
        | None => as_boolean (get "partial"%string)
        end in
      Some (Some (DataChannelMessage.mk message topic role timestamp
                    identity isFinal interim))
    end
  end.

Definition parseDataChannelMessage (payload : Payload)
  : option DataChannelMessage.t :=
  match json_parse payload with
  | Some parsed =>
      match parseParsed parsed with
      | Some result => result
      | None => Some (rawTextMessage (decoded payload))
      end
  | None => Some (rawTextMessage (decoded payload))
  end.

Record RemoteParticipant := { identity : jsstring }.

(** The part of the component state the handlers below read and write. *)
Record AppState := {
  messages : list ChatMessage.t;
  isAssistantLoading : bool;
  error : option jsstring;
}.

Definition setMessages (f : list ChatMessage.t → list ChatMessage.t)
  (st : AppState) : AppState :=
  {| messages := f (messages st);
     isAssistantLoading := isAssistantLoading st;
     error := error st |}.

Definition setIsAssistantLoading (b : bool) (st : AppState) : AppState :=
  {| messages := messages st; isAssistantLoading := b; error := error st |}.

Definition setError (e : option jsstring) (st : AppState) : AppState :=
  {| messages := messages st;
     isAssistantLoading := isAssistantLoading st;
     error := e |}.

(** [addMessage]; [newId] is the value of [generateId()] and [now] the
    value of [Date.now()] at the call. *)
Definition addMessage (role : Role) (text : jsstring)
  (senderId : option jsstring) (newId : jsstring) (now : Z)
  (st : AppState) : AppState :=
  let message := ChatMessage.mk newId role text now senderId None None None in
  setMessages (λ prev, prev ++ [message]) st.

Definition wire_role_string (r : WireRole) : jsstring :=
  match r with wire_user => lit "user" | wire_ai => lit "ai" end.

Section DataReceived.
Variable data : DataChannelMessage.t.
Variable participant : option RemoteParticipant.
Variable kind : option DataPacket_Kind.
Variable topic : option jsstring.
Variable newId : jsstring.
Variable now : Z.

Definition messageTopic : jsstring :=
  default (DataChannelMessage.topic data) topic.

Definition role : Role :=
  match DataChannelMessage.role data with
  | wire_user => user
  | wire_ai => assistant
  end.

Definition senderId : jsstring :=
  match participant with
  | Some p => identity p
  | None =>
    default (wire_role_string (DataChannelMessage.role data))
            (DataChannelMessage.identity data)
  end.

Definition delivery : Delivery :=
  match kind with Some LOSSY => lossy | _ => reliable end.

Definition hasExplicitInterim : bool :=
  bool_decide (DataChannelMessage.interim data = Some true)
  || bool_decide (DataChannelMessage.isFinal data = Some false).

Definition hasExplicitFinal : bool :=
  bool_decide (DataChannelMessage.interim data = Some false)
  || bool_decide (DataChannelMessage.isFinal data = Some true).

Definition hasExplicitFlag : bool := hasExplicitInterim || hasExplicitFinal.

Definition incomingMessage : ChatMessage.t :=
  ChatMessage.mk newId role (DataChannelMessage.message data)
    (default now (DataChannelMessage.timestamp data))
    (Some senderId) (Some messageTopic)
    (Some (if hasExplicitInterim then streaming else sent))
    (Some delivery).

(** The updater passed to [setMessages] in the ["chat"] branch. *)
Definition chatUpdater (prev : list ChatMessage.t) : list ChatMessage.t :=
  match last prev with
  | None => [incomingMessage]
  | Some lastMessage =>
    let lastIndex := (length prev - 1)%nat in
    let sameSender :=
      if truthy senderId && truthy_opt (ChatMessage.senderId lastMessage)
      then bool_decide (Some senderId = ChatMessage.senderId lastMessage)
      else bool_decide (ChatMessage.role lastMessage = role) in
    let sameTopic :=
      bool_decide (ChatMessage.topic lastMessage = Some messageTopic) in
    let isTextContinuation :=
      truthy (ChatMessage.text lastMessage)
      && (startsWith (DataChannelMessage.message data)
            (ChatMessage.text lastMessage)
          || startsWith (ChatMessage.text lastMessage)
               (DataChannelMessage.message data)) in
    let shouldTreatAsInterim :=
      hasExplicitInterim
      || (negb hasExplicitFlag && bool_decide (role = user) && sameSender
          && sameTopic && isTextContinuation) in
    let lastIsStreaming :=
      bool_decide (ChatMessage.status lastMessage = Some streaming) in
    let shouldFinalizeStreaming :=
      hasExplicitFinal
      || (negb hasExplicitFlag && lastIsStreaming
          && bool_decide (DataChannelMessage.message data
                          = ChatMessage.text lastMessage)) in
    if sameSender && sameTopic then
      if shouldTreatAsInterim then
        <[lastIndex :=
            ChatMessage.with_status
              (ChatMessage.spread lastMessage incomingMessage) streaming]>
          prev
      else if shouldFinalizeStreaming && lastIsStreaming then
        <[lastIndex :=
            ChatMessage.with_status
              (ChatMessage.spread lastMessage incomingMessage) sent]>
          prev
      else prev ++ [incomingMessage]
    else prev ++ [incomingMessage]
  end.

(** The body of [handleDataReceived] once the payload is parsed. *)
Definition dispatch (st : AppState) : AppState :=
  if bool_decide (messageTopic = lit "chat") then
    let st1 := setMessages chatUpdater st in
    if bool_decide (role = assistant)
    then setIsAssistantLoading false st1 else st1
  else if bool_decide (messageTopic = lit "status") then
    addMessage system (lit "Status: " ++ DataChannelMessage.message data)
      None newId now st
  else st.
End DataReceived.

Definition handleDataReceived (payload : Payload)
  (participant : option RemoteParticipant) (kind : option DataPacket_Kind)
  (topic : option jsstring) (newId : jsstring) (now : Z)
  (st : AppState) : AppState :=
  match parseDataChannelMessage payload with
  | None => st
  | Some data => dispatch data participant kind topic newId now st
  end.

Definition updateMessageStatus (messageId : jsstring) (status : Status)
  (st : AppState) : AppState :=
  setMessages
    (map (λ msg, if bool_decide (ChatMessage.id msg = messageId)
                 then ChatMessage.with_status msg status else msg)) st.

(** What [room.localParticipant.publishData] is called with. *)
Record PublishRequest := {
  payload : DataChannelMessage.t;
  optReliable : bool;
  optTopic : jsstring;
}.

(** [clientRef.current?.currentRoom] when it is present.  Encoding the
    payload and calling [publishData] either throws synchronously or hands
    back a promise that settles later ([publishSettled] below). *)
Record Room := { publishThrows : bool }.

Definition notConnectedError : jsstring :=
  lit "Not connected to room. Cannot send message.".
Definition sendFailedError : jsstring :=
  lit "Failed to send message. Click to retry.".

(** [if (retryMessageId) { ... } else { ... }]: the id is present and not
    the empty string. *)
Definition ifRetrying {A} (retryMessageId : option jsstring)
  (yes : jsstring → A) (no : A) : A :=
  match retryMessageId with
  | Some rid => if truthy rid then yes rid else no
  | None => no
  end.

(** The entry [handleSendMessage] creates for a new message. *)
Definition draft (messageId text participantIdentity : jsstring) (now : Z)
  (status : Status) : ChatMessage.t :=
  ChatMessage.mk messageId user text now
    (Some (if truthy participantIdentity
           then participantIdentity else lit "user"))
    (Some (lit "chat")) (Some status) None.

(** [handleSendMessage]: the synchronous part.  The result is the new state
    and the publish request handed to [publishData], if any.
    [participantIdentity] is [config.participantIdentity]; [newId] and [now]
    are the values of [generateId()] and [Date.now()]. *)
Definition handleSendMessage (text : jsstring)
  (retryMessageId : option jsstring) (room : option Room)
  (participantIdentity : jsstring) (newId : jsstring) (now : Z)
  (st : AppState) : AppState * option PublishRequest :=
  let st :=
    ifRetrying retryMessageId
      (λ rid, updateMessageStatus rid sending st) st in
  match room with
  | None =>
    let st :=
      ifRetrying retryMessageId
        (λ rid, updateMessageStatus rid failed st)
        (setMessages
           (λ prev, prev ++ [draft newId text participantIdentity now failed])
           st) in
    (setError (Some notConnectedError) st, None)
  | Some room =>
    let messageId := default newId retryMessageId in
    let st :=
      ifRetrying retryMessageId (λ _, st)
        (setMessages
           (λ prev,
              prev ++ [draft messageId text participantIdentity now sending])
           st) in
    let payload :=
      DataChannelMessage.mk text (lit "chat") wire_user (Some now)
        None None None in
    if publishThrows room then
      (setError (Some sendFailedError)
         (updateMessageStatus messageId failed st), None)
    else
      (st, Some {| payload := payload; optReliable := true;
                   optTopic := lit "chat" |})
  end.

(** The [.then] and [.catch] callbacks of the publish promise. *)
Definition publishSettled (messageId : jsstring) (acknowledged : bool)
  (st : AppState) : AppState :=
  if acknowledged then
    setIsAssistantLoading true (updateMessageStatus messageId sent st)
  else
    setError (Some sendFailedError) (updateMessageStatus messageId failed st).

(** [handleRetryMessage] *)
Definition handleRetryMessage (messageId : jsstring) (room : option Room)
  (participantIdentity : jsstring) (newId : jsstring) (now : Z)
  (st : AppState) : AppState * option PublishRequest :=
  match find (λ m, bool_decide (ChatMessage.id m = messageId)) (messages st) with
  | Some message =>
    if bool_decide (ChatMessage.status message = Some failed)
    then handleSendMessage (ChatMessage.text message) (Some messageId) room
           participantIdentity newId now st
    else (st, None)
  | None => (st, None)
  end.

End App.

(* ===================================================================== *)
(** ** The server: fallback lines, sentence extraction, history, retry *)
(* ===================================================================== *)

Module AiService.

(** *** [prompts/voice-assistant.prompt.ts] *)

Definition FALLBACK_RESPONSES : list jsstring :=
  [ lit "I'm having trouble understanding. Could you try again?";
    lit "I couldn't process that. Could you rephrase?";
    lit "Something went wrong on my end. Please try again." ].

(** A value returned by [Math.random()]: a number [r] with [0 <= r < 1],
    here the fraction [rnd_num / (rnd_num + rnd_gap + 1)]. *)
Record RandomValue := { rnd_num : N; rnd_gap : N }.

(** [Math.floor(r * n)] for such an [r] and a natural number [n]
    (exact arithmetic; the rounding of the product is not modelled). *)
Definition floor_times (r : RandomValue) (n : nat) : nat :=
  N.to_nat ((rnd_num r * N.of_nat n) / (rnd_num r + rnd_gap r + 1))%N.

(** [getRandomFallbackResponse], given the value [Math.random()] returns.
    An index out of range would give [undefined], modelled by the empty
    string. *)
Definition getRandomFallbackResponse (r : RandomValue) : jsstring :=
  let index := floor_times r (length FALLBACK_RESPONSES) in
  default [] (FALLBACK_RESPONSES !! index).

(** *** [extractCompleteSentences] *)

Definition is_terminator (c : N) : bool :=
  ((c =? 46) || (c =? 33) || (c =? 63))%N.

(** Number of leading code units of [s] matched by [\s]. *)
Fixpoint white_space_run (s : jsstring) : nat :=
  match s with
  | c :: s' => if is_white_space c then S (white_space_run s') else O
  | [] => O
  end.

(** Length of the match of [(?:\s+|$)] at the start of [s], if any: the
    greedy [\s+] when there is white space, else [$] at the end of input. *)
Definition match_tail (s : jsstring) : option nat :=
  let n := white_space_run s in
  if (0 <? n)%nat then Some n
  else match s with [] => Some O | _ :: _ => None end.

(** Length of the match of [([.!?])(?:\s+|$)] at the start of [s], if any. *)
Definition match_here (s : jsstring) : option nat :=
  match s with
  | c :: s' => if is_terminator c then S <$> match_tail s' else None
  | [] => None
  end.

(** Leftmost match in [s], the part of the buffer that starts at [index];
    the result is the match's index in the buffer and its length. *)
Fixpoint search (s : jsstring) (index : nat) : option (nat * nat) :=
  match match_here s with
  | Some len => Some (index, len)
  | None =>
    match s with
    | [] => None
    | _ :: s' => search s' (S index)
    end
  end.

(** [sentenceEndRegex.exec(buffer)] for the global regular expression, when
    its [lastIndex] property is [lastIndex]. *)
Definition exec (buffer : jsstring) (lastIndex : nat) : option (nat * nat) :=
  if (length buffer <? lastIndex)%nat then None
  else search (drop lastIndex buffer) lastIndex.

(** The [while] loop.  The regular expression's own [lastIndex] and the
    local variable [lastIndex] hold the same value at every iteration (0 at
    first, then [endPos]); one argument stands for both.  Every match is at
    least one code unit long, so [S (length buffer)] iterations are enough:
    the loop then ends on an [exec] without match
    ([Segmentation.execLoop_ends]). *)
Fixpoint execLoop (fuel : nat) (buffer : jsstring) (lastIndex : nat)
  (sentences : list jsstring) : list jsstring * nat :=
  match fuel with
  | O => (sentences, lastIndex)
  | S fuel =>
    match exec buffer lastIndex with
    | None => (sentences, lastIndex)
    | Some (index, len) =>
      let endPos := (index + len)%nat in
      let sentence :=
        trim (slice buffer (Z.of_nat lastIndex) (Some (Z.of_nat endPos))) in
      execLoop fuel buffer endPos
        (if truthy sentence then sentences ++ [sentence] else sentences)
    end
  end.

Record Extraction := { extracted : list jsstring; remaining : jsstring }.

Definition extractCompleteSentences (buffer : jsstring) : Extraction :=
  let '(sentences, lastIndex) := execLoop (S (length buffer)) buffer O [] in
  {| extracted := sentences;
     remaining := slice buffer (Z.of_nat lastIndex) None |}.

(** *** Data of the service *)

Inductive ConversationRole := user | assistant.
Inductive PromptRole := system | turn (r : ConversationRole).

Module ConversationMessage.
Record t := mk { role : ConversationRole; content : jsstring; timestamp : Z }.
End ConversationMessage.

Record SessionHistory := {
  messages : list ConversationMessage.t;
  createdAt : Z;
  lastUpdated : Z;
}.

Record GenerateOptions := {
  transcript : jsstring;
  roomName : option jsstring;
  maxTokens : option Z;
}.

Definition PromptMessage : Type := PromptRole * jsstring.

(** Values that are thrown: an [Error] of the SDK or the runtime with its
    message, a value that is not an [Error], or an [AiGenerationError]. *)
Inductive Thrown :=
| ErrorObject (message : jsstring)
| NotAnError
| AiGenerationError (message : jsstring) (cause : Thrown) (isRetryable : bool).

(** What one call of the language model does: the chunks its text stream
    yields, then either the end of the stream or a thrown value.  A failure
    with no chunk covers a call that throws at once.  [generateText] returns
    the concatenation of the chunks when there is no failure. *)
Record ModelRun := { chunks : list jsstring; failure : option Thrown }.

(** The behaviour of the outside world: the [n]-th call of the model on a
    list of messages, and the [n]-th value of [Math.random()]. *)
Record Oracle := {
  model : nat → list PromptMessage → ModelRun;
  random : nat → RandomValue;
}.

(** The state the service reads and writes. *)
Record World := {
  history : gmap jsstring SessionHistory;
  modelCalls : nat;
  randomCalls : nat;
  spoken : list jsstring;
  delays : list Z;
  clock : Z;
}.

Definition VOICE_ASSISTANT_PROMPT : jsstring :=
  lit "You are a helpful voice assistant.

BEHAVIOR:
- Be concise - responses will be spoken aloud
- Be conversational and friendly
- Ask clarifying questions when needed
- Acknowledge the user's input before responding

FORMAT:
- Keep responses under 2-3 sentences when possible
- Avoid lists and bullet points (hard to speak)
- Use natural speech patterns
- Don't use markdown formatting

CONTEXT:
- You are speaking with users in a voice chat room
- The user's speech has been transcribed, so there may be minor transcription errors
- If you don't understand something, ask for clarification

LIMITATIONS:
- Do not access external websites or databases
- Do not execute code or run commands
- If you cannot help with something, say so politely".

Definition maxHistoryMessages : Z := 20.

(** *** A state and exception monad for the [async] methods *)

Inductive Result (A : Type) :=
| Returned (a : A)
| Threw (e : Thrown).
Arguments Returned {A} a.
Arguments Threw {A} e.

Definition M (A : Type) : Type := World → Result A * World.

#[export] Instance M_ret : MRet M := λ A a w, (Returned a, w).
#[export] Instance M_bind : MBind M := λ A B f m w,
  match m w with
  | (Returned a, w') => f a w'
  | (Threw e, w') => (Threw e, w')
  end.

Definition throw {A} (e : Thrown) : M A := λ w, (Threw e, w).

(** [try { body } catch (error) { handler }] *)
Definition try_catch {A} (body : M A) (handler : Thrown → M A) : M A := λ w,
  match body w with
  | (Returned a, w') => (Returned a, w')
  | (Threw e, w') => handler e w'
  end.

(** Field updates of the world. *)
Definition with_history (h : gmap jsstring SessionHistory) (w : World) : World :=
  {| history := h; modelCalls := modelCalls w; randomCalls := randomCalls w;
     spoken := spoken w; delays := delays w; clock := clock w |}.
Definition with_clock (t : Z) (w : World) : World :=
  {| history := history w; modelCalls := modelCalls w;
     randomCalls := randomCalls w; spoken := spoken w; delays := delays w;
     clock := t |}.

(** The service right after its constructor ran ([new Map()]). *)
Definition newService (now : Z) : World :=
  {| history := ∅; modelCalls := O; randomCalls := O; spoken := [];
     delays := []; clock := now |}.

(** *** Methods that do not call the model *)

(** [delay(ms)]: the wait is recorded and the clock moves on. *)
Definition delay (ms : Z) : M unit := λ w,
  (Returned tt,
   {| history := history w; modelCalls := modelCalls w;
      randomCalls := randomCalls w; spoken := spoken w;
      delays := delays w ++ [ms]; clock := clock w + ms |}).

(** The sentence callback of a caller whose callback returns from every
    call: it records the sentence it is called with.  The methods below
    are the service's with this callback; module [Streaming] has them with
    a callback that may throw. *)
Definition onSentence (sentence : jsstring) : M unit := λ w,
  (Returned tt,
   {| history := history w; modelCalls := modelCalls w;
      randomCalls := randomCalls w; spoken := spoken w ++ [sentence];
      delays := delays w; clock := clock w |}).

Definition error_message (e : Thrown) : option jsstring :=
  match e with
  | ErrorObject m => Some m
  | AiGenerationError m _ _ => Some m
  | NotAnError => None
  end.

(** [isRetryableError] *)
Definition isRetryableError (error : Thrown) : bool :=
  match error_message error with
  | Some message =>
    if includes message (lit "rate limit") then false
    else if includes message (lit "ECONNREFUSED")
            || includes message (lit "timeout") then true
    else true
  | None => true
  end.

(** [error instanceof AiGenerationError && !error.isRetryable] *)
Definition isFinalFailure (error : Thrown) : bool :=
  match error with
  | AiGenerationError _ _ isRetryable => negb isRetryable
  | _ => false
  end.

(** [getHistory] *)
Definition getHistory (roomName : jsstring) (w : World)
  : list ConversationMessage.t :=
  match history w !! roomName with
  | Some session => messages session
  | None => []
  end.

(** [clearHistory] *)
Definition clearHistory (roomName : jsstring) : M unit := λ w,
  (Returned tt, with_history (delete roomName (history w)) w).

(** [buildMessages] *)
Definition buildMessages (roomName : option jsstring) (transcript : jsstring)
  : M (list PromptMessage) := λ w,
  let past :=
    match roomName with
    | Some room =>
      if truthy room then
        match history w !! room with
        | Some session =>
          map (λ msg, (turn (ConversationMessage.role msg),
                       ConversationMessage.content msg)) (messages session)
        | None => []
        end
      else []
    | None => []
    end in
  (Returned ([(system, VOICE_ASSISTANT_PROMPT)] ++ past
             ++ [(turn user, transcript)]), w).

(** [addToHistory] *)
Definition addToHistory (roomName : jsstring) (role : ConversationRole)
  (content : jsstring) : M unit := λ w,
  let session :=
    match history w !! roomName with
    | Some session => session
    | None => {| messages := []; createdAt := clock w; lastUpdated := clock w |}
    end in
  let pushed :=
    messages session ++ [ConversationMessage.mk role content (clock w)] in
  let kept :=
    if maxHistoryMessages <? Z.of_nat (length pushed)
    then slice pushed (Z.quot (- maxHistoryMessages) 2) None
    else pushed in
  (Returned tt,
   with_history
     (<[roomName := {| messages := kept; createdAt := createdAt session;
                       lastUpdated := clock w |}]> (history w)) w).

(** *** Methods that call the model *)

Section Generation.
Variable oracle : Oracle.

(** [Math.random()] *)
Definition Math_random : M RandomValue := λ w,
  (Returned (random oracle (randomCalls w)),
   {| history := history w; modelCalls := modelCalls w;
      randomCalls := S (randomCalls w); spoken := spoken w;
      delays := delays w; clock := clock w |}).

Definition fallbackResponse : M jsstring :=
  r ← Math_random; mret (getRandomFallbackResponse r).

(** One call of the model, [generateText] or [streamText].  The clock of
    the world stands still while the call is awaited, so that the time
    stamps [addToHistory] takes after it are not those of the code; they
    are stated for appends made at given times only ([HistoryOps]). *)
Definition callModel (messages : list PromptMessage) : M ModelRun := λ w,
  (Returned (model oracle (modelCalls w) messages),
   {| history := history w; modelCalls := S (modelCalls w);
      randomCalls := randomCalls w; spoken := spoken w;
      delays := delays w; clock := clock w |}).

(** [await generateText(...)], reduced to [result.text]. *)
Definition generateText (messages : list PromptMessage) : M jsstring :=
  run ← callModel messages;
  match failure run with
  | Some e => throw e
  | None => mret (concat (chunks run))
  end.

Definition saveTurn (roomName : option jsstring) (transcript reply : jsstring)
  : M unit :=
  match roomName with
  | Some room =>
    if truthy room then
      addToHistory room user transcript;; addToHistory room assistant reply
    else mret tt
  | None => mret tt
  end.

(** [generateResponse], reduced to the [text] of its result. *)
Definition generateResponse (options : GenerateOptions) : M jsstring :=
  if negb (truthy (trim (transcript options))) then fallbackResponse
  else
    try_catch
      (messages ← buildMessages (roomName options) (transcript options);
       text ← generateText messages;
       saveTurn (roomName options) (transcript options) text;;
       mret text)
      (λ error,
         throw (AiGenerationError (lit "Failed to generate response") error
                  (isRetryableError error))).

(** The [for] loop of the two retry methods: [iterations] is the number of
    values of [attempt] left up to [maxRetries].  [Some] is the [return]
    inside the [try]; [None] is leaving the loop, by [break] or because the
    attempts are exhausted. *)
Fixpoint retryLoop {A} (body : M A) (iterations : nat) (attempt maxRetries : Z)
  : M (option A) :=
  match iterations with
  | O => mret None
  | S iterations =>
    try_catch (a ← body; mret (Some a))
      (λ error,
         if isFinalFailure error then mret None
         else
           (if attempt <? maxRetries then delay (1000 * (attempt + 1))
            else mret tt);;
           retryLoop body iterations (attempt + 1) maxRetries)
  end.

(** [generateResponseWithRetry] *)
Definition generateResponseWithRetry (options : GenerateOptions)
  (maxRetries : Z) : M jsstring :=
  r ← retryLoop (generateResponse options) (Z.to_nat (maxRetries + 1)) 0
        maxRetries;
  match r with
  | Some text => mret text
  | None => fallbackResponse
  end.

(** The body of [for (const sentence of sentences.extracted)]. *)
Fixpoint emitAll (sentences : list jsstring) : M unit :=
  match sentences with
  | [] => mret tt
  | sentence :: rest => onSentence sentence;; emitAll rest
  end.

(** The [for await] loop over the chunks the stream yields; the result is
    the final [fullResponse] and [sentenceBuffer]. *)
Fixpoint forAwait (stream : list jsstring) (fullResponse sentenceBuffer : jsstring)
  : M (jsstring * jsstring) :=
  match stream with
  | [] => mret (fullResponse, sentenceBuffer)
  | chunk :: rest =>
    let fullResponse := fullResponse ++ chunk in
    let sentenceBuffer := sentenceBuffer ++ chunk in
    let sentences := extractCompleteSentences sentenceBuffer in
    if (0 <? length (extracted sentences))%nat then
      emitAll (extracted sentences);;
      forAwait rest fullResponse (remaining sentences)
    else forAwait rest fullResponse sentenceBuffer
  end.

(** [generateStreamingResponse] *)
Definition generateStreamingResponse (options : GenerateOptions)
  : M jsstring :=
  if negb (truthy (trim (transcript options))) then
    fallback ← fallbackResponse;
    onSentence fallback;;
    mret fallback
  else
    try_catch
      (messages ← buildMessages (roomName options) (transcript options);
       run ← callModel messages;
       '(fullResponse, sentenceBuffer) ← forAwait (chunks run) [] [];
       match failure run with
       | Some e => throw e
       | None =>
         let remaining := trim sentenceBuffer in
         (if truthy remaining then onSentence remaining else mret tt);;
         saveTurn (roomName options) (transcript options) fullResponse;;
         mret fullResponse
       end)
      (λ error,
         throw (AiGenerationError (lit "Failed to generate streaming response")
                  error (isRetryableError error))).

(** [generateStreamingResponseWithRetry] *)
Definition generateStreamingResponseWithRetry (options : GenerateOptions)
  (maxRetries : Z) : M jsstring :=
  r ← retryLoop (generateStreamingResponse options)
        (Z.to_nat (maxRetries + 1)) 0 maxRetries;
  match r with
  | Some text => mret text
  | None =>
    fallback ← fallbackResponse;
    onSentence fallback;;
    mret fallback
  end.

End Generation.

End AiService.

(* ===================================================================== *)
(** ** The streaming methods with the caller's callback *)
(* ===================================================================== *)

(** [generateStreamingResponse] and [generateStreamingResponseWithRetry]
    take the sentence callback from their caller and [await] it: inside
    the [try] for the sentences of the stream, outside of any [try] for a
    fallback line.  Module [AiService] has them with one callback,
    [AiService.onSentence], which records the sentence and returns.  Here
    they are with the caller's callback.  Of a callback the service sees
    whether a call returns or throws; [SentenceCallback] tells that from
    the number of calls made before (the length of the log [spoken]) and
    the sentence.  A call is logged whether it returns or throws.  The
    definitions are those of [AiService], with [onSentence callback] where
    [AiService] has its own [onSentence]. *)
Module Streaming.
Import AiService.

(** [None]: the call returns; [Some e]: it throws [e]. *)
Definition SentenceCallback : Type := nat → jsstring → option Thrown.

(** [await onSentence(sentence)] *)
Definition onSentence (callback : SentenceCallback) (sentence : jsstring)
  : M unit := λ w,
  let w' :=
    {| history := history w; modelCalls := modelCalls w;
       randomCalls := randomCalls w; spoken := spoken w ++ [sentence];
       delays := delays w; clock := clock w |} in
  match callback (length (spoken w)) sentence with
  | None => (Returned tt, w')
  | Some e => (Threw e, w')
  end.

Section Callback.
Variable callback : SentenceCallback.
Variable oracle : Oracle.

(** The body of [for (const sentence of sentences.extracted)]. *)
Fixpoint emitAll (sentences : list jsstring) : M unit :=
  match sentences with
  | [] => mret tt
  | sentence :: rest => onSentence callback sentence;; emitAll rest
  end.

(** The [for await] loop over the chunks the stream yields. *)
Fixpoint forAwait (stream : list jsstring) (fullResponse sentenceBuffer : jsstring)
  : M (jsstring * jsstring) :=
  match stream with
  | [] => mret (fullResponse, sentenceBuffer)
  | chunk :: rest =>
    let fullResponse := fullResponse ++ chunk in
    let sentenceBuffer := sentenceBuffer ++ chunk in
    let sentences := extractCompleteSentences sentenceBuffer in
    if (0 <? length (extracted sentences))%nat then
      emitAll (extracted sentences);;
      forAwait rest fullResponse (remaining sentences)
    else forAwait rest fullResponse sentenceBuffer
  end.

(** [generateStreamingResponse] *)
Definition generateStreamingResponse (options : GenerateOptions)
  : M jsstring :=
  if negb (truthy (trim (transcript options))) then
    fallback ← fallbackResponse oracle;
    onSentence callback fallback;;
    mret fallback
  else
    try_catch
      (messages ← buildMessages (roomName options) (transcript options);
       run ← callModel oracle messages;
       '(fullResponse, sentenceBuffer) ← forAwait (chunks run) [] [];
       match failure run with
       | Some e => throw e
       | None =>
         let remaining := trim sentenceBuffer in
         (if truthy remaining then onSentence callback remaining
          else mret tt);;
         saveTurn (roomName options) (transcript options) fullResponse;;
         mret fullResponse
       end)
      (λ error,
         throw (AiGenerationError (lit "Failed to generate streaming response")
                  error (isRetryableError error))).

(** [generateStreamingResponseWithRetry] *)
Definition generateStreamingResponseWithRetry (options : GenerateOptions)
  (maxRetries : Z) : M jsstring :=
  r ← retryLoop (generateStreamingResponse options)
        (Z.to_nat (maxRetries + 1)) 0 maxRetries;
  match r with
  | Some text => mret text
  | None =>
    fallback ← fallbackResponse oracle;
    onSentence callback fallback;;
    mret fallback
  end.

End Callback.

(** A callback that returns from every call, and one that throws [e] from
    every call. *)
Definition returning : SentenceCallback := λ _ _, None.
Definition throwing (e : Thrown) : SentenceCallback := λ _ _, Some e.

(** The error of a caller whose callback fails. *)
Definition playbackError : Thrown := ErrorObject (lit "speaker unavailable").

End Streaming.

(* ===================================================================== *)
(** ** Sentence segmentation as the specification words it *)
(* ===================================================================== *)

(** Section 4.3 of the specification: "scan the accumulating buffer for
    sentence-terminating punctuation ([.], [!], [?]) followed by whitespace
    or end-of-buffer; every time a new terminator is found, cut and emit
    everything from the last cut point through the terminator (trimmed) as
    one sentence via the callback, then advance the cut point.  Any trailing
    unterminated remainder is emitted once, trimmed, after the underlying
    stream ends, provided it is non-empty."  These definitions follow that
    text, not the code; module [Segmentation] compares them with
    [AiService.generateStreamingResponse]. *)
Module SegmentationSpec.
Import AiService.

Definition followed_by_space_or_end (rest : jsstring) : bool :=
  match rest with
  | [] => true
  | c :: _ => is_white_space c
  end.

(** Scan [rest], the part of the buffer not looked at yet.  [segment] is the
    text between the last cut point and the scan position.  The result is
    the sentences emitted and the text left after the last cut point. *)
Fixpoint scan (segment rest : jsstring) : list jsstring * jsstring :=
  match rest with
  | [] => ([], segment)
  | c :: rest' =>
    if is_terminator c && followed_by_space_or_end rest' then
      let '(sentences, pending) := scan [] rest' in
      (trim (segment ++ [c]) :: sentences, pending)
    else scan (segment ++ [c]) rest'
  end.

(** The sentences emitted for a stream of chunks; [pending] is the text of
    the accumulated buffer after the last cut point. *)
Fixpoint stream (chunks : list jsstring) (pending : jsstring)
  : list jsstring :=
  match chunks with
  | [] => let rest := trim pending in if truthy rest then [rest] else []
  | chunk :: chunks' =>
    let '(sentences, pending') := scan [] (pending ++ chunk) in
    sentences ++ stream chunks' pending'
  end.

Definition callbacks (chunks : list jsstring) : list jsstring :=
  stream chunks [].

End SegmentationSpec.

(* ===================================================================== *)
(** ** Notions and concrete runs used in the statements *)
(* ===================================================================== *)

Module AppNotions.
Import App.

(** The three shapes the updater of the ["chat"] branch can produce. *)
Inductive chat_step data participant kind topic newId now
  (prev : list ChatMessage.t) : list ChatMessage.t → Prop :=
| step_append :
    chat_step data participant kind topic newId now prev
      (prev ++ [incomingMessage data participant kind topic newId now])
| step_merge init lastMessage s :
    prev = init ++ [lastMessage] →
    s = streaming ∨ s = sent →
    chat_step data participant kind topic newId now prev
      (init ++ [ChatMessage.with_status
                  (incomingMessage data participant kind topic newId now) s]).

(** The test [sameSender] of the updater. *)
Definition same_sender (sid : jsstring) (r : Role) (lastMessage : ChatMessage.t)
  : bool :=
  if truthy sid && truthy_opt (ChatMessage.senderId lastMessage)
  then bool_decide (Some sid = ChatMessage.senderId lastMessage)
  else bool_decide (ChatMessage.role lastMessage = r).

(** A payload that [JSON.parse] turns into an object with these members. *)
Definition wireObject (fields : list (jsstring * json)) (text : jsstring)
  : Payload :=
  {| decoded := text; json_parse := Some (JObject fields) |}.

(** The LiveKit topic of an event on the chat channel: ["chat"], or absent
    when the topic comes from the payload. *)
Definition chatTopic (explicit : bool) : option jsstring :=
  if explicit then Some (lit "chat") else None.

(** A concrete run: an interim ["Hello"], then twice the final ["Hello"],
    from the empty transcript, no LiveKit participant or topic attached. *)
Definition emptyState : AppState :=
  {| messages := []; isAssistantLoading := false; error := None |}.
Definition helloInterim : DataChannelMessage.t :=
  DataChannelMessage.mk (lit "Hello") (lit "chat") wire_ai None None None
    (Some true).
Definition helloFinal : DataChannelMessage.t :=
  DataChannelMessage.mk (lit "Hello") (lit "chat") wire_ai None None
    (Some true) None.
Definition helloSent (newId : jsstring) (now : Z) : ChatMessage.t :=
  ChatMessage.mk newId assistant (lit "Hello") now (Some (lit "ai"))
    (Some (lit "chat")) (Some sent) (Some reliable).
Definition helloRun : AppState :=
  handleDataReceived
    (wireObject [(lit "message", JString (lit "Hello"));
                 (lit "isFinal", JBool true)] [])
    None None None (lit "m3") 3
    (handleDataReceived
       (wireObject [(lit "message", JString (lit "Hello"));
                    (lit "isFinal", JBool true)] [])
       None None None (lit "m2") 2
       (handleDataReceived
          (wireObject [(lit "message", JString (lit "Hello"));
                       (lit "interim", JBool true)] [])
          None None None (lit "m1") 1 emptyState)).

(** A transcript with a failed draft of the user, for the send pipeline. *)
Definition failedDraft : ChatMessage.t :=
  ChatMessage.mk (lit "m1") user (lit "hi") 1 (Some (lit "user"))
    (Some (lit "chat")) (Some failed) None.
Definition otherEntry : ChatMessage.t :=
  ChatMessage.mk (lit "m0") assistant (lit "hello") 0 (Some (lit "ai"))
    (Some (lit "chat")) (Some sent) (Some reliable).
Definition offlineState : AppState :=
  {| messages := [otherEntry; failedDraft]; isAssistantLoading := false;
     error := None |}.

(** The same transcript while the draft is still being sent. *)
Definition sendingDraft : ChatMessage.t :=
  ChatMessage.mk (lit "m1") user (lit "hi") 1 (Some (lit "user"))
    (Some (lit "chat")) (Some sending) None.
Definition pendingState : AppState :=
  {| messages := [otherEntry; sendingDraft]; isAssistantLoading := false;
     error := None |}.

End AppNotions.

Module ServiceNotions.
Import AiService.

(** The world after the callback was called with each of [sentences]. *)
Definition say (sentences : list jsstring) (w : World) : World :=
  {| history := history w; modelCalls := modelCalls w;
     randomCalls := randomCalls w; spoken := spoken w ++ sentences;
     delays := delays w; clock := clock w |}.

(** A model that streams the three chunks of the segmentation example. *)
Definition demoChunks : list jsstring :=
  [lit "Hi "; lit "there. How "; lit "are you?"].
Definition demoOracle : Oracle :=
  {| model := λ _ _, {| chunks := demoChunks; failure := None |};
     random := λ _, {| rnd_num := 0; rnd_gap := 0 |} |}.
Definition demoOptions : GenerateOptions :=
  {| transcript := lit "hello"; roomName := Some (lit "room");
     maxTokens := None |}.

(** A string fit to be spoken: not empty and not white space only. *)
Definition speakable (s : jsstring) : Prop :=
  s ≠ [] ∧ truthy (trim s) = true.

(** [w'] is [w] after more calls of the callback, each with a speakable
    string. *)
Definition extends (w w' : World) : Prop :=
  ∃ out, spoken w' = spoken w ++ out ∧ Forall speakable out.

(** A computation that only ever calls the callback with speakable
    strings, whether it returns or throws. *)
Definition polite {A} (m : M A) : Prop := ∀ w, extends w (m w).2.

(** A computation whose returned values satisfy [P]. *)
Definition returns {A} (m : M A) (P : A → Prop) : Prop :=
  ∀ w a w', m w = (Returned a, w') → P a.

(** [w'] is [w] after [k] more calls of the model, with no draw from
    [Math.random] and only speakable strings handed to the callback. *)
Definition attempts (k : nat) (w w' : World) : Prop :=
  modelCalls w' = (modelCalls w + k)%nat
  ∧ randomCalls w' = randomCalls w
  ∧ extends w w'.

(** A model whose stream breaks, each time, with an error that is not a
    rate limit. *)
Definition failingOracle : Oracle :=
  {| model := λ _ _,
       {| chunks := [lit "One. Tw"];
          failure := Some (ErrorObject (lit "socket hang up")) |};
     random := λ _, {| rnd_num := 1; rnd_gap := 1 |} |}.

(** A blank transcript, and two oracles that differ in [Math.random()]
    only. *)
Definition blankOptions : GenerateOptions :=
  {| transcript := lit "   "; roomName := Some (lit "room");
     maxTokens := None |}.
Definition lowDraw : Oracle :=
  {| model := model demoOracle;
     random := λ _, {| rnd_num := 0; rnd_gap := 0 |} |}.
Definition highDraw : Oracle :=
  {| model := model demoOracle;
     random := λ _, {| rnd_num := 2; rnd_gap := 0 |} |}.

End ServiceNotions.

Module HistoryOps.
Import AiService.

(** One call of [addToHistory], made when [Date.now()] is [at_]. *)
Record Append := {
  room : jsstring;
  role : ConversationRole;
  content : jsstring;
  at_ : Z;
}.

(** The message such a call stores. *)
Definition stored (a : Append) : ConversationMessage.t :=
  ConversationMessage.mk (role a) (content a) (at_ a).

(** The service after the call. *)
Definition append (w : World) (a : Append) : World :=
  (addToHistory (room a) (role a) (content a) (with_clock (at_ a) w)).2.

(** The service after a sequence of calls. *)
Definition appendAll (ops : list Append) (w : World) : World :=
  foldl append w ops.

(** Everything appended to a room, in order. *)
Definition appendedTo (r : jsstring) (ops : list Append)
  : list ConversationMessage.t :=
  stored <$> filter (λ a, room a = r) ops.

(** What one append stores for its room. *)
Definition afterAppend (old : list ConversationMessage.t) (a : Append)
  : list ConversationMessage.t :=
  let pushed := old ++ [stored a] in
  if (20 <? length pushed)%nat then drop (length pushed - 10) pushed
  else pushed.

(** One user message for the room ["room"]. *)
Definition oneAppend : Append :=
  {| room := lit "room"; role := user; content := lit "hi"; at_ := 7 |}.

End HistoryOps.

(* ===================================================================== *)
(** ** Sequences of inbound events *)
(* ===================================================================== *)

Module Traffic.
Import App.

(** One [RoomEvent.DataReceived] event as [handleDataReceived] gets it,
    with the values [generateId()] and [Date.now()] return while it is
    handled. *)
Record Event := {
  bytes : Payload;
  sender : option RemoteParticipant;
  packetKind : option DataPacket_Kind;
  channelTopic : option jsstring;
  freshId : jsstring;
  time : Z;
}.

Definition receive (st : AppState) (e : Event) : AppState :=
  handleDataReceived (bytes e) (sender e) (packetKind e) (channelTopic e)
    (freshId e) (time e) st.

(** The handler runs to completion for each event, in order. *)
Definition receiveAll (events : list Event) (st : AppState) : AppState :=
  foldl receive st events.

(** A parsed message of one participant on one LiveKit topic. *)
Record Parsed := {
  data : DataChannelMessage.t;
  parsedKind : option DataPacket_Kind;
  parsedId : jsstring;
  parsedTime : Z;
}.

Definition deliver (participant : option RemoteParticipant)
  (topic : option jsstring) (st : AppState) (p : Parsed) : AppState :=
  dispatch (data p) participant (parsedKind p) topic (parsedId p)
    (parsedTime p) st.

(** The entry [incomingMessage] builds for a parsed message. *)
Definition candidate (participant : option RemoteParticipant)
  (topic : option jsstring) (p : Parsed) : ChatMessage.t :=
  incomingMessage (data p) participant (parsedKind p) topic (parsedId p)
    (parsedTime p).

(** [p] has the role and the identity member of [first] and is, as
    delivered on [topic], on the chat topic. *)
Definition alike (topic : option jsstring) (first p : Parsed) : Prop :=
  DataChannelMessage.role (data p) = DataChannelMessage.role (data first)
  ∧ DataChannelMessage.identity (data p)
    = DataChannelMessage.identity (data first)
  ∧ messageTopic (data p) topic = lit "chat".

(** [e] is a streaming entry of the sender of [first]. *)
Definition open_entry (participant : option RemoteParticipant)
  (first : Parsed) (e : ChatMessage.t) : Prop :=
  ChatMessage.senderId e = Some (senderId (data first) participant)
  ∧ ChatMessage.role e = role (data first)
  ∧ ChatMessage.topic e = Some (lit "chat")
  ∧ ChatMessage.status e = Some streaming.

End Traffic.

(** Concrete traffic: the server's agent relays the user's transcript and
    streams the assistant's reply, all under its own participant identity. *)
Module TrafficRuns.
Import App AppNotions Traffic.

Definition agent : RemoteParticipant := {| identity := lit "ai-agent" |}.

(** A finalized transcript line of the user, relayed by the agent. *)
Definition userLine : ChatMessage.t :=
  ChatMessage.mk (lit "u1") user (lit "What time") 5 (Some (lit "ai-agent"))
    (Some (lit "chat")) (Some sent) (Some reliable).

(** A finalized line of another participant. *)
Definition bobLine : ChatMessage.t :=
  ChatMessage.mk (lit "b1") assistant (lit "Hi") 4 (Some (lit "bob"))
    (Some (lit "chat")) (Some sent) (Some reliable).

(** A streaming line of the assistant. *)
Definition openLine : ChatMessage.t :=
  ChatMessage.mk (lit "a1") assistant (lit "It is noon.") 6
    (Some (lit "ai-agent")) (Some (lit "chat")) (Some streaming)
    (Some reliable).

(** The messages the server sends: [{message, role, topic, is_final}]. *)
Definition wire (text : string) (wireRole : WireRole) (final : option bool)
  : DataChannelMessage.t :=
  DataChannelMessage.mk (lit text) (lit "chat") wireRole None None final None.

Definition part (text : string) (n : Z) : Parsed :=
  {| data := wire text wire_ai (Some false); parsedKind := None;
     parsedId := [N.of_nat (Z.to_nat n)]; parsedTime := n |}.

Definition whole (text : string) (n : Z) : Parsed :=
  {| data := wire text wire_ai (Some true); parsedKind := None;
     parsedId := [N.of_nat (Z.to_nat n)]; parsedTime := n |}.

Definition withMessages (l : list ChatMessage.t) : AppState :=
  {| messages := l; isAssistantLoading := true; error := None |}.

End TrafficRuns.

(* ===================================================================== *)
(** ** The browser application: connection actions and the chat panel *)
(* ===================================================================== *)

(** [connect], [handleDisconnect], [handleMicToggle] and
    [handleEnableAudio] of the [App] component, [tryPlayAudio] of
    [src/react-vite-ui/src/lib/saynaClient.ts] and [handleSend] of
    [src/react-vite-ui/src/components/chat-panel.tsx].  An [async] action
    is cut at its first [await]: the part before it runs at once, the rest
    runs when the calls of the SDK have settled, with their outcomes given;
    other handlers may run in between. *)
Module Connection.
Import App.

Inductive ConnectionStatus := idle | connecting | connected | error_status.
Inductive MicStatus := mic_off | mic_starting | mic_on | mic_error.

#[export] Instance ConnectionStatus_eq_dec : EqDecision ConnectionStatus.
Proof. solve_decision. Defined.
#[export] Instance MicStatus_eq_dec : EqDecision MicStatus.
Proof. solve_decision. Defined.

(** Values thrown at the browser code: a [TokenFetchError], another
    [Error] with its name and message, or a value that is no [Error]. *)
Inductive ClientThrown :=
| TokenFetchError (message : jsstring) (statusCode : option Z)
| OtherError (name message : jsstring)
| NoError.

(** [err instanceof Error ? err.message : fallback] *)
Definition messageOr (fallback : jsstring) (err : ClientThrown) : jsstring :=
  match err with
  | TokenFetchError message _ => message
  | OtherError _ message => message
  | NoError => fallback
  end.

(** An [HTMLAudioElement]: whether it has [srcObject] or [src], and what
    [play()] does, [None] for a promise that resolves. *)
Record AudioElement := {
  hasSource : bool;
  playRejects : option ClientThrown;
}.

(** [tryPlayAudio]: [inl] is the boolean it resolves to, [inr] the error
    it rejects with. *)
Definition tryPlayAudio (audioElement : option AudioElement)
  : bool + ClientThrown :=
  match audioElement with
  | None => inl false
  | Some element =>
    if negb (hasSource element) then inl true
    else
      match playRejects element with
      | None => inl true
      | Some err =>
        match err with
        | OtherError name _ =>
          if bool_decide (name = lit "NotAllowedError")
             || bool_decide (name = lit "NotSupportedError")
          then inl false else inr err
        | TokenFetchError _ _ => inr err
        | NoError => inr err
        end
      end
  end.

(** The [SaynaClient] held in [clientRef]. *)
Record Client := { currentRoom : option Room }.

(** The state of the component: the part of [App.AppState] and the rest. *)
Record Session := {
  chat : AppState;
  connectionStatus : ConnectionStatus;
  micStatus : MicStatus;
  playbackBlocked : bool;
  clientRef : option Client;
  actionInFlight : bool;
}.

(** What the outside does during one [connect]: the client
    [createSaynaClient] builds, the outcome of [client.connect()] and of
    [client.publishMicrophone()] ([None] when they resolve), the audio
    element, and the values of [generateId()] and [Date.now()] for the
    system notice. *)
Record ConnectRun := {
  client : Client;
  connectThrows : option ClientThrown;
  audio : option AudioElement;
  microphoneThrows : option ClientThrown;
  noticeId : jsstring;
  noticeTime : Z;
}.

Definition onChat (f : AppState → AppState) (s : Session) : Session :=
  {| chat := f (chat s); connectionStatus := connectionStatus s;
     micStatus := micStatus s; playbackBlocked := playbackBlocked s;
     clientRef := clientRef s; actionInFlight := actionInFlight s |}.
Definition setConnectionStatus (c : ConnectionStatus) (s : Session) : Session :=
  {| chat := chat s; connectionStatus := c; micStatus := micStatus s;
     playbackBlocked := playbackBlocked s; clientRef := clientRef s;
     actionInFlight := actionInFlight s |}.
Definition setMicStatus (m : MicStatus) (s : Session) : Session :=
  {| chat := chat s; connectionStatus := connectionStatus s; micStatus := m;
     playbackBlocked := playbackBlocked s; clientRef := clientRef s;
     actionInFlight := actionInFlight s |}.
Definition setPlaybackBlocked (b : bool) (s : Session) : Session :=
  {| chat := chat s; connectionStatus := connectionStatus s;
     micStatus := micStatus s; playbackBlocked := b; clientRef := clientRef s;
     actionInFlight := actionInFlight s |}.
Definition setClientRef (c : option Client) (s : Session) : Session :=
  {| chat := chat s; connectionStatus := connectionStatus s;
     micStatus := micStatus s; playbackBlocked := playbackBlocked s;
     clientRef := c; actionInFlight := actionInFlight s |}.
Definition setActionInFlight (b : bool) (s : Session) : Session :=
  {| chat := chat s; connectionStatus := connectionStatus s;
     micStatus := micStatus s; playbackBlocked := playbackBlocked s;
     clientRef := clientRef s; actionInFlight := b |}.

(** [connect] up to [await client.connect()]; [None] when the guard
    refuses the action. *)
Definition connectBegin (withAudio : bool) (run : ConnectRun) (s : Session)
  : option Session :=
  if actionInFlight s then None
  else
    let s := setActionInFlight true s in
    let s := onChat (setError None) s in
    let s := setConnectionStatus connecting s in
    let s := if withAudio then setMicStatus mic_starting s else s in
    let s := setPlaybackBlocked false s in
    Some (setClientRef (Some (client run)) s).

(** The [catch] block of [connect]. *)
Definition connectFailed (err : ClientThrown) (s : Session) : Session :=
  let s := setClientRef None s in
  let s := setConnectionStatus error_status s in
  let s := setMicStatus mic_off s in
  onChat (setError (Some (messageOr (lit "Connection failed") err))) s.

(** [connect] from the moment [client.connect()] has settled. *)
Definition connectEnd (withAudio : bool) (run : ConnectRun) (s : Session)
  : Session :=
  let s :=
    match connectThrows run with
    | Some err => connectFailed err s
    | None =>
      let s := setConnectionStatus connected s in
      match tryPlayAudio (audio run) with
      | inr err => connectFailed err s
      | inl playbackOk =>
        let s := if playbackOk then s else setPlaybackBlocked true s in
        if withAudio then
          match microphoneThrows run with
          | None =>
            onChat
              (addMessage system
                 (lit "Connected to voice room with microphone enabled")
                 None (noticeId run) (noticeTime run))
              (setMicStatus mic_on s)
          | Some micError =>
            let message :=
              messageOr (lit "Failed to enable microphone") micError in
            onChat
              (addMessage system
                 (lit "Connected but microphone failed: " ++ message)
                 None (noticeId run) (noticeTime run))
              (onChat (setError (Some message)) (setMicStatus mic_error s))
          end
        else
          onChat
            (addMessage system (lit "Connected to chat room") None
               (noticeId run) (noticeTime run)) s
      end
    end in
  setActionInFlight false s.

(** [connect] with nothing else running between its two parts. *)
Definition connect (withAudio : bool) (run : ConnectRun) (s : Session)
  : Session :=
  match connectBegin withAudio run s with
  | Some s' => connectEnd withAudio run s'
  | None => s
  end.

(** [handleDisconnect] up to [await clientRef.current.disconnect()]. *)
Definition disconnectBegin (s : Session) : option Session :=
  if actionInFlight s then None else Some (setActionInFlight true s).

(** [handleDisconnect] from then on; [disconnectThrows] tells whether
    [disconnect()] rejected. *)
Definition disconnectEnd (disconnectThrows : bool) (newId : jsstring) (now : Z)
  (s : Session) : Session :=
  let s :=
    match clientRef s with
    | Some _ => if disconnectThrows then s else setClientRef None s
    | None => s
    end in
  let s := setConnectionStatus idle s in
  let s := setMicStatus mic_off s in
  let s := setPlaybackBlocked false s in
  let s :=
    onChat (addMessage system (lit "Disconnected from room") None newId now) s in
  setActionInFlight false s.

Definition handleDisconnect (disconnectThrows : bool) (newId : jsstring)
  (now : Z) (s : Session) : Session :=
  match disconnectBegin s with
  | Some s' => disconnectEnd disconnectThrows newId now s'
  | None => s
  end.


(** [handleEnableAudio], when [tryPlayAudio] does not reject. *)
Definition handleEnableAudio (audioElement : option AudioElement)
  (s : Session) : Session :=
  match tryPlayAudio audioElement with
  | inl true => setPlaybackBlocked false s
  | _ => s
  end.

(** [clientRef.current?.currentRoom] *)
Definition roomOf (s : Session) : option Room :=
  match clientRef s with
  | Some c => currentRoom c
  | None => None
  end.

(** [handleSendMessage] in a session. *)
Definition sendMessage (text : jsstring) (retryMessageId : option jsstring)
  (participantIdentity newId : jsstring) (now : Z) (s : Session)
  : Session * option PublishRequest :=
  let '(st, request) :=
    handleSendMessage text retryMessageId (roomOf s) participantIdentity
      newId now (chat s) in
  (onChat (λ _, st) s, request).

(** [handleSend] of the chat panel: the text handed to [onSendMessage], if
    any, and the new content of the input box. *)
Definition handleSend (inputValue : jsstring) (status : ConnectionStatus)
  : option jsstring * jsstring :=
  let trimmed := trim inputValue in
  let isConnected := bool_decide (status = connected) in
  if truthy trimmed && isConnected then (Some trimmed, [])
  else (None, inputValue).

(** The submit of the chat panel wired to [handleSendMessage]. *)
Definition submit (inputValue participantIdentity newId : jsstring) (now : Z)
  (s : Session) : Session * option PublishRequest * jsstring :=
  match handleSend inputValue (connectionStatus s) with
  | (Some text, input) =>
    (sendMessage text None participantIdentity newId now s, input)
  | (None, input) => (s, None, input)
  end.

(** The ids of the transcript are all different from [messageId]. *)
Definition unused (messageId : jsstring) (l : list ChatMessage.t) : Prop :=
  Forall (λ m, ChatMessage.id m ≠ messageId) l.

(** A session to start from, and a client with a room. *)
Definition freshSession : Session :=
  {| chat := {| messages := []; isAssistantLoading := false; error := None |};
     connectionStatus := idle; micStatus := mic_off; playbackBlocked := false;
     clientRef := None; actionInFlight := false |}.
Definition liveClient : Client :=
  {| currentRoom := Some {| publishThrows := false |} |}.
Definition goodRun : ConnectRun :=
  {| client := liveClient; connectThrows := None; audio := None;
     microphoneThrows := None; noticeId := lit "s1"; noticeTime := 1 |}.
Definition badRun : ConnectRun :=
  {| client := liveClient;
     connectThrows :=
       Some (TokenFetchError (lit "Request failed: 500") (Some 500));
     audio := None; microphoneThrows := None; noticeId := lit "s1";
     noticeTime := 1 |}.

End Connection.

(* ===================================================================== *)
(** ** Runs of the retry methods *)
(* ===================================================================== *)

Module ServiceRuns.
Import AiService ServiceNotions.

(** The world after one more call of the model. *)
Definition called (w : World) : World :=
  {| history := history w; modelCalls := S (modelCalls w);
     randomCalls := randomCalls w; spoken := spoken w;
     delays := delays w; clock := clock w |}.

(** [w'] is [w] after an attempt that called the model once and left the
    history, the clock, the waits and [Math.random] alone. *)
Definition failedAttempt (w w' : World) : Prop :=
  modelCalls w' = S (modelCalls w)
  ∧ randomCalls w' = randomCalls w
  ∧ delays w' = delays w
  ∧ clock w' = clock w
  ∧ history w' = history w.

(** [count] waits in a row, in milliseconds: [1000 * first],
    [1000 * (first + 1)], and so on. *)
Definition backoff (first count : Z) : list Z :=
  (λ k, 1000 * k) <$> seqZ first count.

(** A string whose last code unit is [.], [!] or [?]. *)
Definition ends_with_terminator (s : jsstring) : Prop :=
  ∃ c, last s = Some c ∧ is_terminator c = true.

(** The code units of a string that are not white space. *)
Definition visible (s : list N) : list N :=
  filter (λ c, is_white_space c = false) s.

(** A model that answers every call with a rate-limit error. *)
Definition rateLimitedOracle : Oracle :=
  {| model := λ _ _,
       {| chunks := [];
          failure := Some (ErrorObject (lit "429: rate limit exceeded")) |};
     random := λ _, {| rnd_num := 1; rnd_gap := 1 |} |}.

(** A model whose first stream breaks in the second sentence and whose
    later streams are complete. *)
Definition recoveringOracle : Oracle :=
  {| model := λ n _,
       match n with
       | O => {| chunks := [lit "One. Tw"];
                 failure := Some (ErrorObject (lit "socket hang up")) |}
       | S _ => {| chunks := [lit "One. "; lit "Two."]; failure := None |}
       end;
     random := λ _, {| rnd_num := 1; rnd_gap := 1 |} |}.

(** What a room's history says, in order: who said what.  The time stamps
    are left aside. *)
Definition contents (room : jsstring) (w : World)
  : list (ConversationRole * jsstring) :=
  (λ m, (ConversationMessage.role m, ConversationMessage.content m))
  <$> getHistory room w.

(** A service that remembers one message for each of two rooms. *)
Definition lobbyAppend : HistoryOps.Append :=
  {| HistoryOps.room := lit "lobby"; HistoryOps.role := assistant;
     HistoryOps.content := lit "welcome"; HistoryOps.at_ := 3 |}.
Definition twoRooms : World :=
  HistoryOps.appendAll [HistoryOps.oneAppend; lobbyAppend] (newService 0).

End ServiceRuns.

(* ===================================================================== *)
(** ** The voice agent *)
(* ===================================================================== *)

(** The [VoiceAgent] class of [src/unnamed/part_003], for what it does with
    a speech-to-text result: [sendTranscriptMessage],
    [sendAiResponseMessage], [processTranscript], [stop] and the callback
    it registers with [registerOnSttResult].  Of the SDK client the model
    keeps the getter [ready] and the calls the agent makes.  The agent
    catches what [sendMessage] and [disconnect] throw and goes on, so only
    the call is recorded; [speak] is taken not to throw on a client that is
    ready.  The time stamps the agent puts on its messages are left out.
    No other event of the agent is handled while a transcript is being
    processed. *)
Module VoiceAgent.
Import AiService.

Inductive ClientCall :=
| SendMessage (text role topic : jsstring) (is_final : bool)
| Speak (text : jsstring)
| Disconnect.

Record Agent := {
  isRunning : bool;
  ready : bool;
  calls : list ClientCall;
}.

Definition call (c : ClientCall) (a : Agent) : Agent :=
  {| isRunning := isRunning a; ready := ready a; calls := calls a ++ [c] |}.

(** [sendTranscriptMessage] *)
Definition sendTranscriptMessage (transcript : jsstring) (isFinal : bool)
  (a : Agent) : Agent :=
  if negb (isRunning a) || negb (ready a) then a
  else call (SendMessage transcript (lit "user") (lit "chat") isFinal) a.

(** [sendAiResponseMessage]; [fullText ?? response] is [fullText] unless it
    is absent. *)
Definition sendAiResponseMessage (response : jsstring) (isFinal : bool)
  (fullText : option jsstring) (a : Agent) : Agent :=
  if negb (isRunning a) || negb (ready a) then a
  else
    let messageText := default response fullText in
    call (SendMessage messageText (lit "ai") (lit "chat") isFinal) a.

(** The variables the sentence callback of [processTranscript] closes
    over. *)
Record Closure := {
  accumulatedText : jsstring;
  sentenceCount : nat;
}.

(** The sentence callback of [processTranscript]. *)
Definition sentenceCallback (s : Closure * Agent) (sentence : jsstring)
  : Closure * Agent :=
  let '(c, a) := s in
  let sentenceCount := S (sentenceCount c) in
  let accumulatedText :=
    accumulatedText c
    ++ ((if truthy (accumulatedText c) then lit " " else lit "") ++ sentence) in
  let a := sendAiResponseMessage sentence false (Some accumulatedText) a in
  let a := if isRunning a && ready a then call (Speak sentence) a else a in
  ({| accumulatedText := accumulatedText; sentenceCount := sentenceCount |}, a).

Definition fallbackMessage : jsstring :=
  lit "I'm sorry, I couldn't process that. Could you try again?".

(** [processTranscript].  The service calls the sentence callback once for
    every string it adds to [spoken], in that order, and the callback
    touches nothing but its closure and the client: its calls are made here
    over the strings added.  [maxRetries] has its default, 2. *)
Definition processTranscript (oracle : Oracle) (roomName transcript : jsstring)
  (a : Agent) (w : World) : Agent * World :=
  if negb (isRunning a) || negb (ready a) then (a, w)
  else
    let '(result, w') :=
      generateStreamingResponseWithRetry oracle
        {| transcript := transcript; roomName := Some roomName;
           maxTokens := None |} 2 w in
    let sentences := drop (length (spoken w)) (spoken w') in
    let '(_, a) :=
      foldl sentenceCallback
        ({| accumulatedText := lit ""; sentenceCount := 0 |}, a) sentences in
    match result with
    | Returned fullResponse =>
      (sendAiResponseMessage fullResponse true None a, w')
    | Threw _ =>
      let a := sendAiResponseMessage fallbackMessage true None a in
      ((if isRunning a && ready a then call (Speak fallbackMessage) a else a),
       w')
    end.

(** The callback registered with [registerOnSttResult], on a result with
    these [transcript], [is_final] and [is_speech_final]. *)
Definition onSttResult (oracle : Oracle) (roomName : jsstring)
  (transcript : jsstring) (is_final is_speech_final : bool)
  (a : Agent) (w : World) : Agent * World :=
  let transcript := trim transcript in
  if negb (truthy transcript) then (a, w)
  else
    let isFinal := is_final && is_speech_final in
    let a := sendTranscriptMessage transcript isFinal a in
    if isFinal then processTranscript oracle roomName transcript a w
    else (a, w).

(** [stop] *)
Definition stop (roomName : jsstring) (a : Agent) (w : World)
  : Agent * World :=
  if negb (isRunning a) then (a, w)
  else
    let a := {| isRunning := false; ready := ready a; calls := calls a |} in
    let a := call Disconnect a in
    (a, (clearHistory roomName w).2).

(** Strings put together with one space between them. *)
Definition joined (l : list jsstring) : jsstring :=
  match l with
  | [] => []
  | s :: rest => s ++ concat (map (λ t, lit " " ++ t) rest)
  end.

(** The calls an agent that is running and ready makes for the sentences
    of a reply, [said] being the sentences before them: for each sentence a
    message that is not final with all the sentences so far, then the
    sentence spoken. *)
Fixpoint replyCalls (said sentences : list jsstring) : list ClientCall :=
  match sentences with
  | [] => []
  | sentence :: rest =>
    [SendMessage (joined (said ++ [sentence])) (lit "ai") (lit "chat") false;
     Speak sentence]
    ++ replyCalls (said ++ [sentence]) rest
  end.

(** An agent after [start], on a client that is ready. *)
Definition liveAgent : Agent :=
  {| isRunning := true; ready := true; calls := [] |}.

End VoiceAgent.

(* ===================================================================== *)
(** ** Properties of the transcript reconciler *)
(* ===================================================================== *)

Module Reconciler.
Import App AppNotions.

Lemma insert_last {A} (init : list A) (l x : A) :
  <[(length (init ++ [l]) - 1)%nat := x]> (init ++ [l]) = init ++ [x].
Proof.
  rewrite length_app. simpl.
  replace (length init + 1 - 1)%nat with (length init + 0)%nat by lia.
  by rewrite insert_app_r.
Qed.

Lemma spread_incoming data participant kind topic newId now lastMessage :
  ChatMessage.spread lastMessage
    (incomingMessage data participant kind topic newId now)
  = incomingMessage data participant kind topic newId now.
Proof. reflexivity. Qed.

Lemma chatUpdater_step data participant kind topic newId now prev :
  chat_step data participant kind topic newId now prev
    (chatUpdater data participant kind topic newId now prev).
Proof.
  unfold chatUpdater.
  destruct (last prev) as [lastMessage|] eqn:Hlast.
  - apply last_Some in Hlast as [init ->].
    rewrite !spread_incoming.
    repeat case_match; try apply step_append;
      rewrite insert_last; eapply step_merge; eauto.
  - apply last_None in Hlast as ->. apply (step_append _ _ _ _ _ _ []).
Qed.

Lemma same_sender_refl sid r i t ts tp st d :
  same_sender sid r (ChatMessage.mk i r t ts (Some sid) tp st d) = true.
Proof.
  unfold same_sender; simpl.
  destruct (truthy sid); simpl; by rewrite bool_decide_eq_true_2.
Qed.

Lemma last_snoc {A} (init : list A) (x : A) : last (init ++ [x]) = Some x.
Proof. apply last_Some. eauto. Qed.

Section UpdaterCases.
Variable data : DataChannelMessage.t.
Variable participant : option RemoteParticipant.
Variable kind : option DataPacket_Kind.
Variable topic : option jsstring.
Variable newId : jsstring.
Variable now : Z.
Variable init : list ChatMessage.t.
Variable lastMessage : ChatMessage.t.

Let incoming := incomingMessage data participant kind topic newId now.
Let updater := chatUpdater data participant kind topic newId now.

Hypothesis Hsender :
  same_sender (senderId data participant) (role data) lastMessage = true.
Hypothesis Htopic :
  ChatMessage.topic lastMessage = Some (messageTopic data topic).

(** An explicitly interim event from the sender and topic of the last
    entry overwrites the last entry, whatever its status. *)
Lemma updater_interim :
  hasExplicitInterim data = true →
  updater (init ++ [lastMessage])
  = init ++ [ChatMessage.with_status incoming streaming].
Proof.
  intros Hi. unfold updater, chatUpdater. rewrite last_snoc.
  fold (same_sender (senderId data participant) (role data) lastMessage).
  rewrite Hsender, Htopic, Hi, bool_decide_eq_true_2 by done. simpl.
  by rewrite insert_last.
Qed.

(** An explicitly final event from the sender and topic of a last entry
    that is streaming finalizes that entry. *)
Lemma updater_final_streaming :
  hasExplicitInterim data = false →
  hasExplicitFinal data = true →
  ChatMessage.status lastMessage = Some streaming →
  updater (init ++ [lastMessage])
  = init ++ [ChatMessage.with_status incoming sent].
Proof.
  intros Hi Hf Hs. unfold updater, chatUpdater. rewrite last_snoc.
  fold (same_sender (senderId data participant) (role data) lastMessage).
  unfold hasExplicitFlag.
  rewrite Hsender, Htopic, Hi, Hf, Hs, !bool_decide_eq_true_2 by done. simpl.
  by rewrite insert_last.
Qed.

(** The same event on a last entry that is not streaming is appended. *)
Lemma updater_final_settled :
  hasExplicitInterim data = false →
  hasExplicitFinal data = true →
  ChatMessage.status lastMessage ≠ Some streaming →
  updater (init ++ [lastMessage]) = init ++ [lastMessage; incoming].
Proof.
  intros Hi Hf Hs. unfold updater, chatUpdater. rewrite last_snoc.
  fold (same_sender (senderId data participant) (role data) lastMessage).
  unfold hasExplicitFlag.
  rewrite Hsender, Htopic, Hi, Hf, (bool_decide_eq_true_2 (_ = _)) by done.
  rewrite (bool_decide_eq_false_2 _ Hs). simpl.
  by rewrite <- app_assoc.
Qed.

End UpdaterCases.

Lemma dispatch_chat data participant kind topic newId now st :
  messageTopic data topic = lit "chat" →
  messages (dispatch data participant kind topic newId now st)
  = chatUpdater data participant kind topic newId now (messages st).
Proof.
  intros Ht. unfold dispatch. rewrite bool_decide_eq_true_2 by done.
  by case_bool_decide.
Qed.

Lemma handleDataReceived_parsed payload data participant kind topic newId now st :
  parseDataChannelMessage payload = Some data →
  handleDataReceived payload participant kind topic newId now st
  = dispatch data participant kind topic newId now st.
Proof. unfold handleDataReceived. by intros ->. Qed.

(** C2.  From the empty transcript, the three events
    [{message:"Hel", interim:true}], [{message:"Hello", interim:true}],
    [{message:"Hello world", isFinal:true}] on topic ["chat"] from one
    sender leave exactly one entry, with text ["Hello world"] and status
    [sent]. *)
Theorem C2_continuation_merge
  (text1 text2 text3 : jsstring) (participant : option RemoteParticipant)
  (kind1 kind2 kind3 : option DataPacket_Kind) (topic1 topic2 topic3 : bool)
  (id1 id2 id3 : jsstring) (now1 now2 now3 : Z)
  (loading : bool) (err : option jsstring) :
  let event1 :=
    wireObject [(lit "message", JString (lit "Hel"));
                (lit "interim", JBool true)] text1 in
  let event2 :=
    wireObject [(lit "message", JString (lit "Hello"));
                (lit "interim", JBool true)] text2 in
  let event3 :=
    wireObject [(lit "message", JString (lit "Hello world"));
                (lit "isFinal", JBool true)] text3 in
  let st0 := {| messages := []; isAssistantLoading := loading; error := err |} in
  let st1 :=
    handleDataReceived event1 participant kind1 (chatTopic topic1) id1 now1 st0 in
  let st2 :=
    handleDataReceived event2 participant kind2 (chatTopic topic2) id2 now2 st1 in
  let st3 :=
    handleDataReceived event3 participant kind3 (chatTopic topic3) id3 now3 st2 in
  ∃ entry,
    messages st3 = [entry]
    ∧ ChatMessage.text entry = lit "Hello world"
    ∧ ChatMessage.status entry = Some sent
    ∧ ChatMessage.id entry = id3.
Proof.
  intros event1 event2 event3 st0 st1 st2 st3.
  set (data1 := DataChannelMessage.mk (lit "Hel") (lit "chat") wire_ai
                  None None None (Some true)).
  set (data2 := DataChannelMessage.mk (lit "Hello") (lit "chat") wire_ai
                  None None None (Some true)).
  set (data3 := DataChannelMessage.mk (lit "Hello world") (lit "chat") wire_ai
                  None None (Some true) None).
  assert (Ht : ∀ d b, DataChannelMessage.topic d = lit "chat" →
                      messageTopic d (chatTopic b) = lit "chat")
    by (by intros d [] Hd).
  assert (H1 : messages st1
               = [incomingMessage data1 participant kind1 (chatTopic topic1)
                    id1 now1]).
  { unfold st1. rewrite (handleDataReceived_parsed _ data1) by reflexivity.
    by rewrite dispatch_chat by by apply Ht. }
  assert (H2 : messages st2
               = [ChatMessage.with_status
                    (incomingMessage data2 participant kind2 (chatTopic topic2)
                       id2 now2) streaming]).
  { unfold st2. rewrite (handleDataReceived_parsed _ data2) by reflexivity.
    rewrite dispatch_chat, H1 by by apply Ht.
    apply (updater_interim _ _ _ _ _ _ []);
      [|cbv [incomingMessage ChatMessage.topic]; by rewrite !Ht|done].
    apply same_sender_refl. }
  assert (H3 : messages st3
               = [ChatMessage.with_status
                    (incomingMessage data3 participant kind3 (chatTopic topic3)
                       id3 now3) sent]).
  { unfold st3. rewrite (handleDataReceived_parsed _ data3) by reflexivity.
    rewrite dispatch_chat, H2 by by apply Ht.
    apply (updater_final_streaming _ _ _ _ _ _ []);
      [|cbv [incomingMessage ChatMessage.topic ChatMessage.with_status];
        by rewrite !Ht|done..].
    apply same_sender_refl. }
  rewrite H3. eexists. split; [done|]. done.
Qed.

(** An explicitly interim event always leaves a streaming last entry that
    carries the event, appended or merged. *)
Lemma updater_explicit_interim data participant kind topic newId now prev :
  hasExplicitInterim data = true →
  ∃ init,
    chatUpdater data participant kind topic newId now prev
    = init ++ [ChatMessage.with_status
                 (incomingMessage data participant kind topic newId now)
                 streaming].
Proof.
  intros Hi.
  assert (Hinc : ChatMessage.with_status
                   (incomingMessage data participant kind topic newId now)
                   streaming
                 = incomingMessage data participant kind topic newId now)
    by (unfold incomingMessage, ChatMessage.with_status; simpl; by rewrite Hi).
  unfold chatUpdater.
  destruct (last prev) as [lastMessage|] eqn:Hlast.
  - apply last_Some in Hlast as [init ->].
    rewrite !spread_incoming, Hi. simpl.
    case_match.
    + rewrite insert_last. eauto.
    + rewrite Hinc. eauto.
  - exists []. by rewrite Hinc.
Qed.

(** C1 (as amended).  After an interim event, a final event
    ([isFinal:true]) with the same text, sender and topic finalizes the
    streaming entry in place: one entry with status [sent].  Feeding the same
    final event a second time does not merge, because the last entry is no
    longer streaming: a second entry with status [sent] is appended, and the
    list ends with two finalized entries. *)
Theorem C1_second_final_is_appended
  (text wireTopic : jsstring) (wireRole : WireRole)
  (stampI stampF : option Z) (ident : option jsstring)
  (participant : option RemoteParticipant)
  (kind1 kind2 kind3 : option DataPacket_Kind) (topic : option jsstring)
  (id1 id2 id3 : jsstring) (now1 now2 now3 : Z) (st0 : AppState) :
  let interimEvent :=
    DataChannelMessage.mk text wireTopic wireRole stampI ident None (Some true) in
  let finalEvent :=
    DataChannelMessage.mk text wireTopic wireRole stampF ident (Some true) None in
  let st1 := dispatch interimEvent participant kind1 topic id1 now1 st0 in
  let st2 := dispatch finalEvent participant kind2 topic id2 now2 st1 in
  let st3 := dispatch finalEvent participant kind3 topic id3 now3 st2 in
  let finalized newId now kind :=
    ChatMessage.mk newId (role finalEvent) text (default now stampF)
      (Some (senderId finalEvent participant)) (Some (lit "chat"))
      (Some sent) (Some (delivery kind)) in
  default wireTopic topic = lit "chat" →
  ∃ init streamingEntry,
    messages st1 = init ++ [streamingEntry]
    ∧ ChatMessage.status streamingEntry = Some streaming
    ∧ messages st2 = init ++ [finalized id2 now2 kind2]
    ∧ messages st3 = init ++ [finalized id2 now2 kind2; finalized id3 now3 kind3].
Proof.
  intros interimEvent finalEvent st1 st2 st3 finalized Htopic.
  assert (HtI : messageTopic interimEvent topic = lit "chat") by done.
  assert (HtF : messageTopic finalEvent topic = lit "chat") by done.
  destruct (updater_explicit_interim interimEvent participant kind1 topic
              id1 now1 (messages st0) eq_refl) as [init H1].
  assert (H1' : messages st1 = init ++
            [ChatMessage.with_status
               (incomingMessage interimEvent participant kind1 topic id1 now1)
               streaming])
    by (unfold st1; by rewrite dispatch_chat).
  assert (H2 : messages st2 = init ++ [finalized id2 now2 kind2]).
  { unfold st2. rewrite dispatch_chat, H1' by done.
    rewrite updater_final_streaming; try done.
    - unfold finalized, incomingMessage, ChatMessage.with_status; simpl.
      by rewrite HtF.
    - apply same_sender_refl. }
  assert (H3 : messages st3
               = init ++ [finalized id2 now2 kind2; finalized id3 now3 kind3]).
  { unfold st3. rewrite dispatch_chat, H2 by done.
    rewrite updater_final_settled; try done.
    - unfold finalized at 2.
      unfold incomingMessage, ChatMessage.with_status; simpl.
      by rewrite HtF.
    - apply same_sender_refl.
    - simpl. by rewrite HtF. }
  eauto 10.
Qed.

(** The amended C1 on the run of [helloRun], step by step. *)
Lemma C1_witness :
  default (lit "chat") None = lit "chat"
  ∧ ∃ init streamingEntry,
      messages (dispatch helloInterim None None None (lit "m1") 1 emptyState)
      = init ++ [streamingEntry]
      ∧ ChatMessage.status streamingEntry = Some streaming
      ∧ messages
          (dispatch helloFinal None None None (lit "m2") 2
             (dispatch helloInterim None None None (lit "m1") 1 emptyState))
        = init ++ [helloSent (lit "m2") 2]
      ∧ messages
          (dispatch helloFinal None None None (lit "m3") 3
             (dispatch helloFinal None None None (lit "m2") 2
                (dispatch helloInterim None None None (lit "m1") 1 emptyState)))
        = init ++ [helloSent (lit "m2") 2; helloSent (lit "m3") 3].
Proof.
  split; [reflexivity|].
  apply (C1_second_final_is_appended (lit "Hello") (lit "chat") wire_ai
           None None None None None None None None
           (lit "m1") (lit "m2") (lit "m3") 1 2 3 emptyState).
  reflexivity.
Defined.

(** The claim of C1 fails on the code: the interim ["Hello"] followed by the
    final ["Hello"] fed twice leaves two finalized entries with status
    [sent], not one. *)
Lemma C1_counterexample :
  messages helloRun = [helloSent (lit "m2") 2; helloSent (lit "m3") 3]
  ∧ length (messages helloRun) ≠ 1%nat.
Proof. split; [reflexivity|]. vm_compute. discriminate. Qed.

(** C7.  Whatever the inbound channel event and the prior transcript list,
    the list after [handleDataReceived] is the prior list unchanged, or the
    prior list with exactly one entry appended, or the prior list with only
    its last element replaced: no entry but the last is touched. *)
Theorem C7_inbound_touches_only_last payload participant kind topic newId now st :
  let prev := messages st in
  let next :=
    messages (handleDataReceived payload participant kind topic newId now st) in
  next = prev
  ∨ (∃ entry, next = prev ++ [entry])
  ∨ (∃ init lastMessage entry,
        prev = init ++ [lastMessage] ∧ next = init ++ [entry]).
Proof.
  simpl. unfold handleDataReceived.
  destruct (parseDataChannelMessage payload) as [data|]; [|by left].
  unfold dispatch. case_bool_decide.
  - assert (messages
              (if bool_decide (role data = assistant)
               then setIsAssistantLoading false
                      (setMessages
                         (chatUpdater data participant kind topic newId now) st)
               else setMessages
                      (chatUpdater data participant kind topic newId now) st)
            = chatUpdater data participant kind topic newId now (messages st))
      as -> by (by case_bool_decide).
    destruct (chatUpdater_step data participant kind topic newId now
                (messages st)) as [|init lastMessage s -> _].
    + right; left; eauto.
    + right; right; eauto.
  - case_bool_decide; [|by left].
    right; left. unfold addMessage; simpl; eauto.
Qed.



End Reconciler.

(* ===================================================================== *)
(** ** Properties of the outbound send pipeline *)
(* ===================================================================== *)

Module SendPipeline.
Import App AppNotions.

(** C8.  [handleSendMessage] without a room: nothing is published, the
    connectivity error is set, and
    - with no retry id a new entry with status [failed] is appended, the
      entries before it unchanged;
    - with a retry id the list keeps its length, every entry with that id
      has its status set to [failed], whatever it was, and its other fields
      as before, and every other entry is unchanged. *)
Theorem C8_send_while_disconnected text retryMessageId participantIdentity newId now st :
  let result :=
    handleSendMessage text retryMessageId None participantIdentity newId now st in
  snd result = None
  ∧ error (fst result) = Some notConnectedError
  ∧ isAssistantLoading (fst result) = isAssistantLoading st
  ∧ (truthy_opt retryMessageId = false →
     ∃ entry,
       messages (fst result) = messages st ++ [entry]
       ∧ ChatMessage.status entry = Some failed
       ∧ ChatMessage.id entry = newId
       ∧ ChatMessage.text entry = text
       ∧ ChatMessage.role entry = user)
  ∧ (∀ rid, retryMessageId = Some rid → truthy rid = true →
     length (messages (fst result)) = length (messages st)
     ∧ ∀ i m, messages st !! i = Some m →
         ∃ m',
           messages (fst result) !! i = Some m'
           ∧ if bool_decide (ChatMessage.id m = rid)
             then ChatMessage.status m' = Some failed
                  ∧ ChatMessage.id m' = ChatMessage.id m
                  ∧ ChatMessage.role m' = ChatMessage.role m
                  ∧ ChatMessage.text m' = ChatMessage.text m
                  ∧ ChatMessage.timestamp m' = ChatMessage.timestamp m
                  ∧ ChatMessage.senderId m' = ChatMessage.senderId m
                  ∧ ChatMessage.topic m' = ChatMessage.topic m
                  ∧ ChatMessage.delivery m' = ChatMessage.delivery m
             else m' = m).
Proof.
  unfold handleSendMessage, ifRetrying.
  destruct retryMessageId as [rid|]; simpl.
  - destruct (truthy rid) eqn:Hrid; simpl.
    + split_and!; try done.
      intros ? [= <-] _. split.
      * by rewrite !length_map.
      * intros i m Hm. rewrite !list_lookup_fmap, Hm. simpl.
        eexists. split; [reflexivity|].
        destruct (bool_decide (ChatMessage.id m = rid)) eqn:Hid; simpl.
        -- rewrite Hid. by split_and!.
        -- by rewrite Hid.
    + split_and!; try done; [eauto 10|].
      intros ? [= <-]. congruence.
  - split_and!; try done. eauto 10.
Qed.

(** C8 on [pendingState], where the draft is still [sending]: a retry of
    it, and a new message. *)
Lemma C8_witness :
  messages (fst (handleSendMessage (lit "hi") (Some (lit "m1")) None
                   (lit "alice") (lit "m2") 2 pendingState))
  = [otherEntry;
     ChatMessage.mk (lit "m1") user (lit "hi") 1 (Some (lit "user"))
       (Some (lit "chat")) (Some failed) None]
  ∧ ∃ entry,
      messages (fst (handleSendMessage (lit "yo") None None
                       (lit "alice") (lit "m2") 2 pendingState))
      = [otherEntry; sendingDraft] ++ [entry]
      ∧ ChatMessage.status entry = Some failed.
Proof.
  split.
  - destruct (C8_send_while_disconnected (lit "hi") (Some (lit "m1"))
                (lit "alice") (lit "m2") 2 pendingState)
      as (_ & _ & _ & _ & Hretry).
    destruct (Hretry (lit "m1") eq_refl eq_refl) as [Hlen Hlookup].
    destruct (Hlookup 0%nat otherEntry eq_refl) as (m0 & Hm0 & Hsame).
    destruct (Hlookup 1%nat sendingDraft eq_refl)
      as (m1 & Hm1 & Hs & Hi & Hr & Ht & Hts & Hsi & Hto & Hd).
    simpl in Hsame. subst m0.
    destruct m1. simpl in *. subst.
    apply list_eq. intros [|[|i]].
    + exact Hm0.
    + exact Hm1.
    + reflexivity.
  - destruct (C8_send_while_disconnected (lit "yo") None
                (lit "alice") (lit "m2") 2 pendingState)
      as (_ & _ & _ & Hnew & _).
    destruct (Hnew eq_refl) as (entry & Hm & Hs & _).
    exists entry. split; [exact Hm | exact Hs].
Defined.

End SendPipeline.

(* ===================================================================== *)
(** ** Facts about white space and [trim] *)
(* ===================================================================== *)

Module JsFacts.

Lemma trimStart_all_space s : all_space s → trimStart s = [].
Proof. induction 1 as [|c s Hc _ IH]; simpl; [done|]. by rewrite Hc. Qed.

Lemma trimStart_app s t :
  trimStart (s ++ t)
  = match trimStart s with [] => trimStart t | _ :: _ => trimStart s ++ t end.
Proof.
  induction s as [|c s IH]; simpl; [done|].
  by destruct (is_white_space c).
Qed.

Lemma trimStart_space_app w s : all_space w → trimStart (w ++ s) = trimStart s.
Proof. intros Hw. by rewrite trimStart_app, trimStart_all_space. Qed.

Lemma trimStart_snoc s c :
  is_white_space c = false → trimStart (s ++ [c]) = trimStart s ++ [c].
Proof.
  intros Hc. rewrite trimStart_app. simpl. rewrite Hc.
  by destruct (trimStart s).
Qed.

Lemma trimStart_head s :
  match trimStart s with [] => True | c :: _ => is_white_space c = false end.
Proof.
  induction s as [|c s IH]; simpl; [done|].
  destruct (is_white_space c) eqn:Hc; [done|]. simpl. done.
Qed.

Lemma all_space_rev w : all_space w → all_space (rev w).
Proof. apply List.Forall_rev. Qed.

Lemma trimEnd_app_space s w : all_space w → trimEnd (s ++ w) = trimEnd s.
Proof.
  intros Hw. unfold trimEnd.
  by rewrite rev_app_distr, trimStart_space_app by by apply all_space_rev.
Qed.

Lemma trimEnd_cons c s :
  is_white_space c = false → trimEnd (c :: s) = c :: trimEnd s.
Proof.
  intros Hc. unfold trimEnd. simpl.
  by rewrite trimStart_snoc, rev_unit.
Qed.

Lemma trim_space_app w s : all_space w → trim (w ++ s) = trim s.
Proof. intros Hw. unfold trim. by rewrite trimStart_space_app. Qed.

Lemma trim_app_space s w : all_space w → trim (s ++ w) = trim s.
Proof.
  intros Hw. unfold trim. rewrite trimStart_app.
  destruct (trimStart s) as [|c u] eqn:Hs.
  - by rewrite trimStart_all_space.
  - by rewrite trimEnd_app_space.
Qed.

(** A string that ends with a code unit that is not white space keeps it. *)
Lemma trim_snoc s c :
  is_white_space c = false → trim (s ++ [c]) = trimStart s ++ [c].
Proof.
  intros Hc. unfold trim, trimEnd.
  rewrite trimStart_snoc by done.
  rewrite rev_unit. simpl. rewrite Hc. simpl.
  by rewrite rev_involutive.
Qed.

Lemma trim_snoc_truthy s c :
  is_white_space c = false → truthy (trim (s ++ [c])) = true.
Proof.
  intros Hc. rewrite trim_snoc by done. by destruct (trimStart s).
Qed.

Lemma trimStart_idemp s : trimStart (trimStart s) = trimStart s.
Proof.
  induction s as [|c s IH]; simpl; [done|].
  destruct (is_white_space c) eqn:Hc; [done|]. simpl. by rewrite Hc.
Qed.

Lemma trimEnd_idemp s : trimEnd (trimEnd s) = trimEnd s.
Proof. unfold trimEnd. by rewrite rev_involutive, trimStart_idemp. Qed.

Lemma trim_idemp s : trim (trim s) = trim s.
Proof.
  unfold trim. pose proof (trimStart_head s) as Hh.
  destruct (trimStart s) as [|c u]; [done|].
  rewrite trimEnd_cons by done. simpl. rewrite Hh.
  by rewrite <- trimEnd_cons, trimEnd_idemp.
Qed.

(** A sentence terminator is not white space. *)
Lemma terminator_not_space c :
  AiService.is_terminator c = true → is_white_space c = false.
Proof.
  unfold AiService.is_terminator. intros Hc.
  assert (c = 46 ∨ c = 33 ∨ c = 63)%N as [->|[->| ->]]; [|done..].
  destruct (N.eqb_spec c 46), (N.eqb_spec c 33), (N.eqb_spec c 63);
    auto; discriminate.
Qed.

Lemma space_not_terminator c :
  is_white_space c = true → AiService.is_terminator c = false.
Proof.
  intros Hc. destruct (AiService.is_terminator c) eqn:Ht; [|done].
  apply terminator_not_space in Ht. congruence.
Qed.

(** [slice] with indices in range. *)
Lemma slice_range {A} (l : list A) (a e : nat) :
  (a ≤ e ≤ length l)%nat →
  slice l (Z.of_nat a) (Some (Z.of_nat e)) = take (e - a) (drop a l).
Proof.
  intros H. unfold slice, clamp_index.
  destruct (Z.ltb_spec (Z.of_nat a) 0), (Z.ltb_spec (Z.of_nat e) 0); try lia.
  rewrite !Z.min_l by lia.
  by rewrite <- Nat2Z.inj_sub, !Nat2Z.id by lia.
Qed.

Lemma slice_from {A} (l : list A) (a : nat) :
  (a ≤ length l)%nat → slice l (Z.of_nat a) None = drop a l.
Proof.
  intros H. unfold slice, clamp_index.
  destruct (Z.ltb_spec (Z.of_nat a) 0); try lia.
  rewrite !Z.min_l by lia.
  rewrite <- Nat2Z.inj_sub, !Nat2Z.id by lia.
  apply take_ge. rewrite length_drop. lia.
Qed.

(** [l.slice(-k)] keeps the last [k] elements. *)
Lemma slice_last {A} (l : list A) (k : nat) :
  (0 < k)%nat → slice l (- Z.of_nat k) None = drop (length l - k) l.
Proof.
  intros H. unfold slice, clamp_index.
  destruct (Z.ltb_spec (- Z.of_nat k) 0); try lia.
  replace (Z.to_nat (Z.max (Z.of_nat (length l) + - Z.of_nat k) 0))
    with (length l - k)%nat by lia.
  apply take_ge. rewrite length_drop. lia.
Qed.

End JsFacts.

Module Segmentation.
Import AiService SegmentationSpec ServiceNotions JsFacts.

Lemma white_space_run_split s :
  all_space (take (white_space_run s) s)
  ∧ (white_space_run s ≤ length s)%nat.
Proof.
  induction s as [|c s [IH1 IH2]]; simpl; [split; [constructor|lia]|].
  destruct (is_white_space c) eqn:Hc; simpl.
  - split; [by constructor|lia].
  - split; [constructor|lia].
Qed.

Lemma match_tail_spec rest :
  match_tail rest
  = if followed_by_space_or_end rest then Some (white_space_run rest) else None.
Proof.
  unfold match_tail. destruct rest as [|c r]; simpl; [done|].
  by destruct (is_white_space c).
Qed.

Lemma match_here_cons c rest :
  match_here (c :: rest)
  = if is_terminator c && followed_by_space_or_end rest
    then Some (S (white_space_run rest)) else None.
Proof.
  simpl. rewrite match_tail_spec.
  by destruct (is_terminator c), (followed_by_space_or_end rest).
Qed.

#[local] Opaque match_here.

(** No match in the rest of the buffer: the scan of the specification cuts
    nothing either. *)
Lemma scan_no_match s index segment :
  search s index = None → scan segment s = ([], segment ++ s).
Proof.
  revert index segment. induction s as [|c s IH]; intros index segment Hs.
  - simpl. by rewrite app_nil_r.
  - simpl in Hs. rewrite match_here_cons in Hs. simpl.
    destruct (is_terminator c && followed_by_space_or_end s); [done|].
    rewrite (IH _ _ Hs). by rewrite <- app_assoc.
Qed.

(** A match: the code and the specification agree on the terminator; the
    match of the code also covers the white space after it. *)
Lemma scan_match s index segment at_ len :
  search s index = Some (at_, len) →
  ∃ pre t post,
    s = pre ++ t :: post
    ∧ at_ = (index + length pre)%nat
    ∧ len = S (white_space_run post)
    ∧ is_terminator t = true
    ∧ scan segment s
      = (trim (segment ++ pre ++ [t]) :: (scan [] post).1, (scan [] post).2).
Proof.
  revert index segment. induction s as [|c s IH]; intros index segment Hs.
  - done.
  - simpl in Hs. rewrite match_here_cons in Hs. simpl.
    destruct (is_terminator c && followed_by_space_or_end s) eqn:Hc.
    + injection Hs as <- <-. apply andb_prop in Hc as [Hc _].
      exists [], c, s. split_and!; try done; try (simpl; lia).
      by destruct (scan [] s).
    + destruct (IH _ (segment ++ [c]) Hs) as (pre & t & post & -> & -> & -> & Ht & Hscan).
      exists (c :: pre), t, post. split_and!; try done; try (simpl; lia).
      rewrite Hscan. by rewrite <- !app_assoc.
Qed.

(** White space in front of the buffer joins the current segment. *)
Lemma scan_space_app w segment s :
  all_space w → scan segment (w ++ s) = scan (segment ++ w) s.
Proof.
  intros Hw. revert segment.
  induction Hw as [|c w Hc _ IH]; intros segment; simpl.
  - by rewrite app_nil_r.
  - rewrite (space_not_terminator c Hc). simpl.
    rewrite IH. by rewrite <- app_assoc.
Qed.

Lemma search_bounds s index at_ len :
  search s index = Some (at_, len) →
  (index ≤ at_ ∧ 0 < len ∧ at_ + len ≤ index + length s)%nat.
Proof.
  intros Hs.
  destruct (scan_match _ _ [] _ _ Hs) as (pre & t & post & -> & -> & -> & _).
  destruct (white_space_run_split post) as [_ Hn].
  rewrite length_app. simpl. lia.
Qed.

(** A larger fuel does not change the result of the loop: [S (length
    buffer)] iterations are all the loop can make. *)
Lemma execLoop_fuel fuel buffer lastIndex sentences :
  (lastIndex ≤ length buffer)%nat →
  (length buffer - lastIndex < fuel)%nat →
  execLoop (S fuel) buffer lastIndex sentences
  = execLoop fuel buffer lastIndex sentences.
Proof.
  revert lastIndex sentences.
  induction fuel as [|fuel IH]; intros lastIndex sentences Hle Hfuel; [lia|].
  change (execLoop (S (S fuel)) buffer lastIndex sentences)
    with (match exec buffer lastIndex with
          | None => (sentences, lastIndex)
          | Some (index, len) =>
            execLoop (S fuel) buffer (index + len)
              (if truthy (trim (slice buffer (Z.of_nat lastIndex)
                                  (Some (Z.of_nat (index + len)))))
               then sentences ++
                    [trim (slice buffer (Z.of_nat lastIndex)
                             (Some (Z.of_nat (index + len))))]
               else sentences)
          end).
  change (execLoop (S fuel) buffer lastIndex sentences)
    with (match exec buffer lastIndex with
          | None => (sentences, lastIndex)
          | Some (index, len) =>
            execLoop fuel buffer (index + len)
              (if truthy (trim (slice buffer (Z.of_nat lastIndex)
                                  (Some (Z.of_nat (index + len)))))
               then sentences ++
                    [trim (slice buffer (Z.of_nat lastIndex)
                             (Some (Z.of_nat (index + len))))]
               else sentences)
          end).
  destruct (exec buffer lastIndex) as [[index len]|] eqn:He; [|done].
  unfold exec in He. destruct (Nat.ltb_spec (length buffer) lastIndex); [done|].
  apply search_bounds in He. rewrite length_drop in He.
  apply IH; lia.
Qed.

(** With that fuel the loop stops where the source's [while] stops: on the
    [exec] that finds no further match. *)
Lemma execLoop_ends fuel buffer lastIndex sentences :
  (lastIndex ≤ length buffer)%nat →
  (length buffer - lastIndex < fuel)%nat →
  exec buffer (execLoop fuel buffer lastIndex sentences).2 = None.
Proof.
  revert lastIndex sentences.
  induction fuel as [|fuel IH]; intros lastIndex sentences Hle Hfuel; [lia|].
  simpl. destruct (exec buffer lastIndex) as [[index len]|] eqn:He; [|done].
  unfold exec in He. destruct (Nat.ltb_spec (length buffer) lastIndex); [done|].
  apply search_bounds in He. rewrite length_drop in He.
  apply IH; lia.
Qed.

(** The loop of the code against the scan of the specification, from the
    cut point [lastIndex]: the same sentences; the code leaves the buffer
    after the white space that follows the last terminator, the
    specification right after the terminator. *)
Lemma execLoop_scan fuel buffer lastIndex sentences segment :
  all_space segment →
  (lastIndex ≤ length buffer)%nat →
  (length buffer - lastIndex < fuel)%nat →
  ∃ out lastIndex' segment',
    execLoop fuel buffer lastIndex sentences = (sentences ++ out, lastIndex')
    ∧ (lastIndex' ≤ length buffer)%nat
    ∧ all_space segment'
    ∧ scan segment (drop lastIndex buffer)
      = (out, segment' ++ drop lastIndex' buffer)
    ∧ (out = [] → lastIndex' = lastIndex).
Proof.
  revert lastIndex sentences segment.
  induction fuel as [|fuel IH];
    intros lastIndex sentences segment Hseg Hle Hfuel; [lia|].
  simpl. unfold exec.
  destruct (Nat.ltb_spec (length buffer) lastIndex); [lia|].
  destruct (search (drop lastIndex buffer) lastIndex) as [[at_ len]|] eqn:Hs.
  - destruct (scan_match _ _ segment _ _ Hs)
      as (pre & t & post & Hdrop & -> & -> & Ht & Hscan).
    destruct (white_space_run_split post) as [Hws Hn].
    set (n := white_space_run post) in *.
    assert (Hlen : (length buffer = lastIndex + length pre + S (length post))%nat).
    { apply (f_equal length) in Hdrop.
      rewrite length_drop, length_app in Hdrop. simpl in Hdrop. lia. }
    assert (Hslice :
      slice buffer (Z.of_nat lastIndex)
        (Some (Z.of_nat (lastIndex + length pre + S n)))
      = (pre ++ [t]) ++ take n post).
    { rewrite slice_range by lia. rewrite Hdrop.
      replace (lastIndex + length pre + S n - lastIndex)%nat
        with (length (pre ++ [t]) + n)%nat by (rewrite length_app; simpl; lia).
      rewrite (cons_middle t pre post), app_assoc.
      by rewrite take_app_add. }
    assert (Hrest : drop (lastIndex + length pre + S n) buffer = drop n post).
    { replace (lastIndex + length pre + S n)%nat
        with (lastIndex + (length pre + S n))%nat by lia.
      rewrite <- drop_drop, Hdrop.
      replace (length pre + S n)%nat with (length (pre ++ [t]) + n)%nat
        by (rewrite length_app; simpl; lia).
      rewrite (cons_middle t pre post), app_assoc.
      by rewrite drop_app_add. }
    rewrite Hslice, trim_app_space by done.
    rewrite trim_snoc_truthy by by apply terminator_not_space.
    destruct (IH (lastIndex + length pre + S n)%nat
                (sentences ++ [trim (pre ++ [t])]) (take n post))
      as (out & lastIndex' & segment' & Hloop & Hle' & Hseg' & Hscan' & _);
      [done|lia|lia|].
    exists (trim (pre ++ [t]) :: out), lastIndex', segment'.
    split_and!; try done.
    + rewrite Hloop. by rewrite <- app_assoc.
    + rewrite Hscan.
      rewrite <- (take_drop n post) at 1 2.
      rewrite (scan_space_app _ [] _ Hws). simpl.
      rewrite <- Hrest, Hscan'. simpl.
      by rewrite trim_space_app.
  - exists [], lastIndex, segment. rewrite app_nil_r.
    split_and!; try done.
    by apply scan_no_match with lastIndex.
Qed.

(** [extractCompleteSentences] on a buffer against the scan of the
    specification on the same buffer behind pending white space; [buffer']
    is the [sentenceBuffer] the loop of [generateStreamingResponse] goes on
    with. *)
Lemma extract_scan buffer segment :
  all_space segment →
  ∃ segment' buffer',
    all_space segment'
    ∧ scan segment buffer
      = (extracted (extractCompleteSentences buffer), segment' ++ buffer')
    ∧ buffer'
      = if (0 <? length (extracted (extractCompleteSentences buffer)))%nat
        then remaining (extractCompleteSentences buffer) else buffer.
Proof.
  intros Hseg. unfold extractCompleteSentences.
  destruct (execLoop_scan (S (length buffer)) buffer 0 [] segment)
    as (out & lastIndex' & segment' & Hloop & Hle & Hseg' & Hscan & Hnil);
    [done|lia|lia|].
  rewrite Hloop. simpl. rewrite slice_from by done.
  rewrite drop_0 in Hscan.
  exists segment', (drop lastIndex' buffer). split_and!; try done.
  destruct out; simpl; [|done].
  by rewrite Hnil.
Qed.

Lemma say_nil w : say [] w = w.
Proof. destruct w. unfold say. simpl. by rewrite app_nil_r. Qed.

Lemma say_say l1 l2 w : say l2 (say l1 w) = say (l1 ++ l2) w.
Proof. unfold say. simpl. by rewrite app_assoc. Qed.

Lemma bind_returned {A B} (m : M A) (f : A → M B) w a w' :
  m w = (Returned a, w') → (m ≫= f) w = f a w'.
Proof. unfold mbind, M_bind. by intros ->. Qed.

Lemma bind_threw {A B} (m : M A) (f : A → M B) w e w' :
  m w = (Threw e, w') → (m ≫= f) w = (Threw e, w').
Proof. unfold mbind, M_bind. by intros ->. Qed.

Lemma emitAll_say sentences w :
  emitAll sentences w = (Returned tt, say sentences w).
Proof.
  revert w. induction sentences as [|s l IH]; intros w; simpl.
  - by rewrite say_nil.
  - erewrite bind_returned by reflexivity.
    rewrite IH. f_equal. unfold say. simpl. by rewrite <- app_assoc.
Qed.

(** The [for await] loop emits what the specification emits before the
    stream ends, and its final buffer trims to what the specification has
    left. *)
Lemma forAwait_stream chunks fullResponse sentenceBuffer pending w :
  all_space pending →
  ∃ sentenceBuffer' out,
    forAwait chunks fullResponse sentenceBuffer w
    = (Returned (fullResponse ++ concat chunks, sentenceBuffer'), say out w)
    ∧ stream chunks (pending ++ sentenceBuffer)
      = out ++ (if truthy (trim sentenceBuffer')
                then [trim sentenceBuffer'] else []).
Proof.
  revert fullResponse sentenceBuffer pending w.
  induction chunks as [|chunk chunks IH];
    intros fullResponse sentenceBuffer pending w Hp; simpl.
  - exists sentenceBuffer, []. rewrite say_nil, app_nil_r.
    split; [done|]. by rewrite trim_space_app.
  - destruct (extract_scan (sentenceBuffer ++ chunk) pending Hp)
      as (segment' & buffer' & Hseg' & Hscan & Hbuf).
    assert (Hs : scan [] ((pending ++ sentenceBuffer) ++ chunk)
                 = (extracted (extractCompleteSentences
                                 (sentenceBuffer ++ chunk)),
                    segment' ++ buffer'))
      by (rewrite <- app_assoc, scan_space_app by done; exact Hscan).
    rewrite Hs.
    destruct (IH (fullResponse ++ chunk) buffer' segment'
                (say (extracted (extractCompleteSentences
                                   (sentenceBuffer ++ chunk))) w) Hseg')
      as (sentenceBuffer' & out & Hloop & Hstream).
    exists sentenceBuffer',
      (extracted (extractCompleteSentences (sentenceBuffer ++ chunk)) ++ out).
    split; [|by rewrite Hstream, <- app_assoc].
    rewrite <- say_say, (app_assoc fullResponse), <- Hloop, Hbuf.
    destruct (0 <? length _)%nat eqn:Hn.
    + erewrite bind_returned by apply emitAll_say. done.
    + destruct (extracted _); [|done]. by rewrite say_nil.
Qed.

Lemma addToHistory_frame roomName role content w :
  ∃ h, addToHistory roomName role content w = (Returned tt, with_history h w).
Proof. unfold addToHistory. eauto. Qed.

Lemma with_history_id w : with_history (history w) w = w.
Proof. by destruct w. Qed.

(** Saving the turn in the history returns normally and leaves the callback
    log and the call counters alone. *)
Lemma saveTurn_frame roomName transcript reply w :
  ∃ h, saveTurn roomName transcript reply w = (Returned tt, with_history h w).
Proof.
  unfold saveTurn.
  destruct roomName as [room|]; [destruct (truthy room)|].
  - destruct (addToHistory_frame room user transcript w) as [h1 H1].
    destruct (addToHistory_frame room assistant reply (with_history h1 w))
      as [h2 H2].
    exists h2. erewrite bind_returned by exact H1. by rewrite H2.
  - exists (history w). by rewrite with_history_id.
  - exists (history w). by rewrite with_history_id.
Qed.

(** C3.  When the transcript is not blank and the model's stream yields the
    chunks [streamed] and ends, [generateStreamingResponse] returns their
    concatenation and calls the callback with exactly the sentences of the
    specification's segmentation, in order: the trimmed text from the last
    cut point through each [.], [!] or [?] that is followed by white space
    or by the end of the buffer accumulated so far, then, once, the trimmed
    remainder if it is not empty.  For the chunks ["Hi "], ["there. How "],
    ["are you?"] these are the two calls ["Hi there."], ["How are you?"]. *)
Theorem C3_sentence_segmentation oracle options w streamed :
  truthy (trim (transcript options)) = true →
  (∀ messages,
     model oracle (modelCalls w) messages
     = {| chunks := streamed; failure := None |}) →
  ∃ w',
    generateStreamingResponse oracle options w = (Returned (concat streamed), w')
    ∧ spoken w' = spoken w ++ callbacks streamed
    ∧ (streamed = [lit "Hi "; lit "there. How "; lit "are you?"] →
       spoken w' = spoken w ++ [lit "Hi there."; lit "How are you?"]).
Proof.
  intros Htranscript Hmodel.
  unfold generateStreamingResponse. rewrite Htranscript.
  change (negb true) with false. cbv iota. unfold try_catch.
  erewrite bind_returned by reflexivity.
  erewrite bind_returned by reflexivity.
  rewrite Hmodel. cbn [chunks failure].
  set (w1 := {| history := history w; modelCalls := S (modelCalls w);
                randomCalls := randomCalls w; spoken := spoken w;
                delays := delays w; clock := clock w |}).
  destruct (forAwait_stream streamed [] [] [] w1 (List.Forall_nil _))
    as (buffer' & out & Hloop & Hstream).
  erewrite bind_returned by exact Hloop. cbv beta iota.
  match goal with
  | |- context [saveTurn ?r ?t ?f] =>
    pose proof (λ w2, saveTurn_frame r t f w2) as Hsave
  end.
  assert (Hsaid : ∀ w0,
    ∃ w2, ((if truthy (trim buffer') then onSentence (trim buffer')
            else mret tt) : M unit) w0
          = (Returned tt, w2)
          ∧ spoken w2 = spoken w0 ++ (if truthy (trim buffer')
                                      then [trim buffer'] else [])).
  { intros w0. destruct (truthy (trim buffer')).
    - eexists. split; [reflexivity|done].
    - eexists. split; [reflexivity|]. simpl. by rewrite app_nil_r. }
  destruct (Hsaid (say out w1)) as (w2 & Hrun & Hw2).
  erewrite bind_returned by exact Hrun.
  destruct (Hsave w2) as [h Hh].
  erewrite bind_returned by exact Hh.
  eexists. split; [reflexivity|].
  assert (Hspoken : spoken (with_history h w2) = spoken w ++ callbacks streamed).
  { simpl. rewrite Hw2. simpl. unfold callbacks.
    rewrite (Hstream : stream streamed [] = _). by rewrite <- app_assoc. }
  split; [exact Hspoken|].
  intros ->. rewrite Hspoken. f_equal.
Qed.

(** C3 on a model that streams [demoChunks]. *)
Lemma C3_witness :
  ∃ w',
    generateStreamingResponse demoOracle demoOptions (newService 0)
    = (Returned (lit "Hi there. How are you?"), w')
    ∧ spoken w' = [lit "Hi there."; lit "How are you?"].
Proof.
  destruct (C3_sentence_segmentation demoOracle demoOptions (newService 0)
              demoChunks eq_refl (λ _, eq_refl))
    as (w' & Hrun & _ & Hdemo).
  exists w'. split; [exact Hrun|exact (Hdemo eq_refl)].
Defined.

End Segmentation.

(* ===================================================================== *)
(** ** The conversation history store *)
(* ===================================================================== *)

Module History.
Import AiService HistoryOps JsFacts.

Lemma getHistory_append w a r :
  getHistory r (append w a)
  = if bool_decide (room a = r) then afterAppend (getHistory r w) a
    else getHistory r w.
Proof.
  unfold append, addToHistory, getHistory, afterAppend. simpl.
  case_bool_decide as Hr.
  - subst r. rewrite lookup_insert_eq. simpl.
    assert (Hm : ∀ l : list ConversationMessage.t,
      (if maxHistoryMessages <? Z.of_nat (length l)
       then slice l (Z.quot (- maxHistoryMessages) 2) None else l)
      = if (20 <? length l)%nat then drop (length l - 10) l else l).
    { intros l.
      change (slice l (Z.quot (- maxHistoryMessages) 2) None)
        with (slice l (- Z.of_nat 10%nat) None).
      rewrite slice_last by lia. unfold maxHistoryMessages.
      destruct (Z.ltb_spec 20 (Z.of_nat (length l))),
               (Nat.ltb_spec 20 (length l)); try lia; done. }
    rewrite Hm. by destruct (history w !! room a) as [session|].
  - by rewrite lookup_insert_ne.
Qed.

Lemma afterAppend_length old a :
  (length old ≤ 20)%nat → (length (afterAppend old a) ≤ 20)%nat.
Proof.
  intros H. unfold afterAppend. rewrite length_app. simpl.
  destruct (Nat.ltb_spec 20 (length old + 1)).
  - rewrite length_drop, length_app. simpl. lia.
  - rewrite length_app. simpl. lia.
Qed.

Lemma afterAppend_suffix old a all :
  old `suffix_of` all → afterAppend old a `suffix_of` all ++ [stored a].
Proof.
  intros H. unfold afterAppend.
  destruct (20 <? _)%nat.
  - etrans; [apply suffix_drop|]. by apply suffix_app.
  - by apply suffix_app.
Qed.

(** C6.  Starting from a fresh service, after any sequence of appends the
    messages stored for any room number at most 20 and are a suffix, in
    order, of the messages appended to that room.  One append stores the old
    messages followed by the new one when that makes at most 20, and
    otherwise only the last 10 of them (from 20 stored messages: the new one
    and the 9 before it); the other rooms are unchanged. *)
Theorem C6_history_bound (ops : list Append) (r : jsstring) (now : Z) :
  let w := appendAll ops (newService now) in
  (Z.of_nat (length (getHistory r w)) ≤ maxHistoryMessages)
  ∧ getHistory r w `suffix_of` appendedTo r ops
  ∧ (∀ a,
       getHistory r (append w a)
       = if bool_decide (room a = r)
         then (if (20 <? length (getHistory r w ++ [stored a]))%nat
               then drop (length (getHistory r w ++ [stored a]) - 10)
                      (getHistory r w ++ [stored a])
               else getHistory r w ++ [stored a])
         else getHistory r w)
  ∧ (∀ a, room a = r → length (getHistory r w) = 20%nat →
       length (getHistory r (append w a)) = 10%nat).
Proof.
  simpl.
  assert (Hinv : (length (getHistory r (appendAll ops (newService now))) ≤ 20)%nat
                 ∧ getHistory r (appendAll ops (newService now))
                   `suffix_of` appendedTo r ops).
  { induction ops as [|a ops [IH1 IH2]] using rev_ind.
    - unfold appendAll, getHistory. simpl. rewrite lookup_empty. simpl.
      split; [lia|done].
    - unfold appendAll, appendedTo in *.
      rewrite foldl_app, filter_app, fmap_app. simpl.
      rewrite getHistory_append.
      case_bool_decide as Hr.
      + rewrite filter_cons_True, filter_nil by done. simpl.
        split; [by apply afterAppend_length|by apply afterAppend_suffix].
      + rewrite filter_cons_False, filter_nil, app_nil_r by done. done. }
  destruct Hinv as [Hlen Hsuf].
  split_and!.
  - unfold maxHistoryMessages. lia.
  - done.
  - intros a. by rewrite getHistory_append.
  - intros a Hr H20. rewrite getHistory_append, bool_decide_eq_true_2 by done.
    unfold afterAppend. rewrite length_app, H20. simpl.
    rewrite length_drop, length_app, H20. simpl. lia.
Qed.

(** C6 on a room that holds 20 messages: the next append leaves 10. *)
Lemma C6_witness :
  length (getHistory (lit "room")
            (append (appendAll (replicate 20 oneAppend) (newService 0))
               oneAppend))
  = 10%nat.
Proof.
  destruct (C6_history_bound (replicate 20 oneAppend) (lit "room") 0)
    as (_ & _ & _ & Hprune).
  apply Hprune; reflexivity.
Defined.

End History.

(* ===================================================================== *)
(** ** Retry, fallback and what reaches the sentence callback *)
(* ===================================================================== *)

Module Generation.
Import AiService ServiceNotions JsFacts Segmentation.

Lemma extends_refl w : extends w w.
Proof. exists []. by rewrite app_nil_r. Qed.

Lemma extends_trans w1 w2 w3 : extends w1 w2 → extends w2 w3 → extends w1 w3.
Proof.
  intros (o1 & H1 & G1) (o2 & H2 & G2). exists (o1 ++ o2).
  rewrite H2, H1, app_assoc. split; [done|]. by apply Forall_app.
Qed.

Lemma extends_same w w' : spoken w' = spoken w → extends w w'.
Proof. intros H. exists []. by rewrite app_nil_r. Qed.

Lemma extends_say out w : Forall speakable out → extends w (say out w).
Proof. intros H. by exists out. Qed.

Lemma trimmed_speakable s : truthy (trim s) = true → speakable (trim s).
Proof.
  intros H. split; [by destruct (trim s)|]. by rewrite trim_idemp.
Qed.

Lemma polite_ret {A} (a : A) : polite (mret a).
Proof. intros w. apply extends_refl. Qed.

Lemma polite_throw {A} e : polite (@throw A e).
Proof. intros w. apply extends_refl. Qed.

Lemma polite_bind {A B} (m : M A) (f : A → M B) (P : A → Prop) :
  polite m → returns m P → (∀ a, P a → polite (f a)) → polite (m ≫= f).
Proof.
  intros Hm HP Hf w. unfold mbind, M_bind.
  specialize (Hm w). specialize (HP w).
  destruct (m w) as [[a|e] w1]; simpl in *; [|done].
  eapply extends_trans; [exact Hm|]. by apply Hf, (HP a w1).
Qed.

Lemma polite_seq {A B} (m : M A) (k : M B) :
  polite m → polite k → polite (m ≫= λ _, k).
Proof. intros Hm Hk. apply (polite_bind m _ (λ _, True)); done. Qed.

Lemma polite_try_catch {A} (body : M A) (handler : Thrown → M A) :
  polite body → (∀ e, polite (handler e)) → polite (try_catch body handler).
Proof.
  intros Hb Hh w. unfold try_catch. specialize (Hb w).
  destruct (body w) as [[a|e] w1]; simpl in *; [done|].
  eapply extends_trans; [exact Hb|]. apply Hh.
Qed.

Lemma polite_onSentence s : speakable s → polite (onSentence s).
Proof.
  intros Hs w. exists [s]. split; [done|]. by constructor.
Qed.

Lemma polite_delay ms : polite (delay ms).
Proof. intros w. by apply extends_same. Qed.

Lemma polite_buildMessages r t : polite (buildMessages r t).
Proof. intros w. by apply extends_same. Qed.

Lemma polite_saveTurn r t reply : polite (saveTurn r t reply).
Proof.
  intros w. destruct (saveTurn_frame r t reply w) as [h ->].
  by apply extends_same.
Qed.

Lemma polite_callModel oracle messages : polite (callModel oracle messages).
Proof. intros w. by apply extends_same. Qed.

Lemma polite_Math_random oracle : polite (Math_random oracle).
Proof. intros w. by apply extends_same. Qed.

Lemma polite_emitAll sentences :
  Forall speakable sentences → polite (emitAll sentences).
Proof. intros H w. rewrite emitAll_say. by apply extends_say. Qed.

(** Every sentence the loop of [extractCompleteSentences] collects is
    trimmed and not empty. *)
Lemma execLoop_speakable fuel buffer lastIndex sentences :
  Forall speakable sentences →
  Forall speakable (execLoop fuel buffer lastIndex sentences).1.
Proof.
  revert lastIndex sentences.
  induction fuel as [|fuel IH]; intros lastIndex sentences Hs; simpl; [done|].
  destruct (exec buffer lastIndex) as [[index len]|]; [|done].
  apply IH. destruct (truthy _) eqn:Ht; [|done].
  apply Forall_app. split; [done|].
  constructor; [|done]. by apply trimmed_speakable.
Qed.

Lemma extracted_speakable buffer :
  Forall speakable (extracted (extractCompleteSentences buffer)).
Proof.
  unfold extractCompleteSentences.
  pose proof (execLoop_speakable (S (length buffer)) buffer 0 []
                (List.Forall_nil _)) as H.
  by destruct (execLoop _ _ _ _).
Qed.

Lemma polite_forAwait chunks fullResponse sentenceBuffer :
  polite (forAwait chunks fullResponse sentenceBuffer).
Proof.
  revert fullResponse sentenceBuffer.
  induction chunks as [|chunk chunks IH]; intros fullResponse sentenceBuffer.
  - apply polite_ret.
  - simpl. destruct (0 <? _)%nat; [|apply IH].
    apply polite_seq; [|apply IH].
    apply polite_emitAll, extracted_speakable.
Qed.

(** [Math.floor(r * n)] is an index below [n]. *)
Lemma floor_times_lt r n : (0 < n)%nat → (floor_times r n < n)%nat.
Proof.
  intros Hn. unfold floor_times.
  assert (rnd_num r * N.of_nat n / (rnd_num r + rnd_gap r + 1) < N.of_nat n)%N;
    [|lia].
  apply N.Div0.div_lt_upper_bound; lia.
Qed.

Lemma fallback_in r : getRandomFallbackResponse r ∈ FALLBACK_RESPONSES.
Proof.
  unfold getRandomFallbackResponse. cbv zeta.
  pose proof (floor_times_lt r (length FALLBACK_RESPONSES)) as Hlt.
  match goal with
  | |- context [?l !! ?i] => destruct (l !! i) as [fb|] eqn:Hfb
  end.
  - simpl. by eapply list_elem_of_lookup_2.
  - apply lookup_ge_None in Hfb. simpl in Hfb, Hlt. lia.
Qed.

Lemma FALLBACK_RESPONSES_speakable : Forall speakable FALLBACK_RESPONSES.
Proof. repeat constructor; done. Qed.

Lemma fallback_speakable r : speakable (getRandomFallbackResponse r).
Proof.
  pose proof FALLBACK_RESPONSES_speakable as H.
  rewrite Forall_forall in H. apply H, fallback_in.
Qed.

Section Politeness.
Variable oracle : Oracle.

Lemma returns_fallbackResponse : returns (fallbackResponse oracle) speakable.
Proof.
  intros w a w'. unfold fallbackResponse, Math_random, mbind, M_bind, mret, M_ret.
  intros [= <- _]. apply fallback_speakable.
Qed.

Lemma polite_fallbackResponse : polite (fallbackResponse oracle).
Proof.
  unfold fallbackResponse.
  apply (polite_bind _ _ (λ _, True)); [apply polite_Math_random|done|].
  intros r _. apply polite_ret.
Qed.

(** The last resort of the streaming methods: draw a fallback line, hand
    it to the callback, return it. *)
Lemma polite_fallback_spoken :
  polite (fallback ← fallbackResponse oracle;
          onSentence fallback;; mret fallback).
Proof.
  apply (polite_bind _ _ speakable);
    [apply polite_fallbackResponse|apply returns_fallbackResponse|].
  intros fb Hfb. apply polite_seq; [by apply polite_onSentence|].
  apply polite_ret.
Qed.

Lemma polite_generateStreamingResponse options :
  polite (generateStreamingResponse oracle options).
Proof.
  unfold generateStreamingResponse.
  destruct (negb _); [apply polite_fallback_spoken|].
  apply polite_try_catch; [|intros; apply polite_throw].
  apply (polite_bind _ _ (λ _, True)); [apply polite_buildMessages|done|].
  intros messages _.
  apply (polite_bind _ _ (λ _, True)); [apply polite_callModel|done|].
  intros run _.
  apply (polite_bind _ _ (λ _, True)); [apply polite_forAwait|done|].
  intros [fullResponse sentenceBuffer] _.
  destruct (failure run); [apply polite_throw|].
  apply polite_seq.
  - destruct (truthy (trim sentenceBuffer)) eqn:Ht; [|apply polite_ret].
    by apply polite_onSentence, trimmed_speakable.
  - apply polite_seq; [apply polite_saveTurn|apply polite_ret].
Qed.

Lemma polite_retryLoop {A} (body : M A) iterations attempt maxRetries :
  polite body → polite (retryLoop body iterations attempt maxRetries).
Proof.
  intros Hbody. revert attempt.
  induction iterations as [|n IH]; intros attempt; simpl; [apply polite_ret|].
  apply polite_try_catch.
  - apply (polite_bind _ _ (λ _, True)); [done|done|].
    intros a _. apply polite_ret.
  - intros e. destruct (isFinalFailure e); [apply polite_ret|].
    apply polite_seq; [|apply IH].
    destruct (attempt <? maxRetries); [apply polite_delay|apply polite_ret].
Qed.

Lemma polite_generateStreamingResponseWithRetry options maxRetries :
  polite (generateStreamingResponseWithRetry oracle options maxRetries).
Proof.
  unfold generateStreamingResponseWithRetry.
  apply (polite_bind _ _ (λ _, True));
    [apply polite_retryLoop, polite_generateStreamingResponse|done|].
  intros [text|] _; [apply polite_ret|apply polite_fallback_spoken].
Qed.

End Politeness.

(** C9.  Every string [generateStreamingResponse] and
    [generateStreamingResponseWithRetry] hand to the sentence callback, on
    every path (extracted sentences, the remainder after the stream ends,
    the fallback for a blank transcript, the fallback after the retries),
    whether the method returns or throws, is not empty and not white space
    only. *)
Theorem C9_callback_strings_not_blank oracle options maxRetries w :
  (∃ out,
     spoken (generateStreamingResponse oracle options w).2 = spoken w ++ out
     ∧ Forall (λ s, s ≠ [] ∧ truthy (trim s) = true) out)
  ∧ (∃ out,
       spoken (generateStreamingResponseWithRetry oracle options maxRetries w).2
       = spoken w ++ out
       ∧ Forall (λ s, s ≠ [] ∧ truthy (trim s) = true) out).
Proof.
  split.
  - apply polite_generateStreamingResponse.
  - apply polite_generateStreamingResponseWithRetry.
Qed.

Lemma attempts_zero w w' :
  modelCalls w' = modelCalls w → randomCalls w' = randomCalls w →
  spoken w' = spoken w → attempts 0 w w'.
Proof.
  intros Hm Hr Hs. split_and!; [lia|done|by apply extends_same].
Qed.

Lemma attempts_trans j k w1 w2 w3 :
  attempts j w1 w2 → attempts k w2 w3 → attempts (j + k) w1 w3.
Proof.
  intros (Hm1 & Hr1 & He1) (Hm2 & Hr2 & He2).
  split_and!; [lia|congruence|by eapply extends_trans].
Qed.

(** When every attempt throws a retryable [AiGenerationError], the loop
    makes all its iterations and is left without a result. *)
Lemma retryLoop_exhausts {A} (body : M A) :
  (∀ w, ∃ msg e w',
     body w = (Threw (AiGenerationError msg e true), w') ∧ attempts 1 w w') →
  ∀ iterations attempt maxRetries w,
  ∃ w',
    retryLoop body iterations attempt maxRetries w = (Returned None, w')
    ∧ attempts iterations w w'.
Proof.
  intros Hbody iterations.
  induction iterations as [|n IH]; intros attempt maxRetries w.
  - exists w. split; [done|]. by apply attempts_zero.
  - destruct (Hbody w) as (msg & e & w1 & Hrun & Hw1).
    simpl. unfold try_catch.
    erewrite bind_threw by exact Hrun. simpl.
    set (pause := (if attempt <? maxRetries
                   then delay (1000 * (attempt + 1)) else mret tt) : M unit).
    assert (∃ w2, pause w1 = (Returned tt, w2) ∧ attempts 0 w1 w2)
      as (w2 & Hpause & Hw2).
    { unfold pause. destruct (attempt <? maxRetries); eexists;
        (split; [reflexivity|by apply attempts_zero]). }
    erewrite bind_returned by exact Hpause.
    destruct (IH (attempt + 1) maxRetries w2) as (w3 & Hloop & Hw3).
    exists w3. split; [done|].
    change (S n) with (1 + (0 + n))%nat.
    eapply attempts_trans; [done|]. by eapply attempts_trans.
Qed.

Lemma forAwait_returns chunks fullResponse sentenceBuffer w :
  ∃ sentenceBuffer' out,
    forAwait chunks fullResponse sentenceBuffer w
    = (Returned (fullResponse ++ concat chunks, sentenceBuffer'), say out w)
    ∧ Forall speakable out.
Proof.
  destruct (forAwait_stream chunks fullResponse sentenceBuffer [] w
              (List.Forall_nil _)) as (sentenceBuffer' & out & Hrun & _).
  exists sentenceBuffer', out. split; [done|].
  destruct (polite_forAwait chunks fullResponse sentenceBuffer w)
    as (out' & Hout & Hgood).
  rewrite Hrun in Hout. simpl in Hout. by apply app_inv_head in Hout as ->.
Qed.

Section Failing.
Variable oracle : Oracle.
Variable options : GenerateOptions.
Hypothesis Htranscript : truthy (trim (transcript options)) = true.
Hypothesis Hfailing :
  ∀ n messages, ∃ e,
    failure (model oracle n messages) = Some e ∧ isRetryableError e = true.

Lemma failing_generateStreamingResponse w :
  ∃ msg e w',
    generateStreamingResponse oracle options w
    = (Threw (AiGenerationError msg e true), w')
    ∧ attempts 1 w w'.
Proof.
  unfold generateStreamingResponse. rewrite Htranscript.
  change (negb true) with false. cbv iota. unfold try_catch.
  erewrite bind_returned by reflexivity.
  erewrite bind_returned by reflexivity.
  match goal with
  | |- context [model oracle (modelCalls w) ?messages] =>
    destruct (Hfailing (modelCalls w) messages) as (e & He & Hretry)
  end.
  set (w1 := {| history := history w; modelCalls := S (modelCalls w);
                randomCalls := randomCalls w; spoken := spoken w;
                delays := delays w; clock := clock w |}).
  match goal with
  | |- context [forAwait ?cs [] []] =>
    destruct (forAwait_returns cs [] [] w1) as (buffer' & out & Hloop & Hout)
  end.
  erewrite bind_returned by exact Hloop. cbv beta iota.
  rewrite He. unfold throw. rewrite Hretry.
  do 3 eexists. split; [reflexivity|].
  split_and!; [simpl; lia|done|by exists out].
Qed.

Lemma failing_generateResponse w :
  ∃ msg e w',
    generateResponse oracle options w
    = (Threw (AiGenerationError msg e true), w')
    ∧ attempts 1 w w'.
Proof.
  unfold generateResponse. rewrite Htranscript.
  change (negb true) with false. cbv iota. unfold try_catch.
  erewrite bind_returned by reflexivity.
  match goal with
  | |- context [generateText oracle ?messages] =>
    destruct (Hfailing (modelCalls w) messages) as (e & He & Hretry);
    assert (Hgen : generateText oracle messages w
                   = (Threw e,
                      {| history := history w; modelCalls := S (modelCalls w);
                         randomCalls := randomCalls w; spoken := spoken w;
                         delays := delays w; clock := clock w |}))
      by (unfold generateText; erewrite bind_returned by reflexivity;
          by rewrite He)
  end.
  erewrite bind_threw by exact Hgen.
  unfold throw. rewrite Hretry.
  do 3 eexists. split; [reflexivity|].
  split_and!; [simpl; lia|done|by apply extends_same].
Qed.

End Failing.

(** An attempt that returns ends the loop with its result. *)
Lemma retryLoop_first_returns {A} (body : M A) n attempt maxRetries w a w' :
  body w = (Returned a, w') →
  retryLoop body (S n) attempt maxRetries w = (Returned (Some a), w').
Proof.
  intros Hbody. simpl. unfold try_catch.
  by erewrite bind_returned by exact Hbody.
Qed.

(** A blank transcript: the two generators answer with a fallback line at
    once, without the model. *)
Lemma blank_generateStreamingResponse oracle options w :
  truthy (trim (transcript options)) = false →
  generateStreamingResponse oracle options w
  = (Returned (getRandomFallbackResponse (random oracle (randomCalls w))),
     {| history := history w; modelCalls := modelCalls w;
        randomCalls := S (randomCalls w);
        spoken := spoken w
                  ++ [getRandomFallbackResponse (random oracle (randomCalls w))];
        delays := delays w; clock := clock w |}).
Proof. intros Hblank. unfold generateStreamingResponse. by rewrite Hblank. Qed.

Lemma blank_generateResponse oracle options w :
  truthy (trim (transcript options)) = false →
  generateResponse oracle options w
  = (Returned (getRandomFallbackResponse (random oracle (randomCalls w))),
     {| history := history w; modelCalls := modelCalls w;
        randomCalls := S (randomCalls w); spoken := spoken w;
        delays := delays w; clock := clock w |}).
Proof. intros Hblank. unfold generateResponse. by rewrite Hblank. Qed.

(** With the callback of [AiService]: when every call of the model throws
    an error that does not indicate a rate limit, the two retry methods
    return a line of [FALLBACK_RESPONSES], after all their attempts for a
    transcript that is not blank, without any attempt for a blank one. *)
Lemma fallback_after_failures oracle options maxRetries w :
  (∀ n messages, ∃ e,
     failure (model oracle n messages) = Some e ∧ isRetryableError e = true) →
  let tries :=
    if truthy (trim (transcript options))
    then Z.to_nat (maxRetries + 1) else 0%nat in
  (∃ fallback w',
     generateResponseWithRetry oracle options maxRetries w
     = (Returned fallback, w')
     ∧ fallback ∈ FALLBACK_RESPONSES
     ∧ fallback ≠ []
     ∧ modelCalls w' = (modelCalls w + tries)%nat)
  ∧ (∃ fallback streamedBefore w',
       generateStreamingResponseWithRetry oracle options maxRetries w
       = (Returned fallback, w')
       ∧ fallback ∈ FALLBACK_RESPONSES
       ∧ fallback ≠ []
       ∧ modelCalls w' = (modelCalls w + tries)%nat
       ∧ randomCalls w' = S (randomCalls w)
       ∧ spoken w' = spoken w ++ streamedBefore ++ [fallback]).
Proof.
  intros Hfailing tries. unfold tries.
  destruct (truthy (trim (transcript options))) eqn:Htranscript.
  - split.
    + destruct (retryLoop_exhausts (generateResponse oracle options)
                  (failing_generateResponse oracle options Htranscript Hfailing)
                  (Z.to_nat (maxRetries + 1)) 0 maxRetries w)
        as (w1 & Hloop & Hm & Hr & He).
      unfold generateResponseWithRetry.
      erewrite bind_returned by exact Hloop.
      do 2 eexists. split; [reflexivity|].
      split_and!; [apply fallback_in|apply fallback_speakable|done].
    + destruct (retryLoop_exhausts (generateStreamingResponse oracle options)
                  (failing_generateStreamingResponse oracle options
                     Htranscript Hfailing)
                  (Z.to_nat (maxRetries + 1)) 0 maxRetries w)
        as (w1 & Hloop & Hm & Hr & (out & Hout & _)).
      unfold generateStreamingResponseWithRetry.
      erewrite bind_returned by exact Hloop.
      exists (getRandomFallbackResponse (random oracle (randomCalls w1))), out.
      eexists. split; [reflexivity|].
      split_and!; [apply fallback_in|apply fallback_speakable|done| |].
      * simpl. by rewrite Hr.
      * simpl. by rewrite Hout, <- app_assoc.
  - unfold generateResponseWithRetry, generateStreamingResponseWithRetry.
    destruct (Z.to_nat (maxRetries + 1)) as [|n].
    + split.
      * do 2 eexists. split; [reflexivity|].
        split_and!; [apply fallback_in|apply fallback_speakable|simpl; lia].
      * exists (getRandomFallbackResponse (random oracle (randomCalls w))), [].
        eexists. split; [reflexivity|].
        split_and!;
          [apply fallback_in|apply fallback_speakable|simpl; lia|done..].
    + split.
      * erewrite bind_returned
          by by apply retryLoop_first_returns, blank_generateResponse.
        do 2 eexists. split; [reflexivity|].
        split_and!; [apply fallback_in|apply fallback_speakable|simpl; lia].
      * erewrite bind_returned
          by by apply retryLoop_first_returns, blank_generateStreamingResponse.
        exists (getRandomFallbackResponse (random oracle (randomCalls w))), [].
        eexists. split; [reflexivity|].
        split_and!;
          [apply fallback_in|apply fallback_speakable|simpl; lia|done..].
Qed.

(** With a callback that returns from every call the methods of
    [Streaming] are those of [AiService]. *)
Section Returning.
Variable callback : Streaming.SentenceCallback.
Variable oracle : Oracle.
Hypothesis Hreturns : ∀ n sentence, callback n sentence = None.

Lemma onSentence_returning sentence w :
  Streaming.onSentence callback sentence w = onSentence sentence w.
Proof. unfold Streaming.onSentence. by rewrite Hreturns. Qed.

Lemma emitAll_returning sentences w :
  Streaming.emitAll callback sentences w = emitAll sentences w.
Proof.
  revert w. induction sentences as [|s l IH]; intros w; [done|].
  simpl. unfold mbind, M_bind. rewrite onSentence_returning.
  destruct (onSentence s w) as [[[]|e] w1]; [apply IH|done].
Qed.

Lemma forAwait_returning chunks fullResponse sentenceBuffer w :
  Streaming.forAwait callback chunks fullResponse sentenceBuffer w
  = forAwait chunks fullResponse sentenceBuffer w.
Proof.
  revert fullResponse sentenceBuffer w.
  induction chunks as [|chunk chunks IH];
    intros fullResponse sentenceBuffer w; [done|].
  simpl. destruct (0 <? _)%nat; [|apply IH].
  unfold mbind, M_bind. rewrite emitAll_returning.
  destruct (emitAll _ w) as [[[]|e] w1]; [apply IH|done].
Qed.

Lemma generateStreamingResponse_returning options w :
  Streaming.generateStreamingResponse callback oracle options w
  = generateStreamingResponse oracle options w.
Proof.
  unfold Streaming.generateStreamingResponse, generateStreamingResponse.
  destruct (negb (truthy (trim (transcript options)))).
  - unfold mbind, M_bind.
    destruct (fallbackResponse oracle w) as [[fallback|e] w1]; [|done].
    by rewrite onSentence_returning.
  - unfold try_catch, mbind, M_bind.
    destruct (buildMessages _ _ w) as [[messages|e] w1]; [|done].
    destruct (callModel oracle messages w1) as [[run|e] w2]; [|done].
    rewrite forAwait_returning.
    destruct (forAwait (chunks run) [] [] w2) as [[[full buffer]|e] w3];
      [|done].
    destruct (failure run); [done|].
    destruct (truthy (trim buffer)); [|done].
    by rewrite onSentence_returning.
Qed.

End Returning.

Lemma retryLoop_ext {A} (body body' : M A) :
  (∀ w, body w = body' w) →
  ∀ iterations attempt maxRetries w,
    retryLoop body iterations attempt maxRetries w
    = retryLoop body' iterations attempt maxRetries w.
Proof.
  intros Hbody iterations.
  induction iterations as [|n IH]; intros attempt maxRetries w; [done|].
  simpl. unfold try_catch, mbind, M_bind. rewrite Hbody.
  destruct (body' w) as [[a|e] w1]; [done|].
  destruct (isFinalFailure e); [done|].
  destruct ((if attempt <? maxRetries then delay (1000 * (attempt + 1))
             else mret tt) w1) as [[[]|e'] w2]; [apply IH|done].
Qed.

Lemma generateStreamingResponseWithRetry_returning
  callback oracle options maxRetries w :
  (∀ n sentence, callback n sentence = None) →
  Streaming.generateStreamingResponseWithRetry callback oracle options
    maxRetries w
  = generateStreamingResponseWithRetry oracle options maxRetries w.
Proof.
  intros Hreturns.
  unfold Streaming.generateStreamingResponseWithRetry,
    generateStreamingResponseWithRetry, mbind, M_bind.
  rewrite (retryLoop_ext _ (generateStreamingResponse oracle options))
    by (intros; by apply generateStreamingResponse_returning).
  destruct (retryLoop _ _ _ _ w) as [[[text|]|e] w1]; [done| |done].
  destruct (fallbackResponse oracle w1) as [[fallback|e] w2]; [|done].
  by rewrite onSentence_returning.
Qed.

(** Whatever its attempts do, the loop of the retry methods returns. *)
Lemma retryLoop_returns {A} (body : M A) iterations :
  ∀ attempt maxRetries w,
  ∃ r w', retryLoop body iterations attempt maxRetries w = (Returned r, w').
Proof.
  induction iterations as [|n IH]; intros attempt maxRetries w; simpl.
  - by eexists _, _.
  - unfold try_catch, mbind, M_bind.
    destruct (body w) as [[a|e] w1]; [by eexists _, _|].
    destruct (isFinalFailure e); [by eexists _, _|].
    destruct (attempt <? maxRetries); apply IH.
Qed.

(** C4 (as amended).  When every call of the model throws an error that
    does not indicate a rate limit ([isRetryableError] holds of it),
    [generateResponseWithRetry] returns normally, with a line of
    [FALLBACK_RESPONSES], which is not empty; and so does
    [generateStreamingResponseWithRetry] when its callback returns from
    every call: for a transcript that is not blank after all their
    [maxRetries + 1] attempts, for a blank one without any attempt.  The
    streaming method then draws exactly one fallback line and its last call
    of the callback is that line, after whatever sentences the failed
    attempts had streamed.  With any callback and any model, the only
    error [generateStreamingResponseWithRetry] throws is one its callback
    threw when called with a fallback line: no error of the model reaches
    the caller. *)
Theorem C4_fallback_guarantee callback oracle options maxRetries w :
  (∀ n messages, ∃ e,
     failure (model oracle n messages) = Some e ∧ isRetryableError e = true) →
  (∀ n sentence, callback n sentence = None) →
  let tries :=
    if truthy (trim (transcript options))
    then Z.to_nat (maxRetries + 1) else 0%nat in
  (∃ fallback w',
     generateResponseWithRetry oracle options maxRetries w
     = (Returned fallback, w')
     ∧ fallback ∈ FALLBACK_RESPONSES
     ∧ fallback ≠ []
     ∧ modelCalls w' = (modelCalls w + tries)%nat)
  ∧ (∃ fallback streamedBefore w',
       Streaming.generateStreamingResponseWithRetry callback oracle options
         maxRetries w
       = (Returned fallback, w')
       ∧ fallback ∈ FALLBACK_RESPONSES
       ∧ fallback ≠ []
       ∧ modelCalls w' = (modelCalls w + tries)%nat
       ∧ randomCalls w' = S (randomCalls w)
       ∧ spoken w' = spoken w ++ streamedBefore ++ [fallback])
  ∧ (∀ anyCallback anyOracle thrown w',
       Streaming.generateStreamingResponseWithRetry anyCallback anyOracle
         options maxRetries w
       = (Threw thrown, w') →
       ∃ n fallback,
         anyCallback n fallback = Some thrown
         ∧ fallback ∈ FALLBACK_RESPONSES).
Proof.
  intros Hfailing Hreturns tries.
  destruct (fallback_after_failures oracle options maxRetries w Hfailing)
    as [Hresponse Hstreaming].
  split_and!.
  - exact Hresponse.
  - by rewrite generateStreamingResponseWithRetry_returning.
  - intros anyCallback anyOracle thrown w' Hrun.
    unfold Streaming.generateStreamingResponseWithRetry, mbind, M_bind
      in Hrun.
    destruct (retryLoop_returns
                (Streaming.generateStreamingResponse anyCallback anyOracle
                   options)
                (Z.to_nat (maxRetries + 1)) 0 maxRetries w)
      as (r & w1 & Hloop).
    rewrite Hloop in Hrun. destruct r as [text|]; [done|].
    unfold fallbackResponse, Math_random, mbind, M_bind, mret, M_ret in Hrun.
    unfold Streaming.onSentence in Hrun. cbv beta iota zeta in Hrun.
    match type of Hrun with
    | context [anyCallback ?n ?fallback] =>
      destruct (anyCallback n fallback) as [e|] eqn:Hcall; [|done];
      exists n, fallback
    end.
    injection Hrun as <- _. split; [done|apply fallback_in].
Qed.

(** C4 on a model whose every stream breaks after one sentence, with a
    callback that returns. *)
Lemma C4_witness :
  (∃ fallback w',
     generateResponseWithRetry failingOracle demoOptions 2 (newService 0)
     = (Returned fallback, w')
     ∧ fallback ≠ [])
  ∧ (∃ fallback streamedBefore w',
       Streaming.generateStreamingResponseWithRetry Streaming.returning
         failingOracle demoOptions 2 (newService 0)
       = (Returned fallback, w')
       ∧ spoken w' = streamedBefore ++ [fallback]).
Proof.
  destruct (C4_fallback_guarantee Streaming.returning failingOracle
              demoOptions 2 (newService 0)
              (λ _ _, ex_intro _ _ (conj eq_refl eq_refl))
              (λ _ _, eq_refl))
    as (Hresponse & Hstreaming & _).
  destruct Hresponse as (fb1 & w1 & H1 & _ & Hne & _).
  destruct Hstreaming as (fb2 & pre & w2 & H2 & _ & _ & _ & _ & Hspoken).
  split.
  - exists fb1, w1. split; [exact H1|exact Hne].
  - exists fb2, pre, w2. split; [exact H2|exact Hspoken].
Defined.

(** The claim of C4 fails on the code when the callback throws: the
    transcript is not empty, every call of the model fails with an error
    that is no rate limit, and the error the callback throws when it is
    called with the fallback line reaches the caller of
    [generateStreamingResponseWithRetry]. *)
Lemma C4_counterexample :
  truthy (transcript demoOptions) = true
  ∧ (∀ n messages,
       failure (model failingOracle n messages)
       = Some (ErrorObject (lit "socket hang up"))
       ∧ isRetryableError (ErrorObject (lit "socket hang up")) = true)
  ∧ (Streaming.generateStreamingResponseWithRetry
       (Streaming.throwing Streaming.playbackError) failingOracle demoOptions
       2 (newService 0)).1
    = Threw Streaming.playbackError.
Proof. split_and!; [done|by intros|reflexivity]. Qed.

(** C5 (as amended).  For a transcript that is empty or white space only,
    [generateStreamingResponse] does not call the model, draws one line of
    [FALLBACK_RESPONSES] with [Math.random()], calls the callback exactly
    once, with that line, and returns the same line without any delay; the
    history is untouched.  [generateResponse] returns such a line the same
    way, with no callback.  Which line it is depends on the random draw. *)
Theorem C5_blank_transcript_fallback oracle options w :
  truthy (trim (transcript options)) = false →
  let fallback := getRandomFallbackResponse (random oracle (randomCalls w)) in
  fallback ∈ FALLBACK_RESPONSES
  ∧ (∃ w',
       generateStreamingResponse oracle options w = (Returned fallback, w')
       ∧ modelCalls w' = modelCalls w
       ∧ spoken w' = spoken w ++ [fallback]
       ∧ delays w' = delays w
       ∧ history w' = history w)
  ∧ (∃ w',
       generateResponse oracle options w = (Returned fallback, w')
       ∧ modelCalls w' = modelCalls w
       ∧ spoken w' = spoken w
       ∧ delays w' = delays w
       ∧ history w' = history w).
Proof.
  intros Hblank fallback. split; [apply fallback_in|].
  unfold generateStreamingResponse, generateResponse. rewrite Hblank.
  change (negb false) with true. cbv iota.
  split; eexists; (split; [reflexivity|done]).
Qed.

(** C5 on a transcript of three spaces. *)
Lemma C5_witness :
  ∃ w',
    generateStreamingResponse lowDraw blankOptions (newService 0)
    = (Returned (lit "I'm having trouble understanding. Could you try again?"),
       w')
    ∧ modelCalls w' = 0%nat
    ∧ spoken w'
      = [lit "I'm having trouble understanding. Could you try again?"].
Proof.
  destruct (C5_blank_transcript_fallback lowDraw blankOptions (newService 0)
              eq_refl) as (_ & (w' & Hrun & Hm & Hs & _) & _).
  exists w'. split; [exact Hrun|]. split; [exact Hm|exact Hs].
Defined.

(** The claim of C5 that the line is determined by the input alone fails on
    the code: the same blank transcript on the same fresh service gives two
    different lines for two values of [Math.random()]. *)
Lemma C5_counterexample :
  (generateStreamingResponse lowDraw blankOptions (newService 0)).1
  = Returned (lit "I'm having trouble understanding. Could you try again?")
  ∧ (generateStreamingResponse highDraw blankOptions (newService 0)).1
    = Returned (lit "Something went wrong on my end. Please try again.")
  ∧ (generateStreamingResponse lowDraw blankOptions (newService 0)).1
    ≠ (generateStreamingResponse highDraw blankOptions (newService 0)).1.
Proof. split_and!; [reflexivity|reflexivity|]. vm_compute. discriminate. Qed.

End Generation.

(* ===================================================================== *)
(** ** More on the transcript reconciler *)
(* ===================================================================== *)

Module Inbound.
Import App AppNotions Traffic TrafficRuns Reconciler.

Lemma startsWith_refl s : startsWith s s = true.
Proof. induction s as [|c s IH]; simpl; [done|]. by rewrite N.eqb_refl. Qed.

Lemma same_sender_of e sid r :
  ChatMessage.senderId e = Some sid → ChatMessage.role e = r →
  same_sender sid r e = true.
Proof.
  intros Hs Hr. unfold same_sender. rewrite Hs, Hr. simpl.
  destruct (truthy sid); simpl; by rewrite bool_decide_eq_true_2.
Qed.

(** The updater on a list that ends with [lastMessage], with the two tests
    named. *)
Lemma chatUpdater_snoc data participant kind topic newId now init lastMessage :
  chatUpdater data participant kind topic newId now (init ++ [lastMessage])
  = let incoming := incomingMessage data participant kind topic newId now in
    let lastIsStreaming :=
      bool_decide (ChatMessage.status lastMessage = Some streaming) in
    if same_sender (senderId data participant) (role data) lastMessage
       && bool_decide (ChatMessage.topic lastMessage
                       = Some (messageTopic data topic))
    then
      if hasExplicitInterim data
         || (negb (hasExplicitFlag data) && bool_decide (role data = user)
             && same_sender (senderId data participant) (role data) lastMessage
             && bool_decide (ChatMessage.topic lastMessage
                             = Some (messageTopic data topic))
             && (truthy (ChatMessage.text lastMessage)
                 && (startsWith (DataChannelMessage.message data)
                       (ChatMessage.text lastMessage)
                     || startsWith (ChatMessage.text lastMessage)
                          (DataChannelMessage.message data))))
      then init ++ [ChatMessage.with_status incoming streaming]
      else if (hasExplicitFinal data
               || (negb (hasExplicitFlag data) && lastIsStreaming
                   && bool_decide (DataChannelMessage.message data
                                   = ChatMessage.text lastMessage)))
              && lastIsStreaming
      then init ++ [ChatMessage.with_status incoming sent]
      else (init ++ [lastMessage]) ++ [incoming]
    else (init ++ [lastMessage]) ++ [incoming].
Proof.
  unfold chatUpdater. rewrite last_snoc, !spread_incoming.
  fold (same_sender (senderId data participant) (role data) lastMessage).
  cbv zeta. repeat case_match; try done; by rewrite insert_last.
Qed.

(** X1.  An event is never merged into an entry of another sender: when
    the sender of the event and the sender recorded in the last entry are
    both non-empty and differ, the event is appended as a new entry,
    whatever its flags and its text. *)
Theorem other_sender_is_appended
  data participant kind topic newId now init lastMessage otherId :
  ChatMessage.senderId lastMessage = Some otherId →
  truthy otherId = true →
  truthy (senderId data participant) = true →
  senderId data participant ≠ otherId →
  chatUpdater data participant kind topic newId now (init ++ [lastMessage])
  = init ++ [lastMessage;
             incomingMessage data participant kind topic newId now].
Proof.
  intros Hlast Hother Hsender Hne. rewrite chatUpdater_snoc. cbv zeta.
  unfold same_sender. rewrite Hlast, Hsender. simpl. rewrite Hother.
  rewrite bool_decide_eq_false_2 by congruence. simpl.
  by rewrite <- app_assoc.
Qed.

(** X2.  An event is never merged into an entry of another topic.  In
    particular the entries [addMessage] creates (system notices, which carry
    no topic) are never overwritten: a chat event that follows one is
    appended after it. *)
Theorem other_topic_is_appended
  data participant kind topic newId now :
  (∀ init lastMessage,
     ChatMessage.topic lastMessage ≠ Some (messageTopic data topic) →
     chatUpdater data participant kind topic newId now (init ++ [lastMessage])
     = init ++ [lastMessage;
                incomingMessage data participant kind topic newId now])
  ∧ (∀ noticeRole text noticeSender noticeId noticeTime st,
       messageTopic data topic = lit "chat" →
       messages (dispatch data participant kind topic newId now
                   (addMessage noticeRole text noticeSender noticeId
                      noticeTime st))
       = messages st
         ++ [ChatMessage.mk noticeId noticeRole text noticeTime noticeSender
               None None None;
             incomingMessage data participant kind topic newId now]).
Proof.
  assert (Hfirst : ∀ init lastMessage,
     ChatMessage.topic lastMessage ≠ Some (messageTopic data topic) →
     chatUpdater data participant kind topic newId now (init ++ [lastMessage])
     = init ++ [lastMessage;
                incomingMessage data participant kind topic newId now]).
  { intros init lastMessage Hne. rewrite chatUpdater_snoc. cbv zeta.
    rewrite (bool_decide_eq_false_2 _ Hne), andb_false_r.
    by rewrite <- app_assoc. }
  split; [exact Hfirst|].
  intros noticeRole text noticeSender noticeId noticeTime st Hchat.
  rewrite dispatch_chat by done. unfold addMessage. simpl.
  by rewrite Hfirst.
Qed.

(** X3.  An explicitly interim event ([interim:true] or [isFinal:false])
    overwrites the last entry as soon as the sender id and the topic match:
    the role, the status and the text of the entry it replaces play no part,
    so a finalized entry of another role from the same sender id is replaced
    by the streaming one. *)
Theorem explicit_interim_overwrites_last
  data participant kind topic newId now st init lastMessage :
  messages st = init ++ [lastMessage] →
  messageTopic data topic = lit "chat" →
  hasExplicitInterim data = true →
  truthy (senderId data participant) = true →
  ChatMessage.senderId lastMessage = Some (senderId data participant) →
  ChatMessage.topic lastMessage = Some (lit "chat") →
  messages (dispatch data participant kind topic newId now st)
  = init ++ [ChatMessage.mk newId (role data)
               (DataChannelMessage.message data)
               (default now (DataChannelMessage.timestamp data))
               (Some (senderId data participant)) (Some (lit "chat"))
               (Some streaming) (Some (delivery kind))].
Proof.
  intros Hst Hchat Hinterim Htruthy Hsender Htopic.
  rewrite dispatch_chat, Hst, chatUpdater_snoc by done. cbv zeta.
  unfold same_sender. rewrite Hsender, Htruthy. simpl. rewrite Htruthy.
  rewrite Htopic, Hchat, Hinterim, !bool_decide_eq_true_2 by done. simpl.
  unfold incomingMessage, ChatMessage.with_status. simpl. by rewrite Hchat.
Qed.

(** X4.  A user message without any flag, from the sender and topic of a
    last entry whose text is not empty: when one text is a prefix of the
    other the last entry is replaced by the incoming message with status
    [streaming] (even when that entry was finalized); otherwise the
    incoming message is appended with status [sent]. *)
Theorem unflagged_user_message
  data participant kind topic newId now init lastMessage :
  DataChannelMessage.role data = wire_user →
  DataChannelMessage.interim data = None →
  DataChannelMessage.isFinal data = None →
  same_sender (senderId data participant) user lastMessage = true →
  ChatMessage.topic lastMessage = Some (messageTopic data topic) →
  truthy (ChatMessage.text lastMessage) = true →
  let entry status :=
    ChatMessage.mk newId user (DataChannelMessage.message data)
      (default now (DataChannelMessage.timestamp data))
      (Some (senderId data participant)) (Some (messageTopic data topic))
      (Some status) (Some (delivery kind)) in
  chatUpdater data participant kind topic newId now (init ++ [lastMessage])
  = if startsWith (DataChannelMessage.message data)
         (ChatMessage.text lastMessage)
       || startsWith (ChatMessage.text lastMessage)
            (DataChannelMessage.message data)
    then init ++ [entry streaming]
    else init ++ [lastMessage; entry sent].
Proof.
  intros Hrole Hinterim Hfinal Hsender Htopic Htext entry.
  rewrite chatUpdater_snoc. cbv zeta.
  assert (Hr : role data = user) by (unfold role; by rewrite Hrole).
  assert (Hi : hasExplicitInterim data = false)
    by (unfold hasExplicitInterim; by rewrite Hinterim, Hfinal).
  assert (Hf : hasExplicitFinal data = false)
    by (unfold hasExplicitFinal; by rewrite Hinterim, Hfinal).
  assert (Hentry : ∀ status,
    ChatMessage.with_status
      (incomingMessage data participant kind topic newId now) status
    = entry status)
    by (intros status; unfold incomingMessage, ChatMessage.with_status, entry;
        simpl; by rewrite Hr).
  assert (Hinc : incomingMessage data participant kind topic newId now
                 = entry sent)
    by (unfold incomingMessage, entry; by rewrite Hr, Hi).
  unfold hasExplicitFlag.
  rewrite Hr, Hsender, Htopic, Hi, Hf, Htext, !bool_decide_eq_true_2 by done.
  simpl.
  destruct (startsWith _ _ || startsWith _ _) eqn:Hprefix;
    [by rewrite Hentry|].
  destruct (bool_decide (DataChannelMessage.message data
                         = ChatMessage.text lastMessage)) eqn:Heq.
  { apply bool_decide_eq_true in Heq.
    rewrite Heq, startsWith_refl in Hprefix. done. }
  rewrite andb_false_r. simpl. by rewrite Hinc, <- app_assoc.
Qed.

(** X5.  An assistant message without any flag is never treated as interim:
    from the sender and topic of the last entry it finalizes that entry only
    when the entry is streaming and has the very same text, and is appended
    otherwise; so it never overwrites a finalized entry. *)
Theorem unflagged_assistant_message
  data participant kind topic newId now init lastMessage :
  DataChannelMessage.role data = wire_ai →
  DataChannelMessage.interim data = None →
  DataChannelMessage.isFinal data = None →
  same_sender (senderId data participant) assistant lastMessage = true →
  ChatMessage.topic lastMessage = Some (messageTopic data topic) →
  chatUpdater data participant kind topic newId now (init ++ [lastMessage])
  = if bool_decide (ChatMessage.status lastMessage = Some streaming)
       && bool_decide (DataChannelMessage.message data
                       = ChatMessage.text lastMessage)
    then init ++ [ChatMessage.with_status
                    (incomingMessage data participant kind topic newId now)
                    sent]
    else init ++ [lastMessage;
                  ChatMessage.with_status
                    (incomingMessage data participant kind topic newId now)
                    sent].
Proof.
  intros Hrole Hinterim Hfinal Hsender Htopic.
  rewrite chatUpdater_snoc. cbv zeta.
  assert (Hr : role data = assistant) by (unfold role; by rewrite Hrole).
  assert (Hi : hasExplicitInterim data = false)
    by (unfold hasExplicitInterim; by rewrite Hinterim, Hfinal).
  assert (Hf : hasExplicitFinal data = false)
    by (unfold hasExplicitFinal; by rewrite Hinterim, Hfinal).
  assert (Hinc : ChatMessage.with_status
                   (incomingMessage data participant kind topic newId now) sent
                 = incomingMessage data participant kind topic newId now)
    by (unfold incomingMessage, ChatMessage.with_status; simpl; by rewrite Hi).
  unfold hasExplicitFlag.
  rewrite Hr, Hsender, Htopic, Hi, Hf, (bool_decide_eq_true_2 (Some _ = _))
    by done.
  rewrite (bool_decide_eq_false_2 (assistant = user)) by done. simpl.
  rewrite Hinc.
  destruct (bool_decide (ChatMessage.status lastMessage = Some streaming));
    simpl; [|by rewrite <- app_assoc].
  destruct (bool_decide (DataChannelMessage.message data
                         = ChatMessage.text lastMessage));
    simpl; [done|by rewrite <- app_assoc].
Qed.

Section Run.
Variable participant : option RemoteParticipant.
Variable topic : option jsstring.
Variable first : Parsed.

Lemma alike_sender p :
  alike topic first p →
  senderId (data p) participant = senderId (data first) participant
  ∧ role (data p) = role (data first).
Proof.
  intros (Hr & Hi & _). unfold senderId, role. by rewrite Hr, Hi.
Qed.

Lemma interim_on_open_entry st init e p :
  messages st = init ++ [e] → open_entry participant first e →
  alike topic first p → hasExplicitInterim (data p) = true →
  messages (deliver participant topic st p)
  = init ++ [ChatMessage.with_status (candidate participant topic p) streaming]
  ∧ open_entry participant first
      (ChatMessage.with_status (candidate participant topic p) streaming).
Proof.
  intros Hst (Hs & Hr & Ht & _) Hp Hi.
  destruct (alike_sender p Hp) as [Hsid Hrole].
  destruct Hp as (_ & _ & Hchat).
  split.
  - unfold deliver, candidate. rewrite dispatch_chat, Hst by done.
    apply updater_interim; [|by rewrite Hchat|done].
    apply same_sender_of; congruence.
  - unfold open_entry, candidate, incomingMessage, ChatMessage.with_status.
    simpl. by rewrite Hsid, Hrole, Hchat.
Qed.

Lemma interims_keep_one more st init e :
  messages st = init ++ [e] → open_entry participant first e →
  Forall (λ p, alike topic first p ∧ hasExplicitInterim (data p) = true)
    more →
  ∃ e', messages (foldl (deliver participant topic) st more) = init ++ [e']
        ∧ open_entry participant first e'.
Proof.
  intros Hst He Hmore. revert st e Hst He.
  induction Hmore as [|p more [Hp Hi] _ IH]; intros st e Hst He; simpl.
  - eauto.
  - destruct (interim_on_open_entry st init e p Hst He Hp Hi) as [Hst' He'].
    by eapply IH.
Qed.

(** X6.  A streamed message, however many updates it takes: a first
    explicitly interim event, any number of further interim events and one
    explicitly final event, all from one sender on the chat topic, leave
    exactly one entry in the place the first event took (appended, or
    merged into the last entry); that entry carries the fields of the final
    event and has status [sent]. *)
Theorem streamed_message_is_one_entry (more : list Parsed) (final : Parsed) st :
  messageTopic (data first) topic = lit "chat" →
  hasExplicitInterim (data first) = true →
  Forall (λ p, alike topic first p ∧ hasExplicitInterim (data p) = true)
    more →
  alike topic first final →
  hasExplicitInterim (data final) = false →
  hasExplicitFinal (data final) = true →
  ∃ init streamingEntry,
    messages (deliver participant topic st first) = init ++ [streamingEntry]
    ∧ messages
        (deliver participant topic
           (foldl (deliver participant topic)
              (deliver participant topic st first) more) final)
      = init ++ [ChatMessage.with_status (candidate participant topic final)
                   sent].
Proof.
  intros Hchat Hfirst Hmore Hfinal Hni Hf.
  destruct (updater_explicit_interim (data first) participant
              (parsedKind first) topic (parsedId first) (parsedTime first)
              (messages st) Hfirst) as [init Hinit].
  assert (H1 : messages (deliver participant topic st first)
               = init ++ [ChatMessage.with_status
                            (candidate participant topic first) streaming])
    by (unfold deliver; by rewrite dispatch_chat).
  assert (Hopen : open_entry participant first
                    (ChatMessage.with_status
                       (candidate participant topic first) streaming)).
  { unfold open_entry, candidate, incomingMessage, ChatMessage.with_status.
    simpl. by rewrite Hchat. }
  destruct (interims_keep_one more _ init _ H1 Hopen Hmore)
    as (e & He & (Hs & Hr & Ht & Hstreaming)).
  exists init, (ChatMessage.with_status (candidate participant topic first)
                  streaming).
  split; [done|].
  destruct (alike_sender final Hfinal) as [Hsid Hrole].
  destruct Hfinal as (_ & _ & Hfchat).
  unfold deliver at 1. rewrite dispatch_chat, He by done.
  apply updater_final_streaming; try done.
  - apply same_sender_of; congruence.
  - by rewrite Hfchat.
Qed.

End Run.

(** X7.  The "assistant is thinking" indicator: an event handled on the
    chat topic whose role is not ["user"] clears it; every other event
    (dropped payload, user role, status or any other topic) leaves it as it
    is, and no event ever sets it. *)
Theorem loading_indicator_after_event
  payload participant kind topic newId now st :
  isAssistantLoading
    (handleDataReceived payload participant kind topic newId now st)
  = match parseDataChannelMessage payload with
    | Some data =>
      if bool_decide (messageTopic data topic = lit "chat")
         && bool_decide (DataChannelMessage.role data = wire_ai)
      then false else isAssistantLoading st
    | None => isAssistantLoading st
    end.
Proof.
  unfold handleDataReceived.
  destruct (parseDataChannelMessage payload) as [data|]; [|done].
  unfold dispatch, role.
  destruct (DataChannelMessage.role data);
    repeat (case_bool_decide; try done).
Qed.

(** X8.  Over any sequence of inbound events the transcript never gets
    shorter, and every entry but the last one of the starting transcript
    stays where it is, unchanged. *)
Theorem inbound_keeps_older_entries (events : list Event) (st : AppState) :
  let before := messages st in
  let after := messages (receiveAll events st) in
  (length before ≤ length after)%nat
  ∧ take (length before - 1) before = take (length before - 1) after.
Proof.
  simpl. revert st. induction events as [|e events IH]; intros st; [done|].
  unfold receiveAll in *. simpl.
  specialize (IH (receive st e)).
  assert (Hstep : (length (messages st) ≤ length (messages (receive st e)))%nat
                  ∧ take (length (messages st) - 1) (messages st)
                    = take (length (messages st) - 1)
                        (messages (receive st e))).
  { unfold receive, handleDataReceived.
    destruct (parseDataChannelMessage (bytes e)) as [data|]; [|done].
    unfold dispatch. case_bool_decide.
    - assert (messages
                (if bool_decide (role data = assistant)
                 then setIsAssistantLoading false
                        (setMessages
                           (chatUpdater data (sender e) (packetKind e)
                              (channelTopic e) (freshId e) (time e)) st)
                 else setMessages
                        (chatUpdater data (sender e) (packetKind e)
                           (channelTopic e) (freshId e) (time e)) st)
              = chatUpdater data (sender e) (packetKind e) (channelTopic e)
                  (freshId e) (time e) (messages st))
        as -> by (by case_bool_decide).
      destruct (chatUpdater_step data (sender e) (packetKind e)
                  (channelTopic e) (freshId e) (time e) (messages st))
        as [|init lastMessage s -> _].
      + rewrite length_app. simpl. split; [lia|].
        by rewrite take_app_le by lia.
      + rewrite !length_app. simpl. split; [lia|].
        replace (length init + 1 - 1)%nat with (length init) by lia.
        by rewrite !take_app_length.
    - case_bool_decide; [|done].
      unfold addMessage. simpl. rewrite length_app. simpl. split; [lia|].
      by rewrite take_app_le by lia. }
  destruct Hstep as [Hlen Htake], IH as [IHlen IHtake].
  split; [lia|].
  rewrite Htake.
  apply (f_equal (take (length (messages st) - 1))) in IHtake.
  rewrite !take_take, !Nat.min_l in IHtake by lia. exact IHtake.
Qed.

(** X9.  [parseDataChannelMessage] gives up on a payload exactly when
    [JSON.parse] succeeds with a value other than [null] that has no string
    under [message]; [handleDataReceived] then leaves the whole state as it
    is.  Every other payload yields a message. *)
Theorem payload_without_message_is_dropped payload :
  (parseDataChannelMessage payload = None
   ↔ ∃ parsed member,
       json_parse payload = Some parsed
       ∧ prop parsed "message" = Some member
       ∧ as_string member = None)
  ∧ (∀ participant kind topic newId now st,
       parseDataChannelMessage payload = None →
       handleDataReceived payload participant kind topic newId now st = st).
Proof.
  split.
  - unfold parseDataChannelMessage, parseParsed.
    destruct (json_parse payload) as [parsed|]; [|split; [done|]].
    + destruct (prop parsed "message") as [member|] eqn:Hprop.
      * destruct (as_string member) as [message|] eqn:Hmember.
        -- split; [done|]. intros (p' & m' & Hp & Hm & Hs).
           injection Hp as <-. rewrite Hprop in Hm. injection Hm as <-.
           congruence.
        -- split; [|done]. intros _. by exists parsed, member.
      * split; [done|]. intros (p' & m' & Hp & Hm & _).
        injection Hp as <-. congruence.
    + intros (? & ? & ? & _). done.
  - intros participant kind topic newId now st Hnone.
    unfold handleDataReceived. by rewrite Hnone.
Qed.

(** X10.  The flag the server sends, [is_final], decides alone when it is a
    boolean: with [is_final:false] the event is explicitly interim whatever
    [isFinal], [final], [interim] and [partial] say; with [is_final:true] it
    is explicitly final, and not interim unless [interim] (or, when
    [interim] is no boolean, [partial]) is [true]. *)
Theorem is_final_member_decides fields text message b :
  get_field fields (lit "message") = Some (JString message) →
  get_field fields (lit "is_final") = Some (JBool b) →
  ∃ data,
    parseDataChannelMessage (wireObject fields text) = Some data
    ∧ DataChannelMessage.message data = message
    ∧ DataChannelMessage.isFinal data = Some b
    ∧ (b = false → hasExplicitInterim data = true)
    ∧ (b = true → hasExplicitFinal data = true)
    ∧ (b = true →
       (match get_field fields (lit "interim") with
        | Some (JBool i) => i = false
        | _ => get_field fields (lit "partial") ≠ Some (JBool true)
        end) →
       hasExplicitInterim data = false).
Proof.
  intros Hmessage Hfinal.
  unfold parseDataChannelMessage, wireObject, parseParsed, prop. simpl.
  rewrite Hmessage, Hfinal. simpl.
  eexists. split; [reflexivity|]. simpl.
  split_and!; try done.
  - intros ->. unfold hasExplicitInterim. simpl. by rewrite orb_true_r.
  - intros ->. unfold hasExplicitFinal. simpl. by rewrite orb_true_r.
  - intros -> Hinterim. unfold hasExplicitInterim. simpl.
    rewrite orb_false_r. apply bool_decide_eq_false_2.
    destruct (get_field fields (lit "interim")) as [[| i | | | |]|];
      simpl; try (subst i; done);
      destruct (get_field fields (lit "partial")) as [[| [] | | | |]|];
      simpl; done.
Qed.

(** An event that is neither explicitly interim nor from a user always
    ends up as the last entry, with status [sent]. *)
Lemma settled_event_is_last data participant kind topic newId now prev :
  hasExplicitInterim data = false →
  DataChannelMessage.role data = wire_ai →
  last (chatUpdater data participant kind topic newId now prev)
  = Some (ChatMessage.with_status
            (incomingMessage data participant kind topic newId now) sent).
Proof.
  intros Hi Hrole.
  assert (Hinc : ChatMessage.with_status
                   (incomingMessage data participant kind topic newId now) sent
                 = incomingMessage data participant kind topic newId now)
    by (unfold incomingMessage, ChatMessage.with_status; simpl; by rewrite Hi).
  destruct (last prev) as [lastMessage|] eqn:Hlast.
  - apply last_Some in Hlast as [init ->].
    rewrite chatUpdater_snoc. cbv zeta. rewrite Hi.
    assert (Hr : role data ≠ user) by (unfold role; by rewrite Hrole).
    rewrite (bool_decide_eq_false_2 _ Hr).
    rewrite andb_false_r. simpl.
    repeat case_match; rewrite ?Hinc; by rewrite last_snoc.
  - apply last_None in Hlast as ->. unfold chatUpdater. simpl. by rewrite Hinc.
Qed.

(** X11.  A payload that is not JSON (or is the JSON [null]) is not
    dropped: on the chat topic its text becomes the last entry of the
    transcript, as a finalized assistant line. *)
Theorem raw_text_becomes_assistant_line
  payload participant kind topic newId now st :
  json_parse payload = None ∨ json_parse payload = Some JNull →
  default (lit "chat") topic = lit "chat" →
  last (messages
          (handleDataReceived payload participant kind topic newId now st))
  = Some (ChatMessage.mk newId assistant (decoded payload) now
            (Some (match participant with
                   | Some p => identity p
                   | None => lit "ai"
                   end))
            (Some (lit "chat")) (Some sent) (Some (delivery kind))).
Proof.
  intros Hjson Htopic.
  rewrite (handleDataReceived_parsed _ (rawTextMessage (decoded payload))).
  2: { unfold parseDataChannelMessage. by destruct Hjson as [-> | ->]. }
  rewrite dispatch_chat by done.
  rewrite settled_event_is_last by done.
  unfold incomingMessage, ChatMessage.with_status, messageTopic. simpl.
  by rewrite Htopic.
Qed.

(** Witnesses, on the traffic of [TrafficRuns]. *)

Lemma other_sender_is_appended_witness :
  chatUpdater (wire "Hello" wire_ai None) (Some agent) None None (lit "n1") 9
    ([] ++ [bobLine])
  = [] ++ [bobLine;
           incomingMessage (wire "Hello" wire_ai None) (Some agent) None None
             (lit "n1") 9].
Proof.
  apply (other_sender_is_appended (wire "Hello" wire_ai None) (Some agent)
           None None (lit "n1") 9 [] bobLine (lit "bob"));
    [reflexivity|reflexivity|reflexivity|by vm_compute].
Defined.

Lemma other_topic_is_appended_witness :
  messages (dispatch (wire "Hello" wire_ai None) (Some agent) None None
              (lit "n1") 9
              (addMessage system (lit "Connected to chat room") None
                 (lit "s1") 8 emptyState))
  = [ChatMessage.mk (lit "s1") system (lit "Connected to chat room") 8 None
       None None None;
     incomingMessage (wire "Hello" wire_ai None) (Some agent) None None
       (lit "n1") 9].
Proof.
  destruct (other_topic_is_appended (wire "Hello" wire_ai None) (Some agent)
              None None (lit "n1") 9) as [_ Hnotice].
  apply (Hnotice system (lit "Connected to chat room") None (lit "s1") 8
           emptyState).
  reflexivity.
Defined.

Lemma explicit_interim_overwrites_last_witness :
  messages (dispatch (wire "It is" wire_ai (Some false)) (Some agent) None None
              (lit "n1") 9 (withMessages ([bobLine] ++ [userLine])))
  = [bobLine] ++ [ChatMessage.mk (lit "n1") assistant (lit "It is") 9
                    (Some (lit "ai-agent")) (Some (lit "chat"))
                    (Some streaming) (Some reliable)].
Proof.
  apply (explicit_interim_overwrites_last (wire "It is" wire_ai (Some false))
           (Some agent) None None (lit "n1") 9
           (withMessages ([bobLine] ++ [userLine])) [bobLine] userLine);
    reflexivity.
Defined.

Lemma unflagged_user_message_witness :
  chatUpdater (wire "What time is it" wire_user None) (Some agent) None None
    (lit "n1") 9 ([bobLine] ++ [userLine])
  = [bobLine]
    ++ [ChatMessage.mk (lit "n1") user (lit "What time is it") 9
          (Some (lit "ai-agent")) (Some (lit "chat")) (Some streaming)
          (Some reliable)].
Proof.
  apply (unflagged_user_message (wire "What time is it" wire_user None)
           (Some agent) None None (lit "n1") 9 [bobLine] userLine);
    reflexivity.
Defined.

Lemma unflagged_assistant_message_witness :
  chatUpdater (wire "It is noon." wire_ai None) (Some agent) None None
    (lit "n1") 9 ([bobLine] ++ [openLine])
  = [bobLine]
    ++ [ChatMessage.with_status
          (incomingMessage (wire "It is noon." wire_ai None)
             (Some agent) None None (lit "n1") 9) sent].
Proof.
  apply (unflagged_assistant_message (wire "It is noon." wire_ai None)
           (Some agent) None None (lit "n1") 9 [bobLine] openLine);
    reflexivity.
Defined.

Lemma streamed_message_is_one_entry_witness :
  ∃ init streamingEntry,
    messages (deliver (Some agent) None (withMessages [bobLine])
                (part "It is" 1))
    = init ++ [streamingEntry]
    ∧ messages
        (deliver (Some agent) None
           (foldl (deliver (Some agent) None)
              (deliver (Some agent) None (withMessages [bobLine])
                 (part "It is" 1))
              [part "It is noon." 2; part "It is noon. Lunch?" 3])
           (whole "It is noon. Lunch?" 4))
      = init ++ [ChatMessage.with_status
                   (candidate (Some agent) None (whole "It is noon. Lunch?" 4))
                   sent].
Proof.
  apply (streamed_message_is_one_entry (Some agent) None (part "It is" 1)
           [part "It is noon." 2; part "It is noon. Lunch?" 3]
           (whole "It is noon. Lunch?" 4) (withMessages [bobLine]));
    try reflexivity.
  - repeat constructor.
  - repeat constructor.
Defined.

Lemma payload_without_message_is_dropped_witness :
  handleDataReceived
    (wireObject [(lit "text", JString (lit "hi"))] (lit "{}"))
    (Some agent) None None (lit "n1") 9 (withMessages [bobLine])
  = withMessages [bobLine].
Proof.
  destruct (payload_without_message_is_dropped
              (wireObject [(lit "text", JString (lit "hi"))] (lit "{}")))
    as [[_ Hdrop] Hsame].
  apply Hsame, Hdrop.
  exists (JObject [(lit "text", JString (lit "hi"))]), None.
  repeat split; reflexivity.
Defined.

Lemma is_final_member_decides_witness :
  ∃ data,
    parseDataChannelMessage
      (wireObject [(lit "message", JString (lit "It is"));
                   (lit "isFinal", JBool true);
                   (lit "is_final", JBool false)] [])
    = Some data
    ∧ hasExplicitInterim data = true.
Proof.
  destruct (is_final_member_decides
              [(lit "message", JString (lit "It is"));
               (lit "isFinal", JBool true);
               (lit "is_final", JBool false)] [] (lit "It is") false
              eq_refl eq_refl)
    as (data & Hparse & _ & _ & Hinterim & _).
  exists data. split; [exact Hparse|exact (Hinterim eq_refl)].
Defined.

Lemma raw_text_becomes_assistant_line_witness :
  last (messages
          (handleDataReceived
             {| decoded := lit "plain words"; json_parse := None |}
             (Some agent) None None (lit "n1") 9 (withMessages [openLine])))
  = Some (ChatMessage.mk (lit "n1") assistant (lit "plain words") 9
            (Some (lit "ai-agent")) (Some (lit "chat")) (Some sent)
            (Some reliable)).
Proof.
  apply (raw_text_becomes_assistant_line
           {| decoded := lit "plain words"; json_parse := None |}
           (Some agent) None None (lit "n1") 9 (withMessages [openLine]));
    [by left|reflexivity].
Defined.

End Inbound.

(* ===================================================================== *)
(** ** Connection actions, sending and retrying *)
(* ===================================================================== *)

Module Actions.
Import App AppNotions Connection.

(** X12.  A [connect] that fails, because [client.connect()] rejects or
    because the playback check rejects with an unexpected error, ends with
    status [error], the microphone off, no client, the guard released and
    the error text of the thrown value (["Connection failed"] when it is no
    [Error]); the transcript is as before.  A message sent afterwards is
    not published. *)
Theorem connect_failure withAudio run s err :
  actionInFlight s = false →
  connectThrows run = Some err
  ∨ (connectThrows run = None ∧ tryPlayAudio (audio run) = inr err) →
  let s' := connect withAudio run s in
  connectionStatus s' = error_status
  ∧ micStatus s' = mic_off
  ∧ clientRef s' = None
  ∧ actionInFlight s' = false
  ∧ messages (chat s') = messages (chat s)
  ∧ error (chat s') = Some (messageOr (lit "Connection failed") err)
  ∧ ∀ text participantIdentity newId now,
      (sendMessage text None participantIdentity newId now s').2 = None.
Proof.
  intros Hfree Hfails. unfold connect, connectBegin. rewrite Hfree.
  unfold connectEnd.
  destruct Hfails as [-> | [-> ->]]; destruct withAudio; done.
Qed.

(** X13.  A [connect] that succeeds ends with status [connected], the
    client kept, the guard released and exactly one system notice appended
    to the transcript.  Playback is flagged as blocked exactly when the
    check says so.  With the microphone asked for, a refusal does not undo
    the connection: the microphone status is [error] and the error text is
    set, while a grant gives status [on] and no error. *)
Theorem connect_success withAudio run s playbackOk :
  actionInFlight s = false →
  connectThrows run = None →
  tryPlayAudio (audio run) = inl playbackOk →
  let s' := connect withAudio run s in
  connectionStatus s' = connected
  ∧ clientRef s' = Some (client run)
  ∧ actionInFlight s' = false
  ∧ playbackBlocked s' = negb playbackOk
  ∧ (∃ notice,
       messages (chat s') = messages (chat s) ++ [notice]
       ∧ ChatMessage.role notice = system
       ∧ ChatMessage.id notice = noticeId run)
  ∧ micStatus s'
    = (if withAudio
       then match microphoneThrows run with
            | None => mic_on
            | Some _ => mic_error
            end
       else micStatus s)
  ∧ error (chat s')
    = (if withAudio
       then match microphoneThrows run with
            | None => None
            | Some micError =>
              Some (messageOr (lit "Failed to enable microphone") micError)
            end
       else None).
Proof.
  intros Hfree Hconnect Hplay. unfold connect, connectBegin. rewrite Hfree.
  unfold connectEnd. rewrite Hconnect, Hplay.
  destruct withAudio, playbackOk, (microphoneThrows run);
    simpl; split_and!; try done; eauto.
Qed.

(** X14.  One action at a time: while the guard is set, [connect] and
    [handleDisconnect] change nothing; each of them sets the guard before
    its first [await], so that a second action started in between is
    refused, and releases it at its end. *)
Theorem one_action_at_a_time withAudio run disconnectThrows newId now s :
  (actionInFlight s = true →
   connect withAudio run s = s
   ∧ handleDisconnect disconnectThrows newId now s = s)
  ∧ (actionInFlight s = false →
     (∃ s1, connectBegin withAudio run s = Some s1
            ∧ actionInFlight s1 = true
            ∧ actionInFlight (connectEnd withAudio run s1) = false)
     ∧ (∃ s1, disconnectBegin s = Some s1
              ∧ actionInFlight s1 = true
              ∧ actionInFlight (disconnectEnd disconnectThrows newId now s1)
                = false)).
Proof.
  split; intros Hflag.
  - unfold connect, handleDisconnect, connectBegin, disconnectBegin.
    by rewrite Hflag.
  - unfold connectBegin, disconnectBegin. rewrite Hflag.
    split; eexists; (split; [reflexivity|]); split; try done.
    by destruct withAudio.
Qed.

(** X15.  [handleDisconnect] ends idle, with the microphone off, playback
    not blocked, the guard released and the notice ["Disconnected from
    room"] appended, whatever [disconnect()] does; but the client is let go
    only when [disconnect()] resolves: when it rejects the client stays in
    [clientRef]. *)
Theorem disconnect_outcome disconnectThrows newId now s :
  actionInFlight s = false →
  let s' := handleDisconnect disconnectThrows newId now s in
  connectionStatus s' = idle
  ∧ micStatus s' = mic_off
  ∧ playbackBlocked s' = false
  ∧ actionInFlight s' = false
  ∧ messages (chat s')
    = messages (chat s)
      ++ [ChatMessage.mk newId system (lit "Disconnected from room") now None
            None None None]
  ∧ clientRef s' = (if disconnectThrows then clientRef s else None).
Proof.
  intros Hfree. unfold handleDisconnect, disconnectBegin. rewrite Hfree.
  unfold disconnectEnd. simpl.
  destruct (clientRef s) eqn:Hc, disconnectThrows; simpl; by rewrite ?Hc.
Qed.


(** X17.  What the chat panel sends: the published message is the trimmed
    content of the input box, which is then not empty, and the box is
    cleared; a blank input, or a status other than [connected], changes
    nothing: no entry, no request, the input kept. *)
Theorem panel_sends_trimmed_text
  inputValue participantIdentity newId now s :
  let '(s', request, input') :=
    submit inputValue participantIdentity newId now s in
  (∀ r, request = Some r →
     DataChannelMessage.message (payload r) = trim inputValue
     ∧ truthy (trim inputValue) = true
     ∧ connectionStatus s = connected
     ∧ input' = [])
  ∧ (truthy (trim inputValue) = false ∨ connectionStatus s ≠ connected →
     s' = s ∧ request = None ∧ input' = inputValue).
Proof.
  unfold submit, handleSend.
  destruct (truthy (trim inputValue)) eqn:Htext; simpl.
  - case_bool_decide as Hstatus; simpl.
    + unfold sendMessage, handleSendMessage, ifRetrying. simpl.
      destruct (roomOf s) as [room|]; simpl.
      * destruct (publishThrows room); simpl.
        -- split; [done|]. intros [?|?]; done.
        -- split; [|intros [?|?]; done]. by intros r [= <-].
      * split; [done|]. intros [?|?]; done.
    + split; [done|]. done.
  - split; [done|]. done.
Qed.

Lemma update_unused messageId status l :
  unused messageId l →
  map (λ msg, if bool_decide (ChatMessage.id msg = messageId)
              then ChatMessage.with_status msg status else msg) l = l.
Proof.
  induction 1 as [|m l Hm _ IH]; simpl; [done|].
  by rewrite IH, bool_decide_eq_false_2.
Qed.

Lemma update_located messageId status before m after :
  unused messageId before → unused messageId after →
  ChatMessage.id m = messageId →
  map (λ msg, if bool_decide (ChatMessage.id msg = messageId)
              then ChatMessage.with_status msg status else msg)
    (before ++ [m] ++ after)
  = before ++ [ChatMessage.with_status m status] ++ after.
Proof.
  intros Hb Ha Hm. rewrite !map_app.
  rewrite (update_unused _ _ before), (update_unused _ _ after) by done.
  simpl. by rewrite bool_decide_eq_true_2.
Qed.

Lemma find_located messageId before m after :
  unused messageId before → ChatMessage.id m = messageId →
  find (λ m, bool_decide (ChatMessage.id m = messageId))
    (before ++ [m] ++ after) = Some m.
Proof.
  intros Hb Hm. induction Hb as [|x l Hx _ IH]; simpl.
  - by rewrite bool_decide_eq_true_2.
  - by rewrite bool_decide_eq_false_2.
Qed.

(** X18.  Sending a new message in a room, when the generated id is not in
    use: one entry with status [sending] is appended and the request
    carries the text, topic ["chat"], role ["user"] and the time, sent
    reliably; the acknowledgment turns that entry to [sent] and sets the
    loading indicator, a rejection turns it to [failed] and sets the retry
    error; all other entries stay as they are.  When encoding or
    [publishData] throws at once, nothing is requested and the entry is
    [failed] right away. *)
Theorem send_then_settle text participantIdentity newId now st room :
  unused newId (messages st) →
  let '(st1, request) :=
    handleSendMessage text None (Some room) participantIdentity newId now st in
  let entry := draft newId text participantIdentity now in
  if publishThrows room then
    request = None
    ∧ messages st1 = messages st ++ [entry failed]
    ∧ error st1 = Some sendFailedError
  else
    request
    = Some {| payload := DataChannelMessage.mk text (lit "chat") wire_user
                           (Some now) None None None;
              optReliable := true; optTopic := lit "chat" |}
    ∧ messages st1 = messages st ++ [entry sending]
    ∧ error st1 = error st
    ∧ messages (publishSettled newId true st1) = messages st ++ [entry sent]
    ∧ isAssistantLoading (publishSettled newId true st1) = true
    ∧ messages (publishSettled newId false st1) = messages st ++ [entry failed]
    ∧ error (publishSettled newId false st1) = Some sendFailedError.
Proof.
  intros Hfresh. unfold handleSendMessage, ifRetrying. simpl.
  destruct (publishThrows room); simpl.
  - split_and!; try done.
    rewrite map_app, update_unused by done. simpl.
    by rewrite bool_decide_eq_true_2.
  - split_and!; try done; rewrite map_app, update_unused by done; simpl;
      by rewrite bool_decide_eq_true_2.
Qed.

(** X19.  Retrying is refused unless there is a failed entry to retry:
    when no entry with the id has status [failed], and so also when there
    is no entry with the id at all, [handleRetryMessage] changes nothing
    and publishes nothing. *)
Theorem retry_refused messageId room participantIdentity newId now st :
  (∀ m, m ∈ messages st → ChatMessage.id m = messageId →
        ChatMessage.status m ≠ Some failed) →
  handleRetryMessage messageId room participantIdentity newId now st
  = (st, None).
Proof.
  intros Hnone. unfold handleRetryMessage.
  destruct (find _ (messages st)) as [m|] eqn:Hfind; [|done].
  apply find_some in Hfind as [Hin Hid].
  apply bool_decide_eq_true in Hid.
  rewrite bool_decide_eq_false_2; [done|].
  apply Hnone; [|done]. by apply list_elem_of_In.
Qed.

(** X20.  Retrying a failed entry in a room: no entry is added; the
    status of the entry goes from [failed] to [sending] and the request
    carries its text again; the acknowledgment sets the status to [sent], a
    rejection back to [failed].  The other fields of the entry and the
    entries around it stay as they are. *)
Theorem retry_then_settle
  messageId room participantIdentity newId now st before m after :
  messages st = before ++ [m] ++ after →
  unused messageId before → unused messageId after →
  ChatMessage.id m = messageId →
  truthy messageId = true →
  ChatMessage.status m = Some failed →
  publishThrows room = false →
  let entry status :=
    ChatMessage.mk messageId (ChatMessage.role m) (ChatMessage.text m)
      (ChatMessage.timestamp m) (ChatMessage.senderId m)
      (ChatMessage.topic m) (Some status) (ChatMessage.delivery m) in
  let '(st1, request) :=
    handleRetryMessage messageId (Some room) participantIdentity newId now st in
  request
  = Some {| payload := DataChannelMessage.mk (ChatMessage.text m) (lit "chat")
                         wire_user (Some now) None None None;
            optReliable := true; optTopic := lit "chat" |}
  ∧ messages st1 = before ++ [entry sending] ++ after
  ∧ messages (publishSettled messageId true st1)
    = before ++ [entry sent] ++ after
  ∧ messages (publishSettled messageId false st1)
    = before ++ [entry failed] ++ after.
Proof.
  intros Hst Hb Ha Hm Htruthy Hfailed Hroom entry.
  assert (Hentry : ∀ status, ChatMessage.with_status m status = entry status)
    by (intros status; unfold ChatMessage.with_status, entry; by rewrite Hm).
  assert (Hagain : ∀ s1 s2,
    ChatMessage.with_status (entry s1) s2 = entry s2) by done.
  unfold handleRetryMessage. rewrite Hst, find_located by done.
  rewrite Hfailed, bool_decide_eq_true_2 by done.
  unfold handleSendMessage, ifRetrying. simpl. rewrite Htruthy, Hroom.
  unfold updateMessageStatus. simpl. rewrite Hst.
  rewrite update_located, Hentry by done.
  split_and!; try done.
  - rewrite (update_located messageId sent before (entry sending) after)
      by done. by rewrite Hagain.
  - rewrite (update_located messageId failed before (entry sending) after)
      by done. by rewrite Hagain.
Qed.

(** Witnesses for the actions. *)

Lemma connect_failure_witness :
  connectionStatus (connect true badRun freshSession) = error_status
  ∧ error (chat (connect true badRun freshSession))
    = Some (lit "Request failed: 500").
Proof.
  destruct (connect_failure true badRun freshSession
              (TokenFetchError (lit "Request failed: 500") (Some 500))
              eq_refl (or_introl eq_refl))
    as (Hstatus & _ & _ & _ & _ & Herror & _).
  split; [exact Hstatus|exact Herror].
Defined.

Lemma connect_success_witness :
  connectionStatus (connect true goodRun freshSession) = connected
  ∧ micStatus (connect true goodRun freshSession) = mic_on.
Proof.
  destruct (connect_success true goodRun freshSession false
              eq_refl eq_refl eq_refl)
    as (Hstatus & _ & _ & _ & _ & Hmic & _).
  split; [exact Hstatus|exact Hmic].
Defined.

Lemma one_action_at_a_time_witness :
  connect false goodRun (setActionInFlight true freshSession)
  = setActionInFlight true freshSession.
Proof.
  destruct (one_action_at_a_time false goodRun false (lit "s2") 2
              (setActionInFlight true freshSession)) as [Hbusy _].
  exact (proj1 (Hbusy eq_refl)).
Defined.

Lemma disconnect_outcome_witness :
  clientRef (handleDisconnect true (lit "s2") 2 (connect false goodRun freshSession))
  = Some liveClient.
Proof.
  destruct (disconnect_outcome true (lit "s2") 2
              (connect false goodRun freshSession) eq_refl)
    as (_ & _ & _ & _ & _ & Hclient).
  exact Hclient.
Defined.


Lemma panel_sends_trimmed_text_witness :
  (submit (lit "   ") (lit "alice") (lit "m1") 3
     (connect false goodRun freshSession))
  = (connect false goodRun freshSession, None, lit "   ").
Proof.
  pose proof (panel_sends_trimmed_text (lit "   ") (lit "alice") (lit "m1") 3
                (connect false goodRun freshSession)) as H.
  destruct (submit (lit "   ") (lit "alice") (lit "m1") 3
              (connect false goodRun freshSession)) as [[s' request] input'].
  destruct H as [_ Hblank].
  destruct (Hblank (or_introl eq_refl)) as (-> & -> & ->).
  reflexivity.
Defined.

Lemma send_then_settle_witness :
  messages
    (publishSettled (lit "m9") true
       (handleSendMessage (lit "hi") None (Some {| publishThrows := false |})
          (lit "alice") (lit "m9") 3 offlineState).1)
  = messages offlineState ++ [draft (lit "m9") (lit "hi") (lit "alice") 3 sent].
Proof.
  pose proof (send_then_settle (lit "hi") (lit "alice") (lit "m9") 3
                offlineState {| publishThrows := false |}) as H.
  destruct (handleSendMessage (lit "hi") None
              (Some {| publishThrows := false |}) (lit "alice") (lit "m9") 3
              offlineState) as [st1 request].
  simpl in H.
  destruct H as (_ & _ & _ & Hsent & _).
  - repeat constructor; by vm_compute.
  - exact Hsent.
Defined.

Lemma retry_refused_witness :
  handleRetryMessage (lit "m0") None (lit "alice") (lit "m9") 3 offlineState
  = (offlineState, None).
Proof.
  apply retry_refused.
  intros m Hin Hid.
  apply list_elem_of_In in Hin. simpl in Hin.
  destruct Hin as [<- | [<- | []]]; [discriminate|].
  vm_compute in Hid. discriminate.
Defined.

Lemma retry_then_settle_witness :
  messages
    (publishSettled (lit "m1") true
       (handleRetryMessage (lit "m1") (Some {| publishThrows := false |})
          (lit "alice") (lit "m9") 3 offlineState).1)
  = [otherEntry]
    ++ [ChatMessage.mk (lit "m1") user (lit "hi") 1 (Some (lit "user"))
          (Some (lit "chat")) (Some sent) None]
    ++ [].
Proof.
  pose proof (retry_then_settle (lit "m1") {| publishThrows := false |}
                (lit "alice") (lit "m9") 3 offlineState [otherEntry]
                failedDraft []) as H.
  destruct (handleRetryMessage (lit "m1") (Some {| publishThrows := false |})
              (lit "alice") (lit "m9") 3 offlineState) as [st1 request].
  destruct H as (_ & _ & Hsent & _); try reflexivity.
  - repeat constructor; by vm_compute.
  - constructor.
  - exact Hsent.
Defined.

End Actions.

(* ===================================================================== *)
(** ** Properties of the sentences that are cut *)
(* ===================================================================== *)

Module Sentences.
Import AiService ServiceNotions ServiceRuns SegmentationSpec.
Import JsFacts Segmentation Generation.

#[local] Opaque match_here.

Lemma search_none_shift s i j : search s i = None → search s j = None.
Proof.
  revert i j. induction s as [|c s IH]; intros i j; simpl.
  - done.
  - destruct (match_here (c :: s)); [done|]. apply IH.
Qed.

(** After the loop no sentence end is left in the rest of the buffer. *)
Lemma remaining_no_match buffer :
  search (remaining (extractCompleteSentences buffer)) 0 = None
  ∧ remaining (extractCompleteSentences buffer) `suffix_of` buffer.
Proof.
  unfold extractCompleteSentences.
  pose proof (execLoop_ends (S (length buffer)) buffer 0 []) as Hends.
  destruct (execLoop_scan (S (length buffer)) buffer 0 [] [])
    as (out & lastIndex' & segment' & Hloop & Hle & _);
    [constructor|lia|lia|].
  rewrite Hloop in Hends |- *. simpl in *.
  rewrite slice_from by done.
  split; [|apply suffix_drop].
  specialize (Hends ltac:(lia) ltac:(lia)).
  unfold exec in Hends.
  destruct (Nat.ltb_spec (length buffer) lastIndex'); [lia|].
  by eapply search_none_shift.
Qed.

Lemma extract_nothing buffer :
  search buffer 0 = None →
  extractCompleteSentences buffer = {| extracted := []; remaining := buffer |}.
Proof.
  intros Hnone. unfold extractCompleteSentences. simpl.
  unfold exec. simpl. rewrite drop_0, Hnone. simpl.
  f_equal. apply (slice_from buffer 0). lia.
Qed.

Lemma scan_terminated segment rest :
  Forall (λ s, ends_with_terminator s ∧ trim s = s) (scan segment rest).1.
Proof.
  revert segment. induction rest as [|c rest IH]; intros segment; simpl.
  - constructor.
  - destruct (is_terminator c) eqn:Hc; simpl; [|apply IH].
    destruct (followed_by_space_or_end rest); [|apply IH].
    specialize (IH []). destruct (scan [] rest) as [sentences pending].
    simpl in *. constructor; [|done].
    split; [|apply trim_idemp].
    exists c. split; [|done].
    rewrite trim_snoc by by apply terminator_not_space.
    apply last_snoc.
Qed.

(** The specification's scan of a whole buffer and the loop cut the same
    sentences and leave the same rest, white space apart. *)
Lemma extract_scan_rest buffer :
  ∃ segment',
    all_space segment'
    ∧ scan [] buffer
      = (extracted (extractCompleteSentences buffer),
         segment' ++ remaining (extractCompleteSentences buffer)).
Proof.
  unfold extractCompleteSentences.
  destruct (execLoop_scan (S (length buffer)) buffer 0 [] [])
    as (out & lastIndex' & segment' & Hloop & Hle & Hseg' & Hscan & _);
    [constructor|lia|lia|].
  rewrite Hloop. simpl. rewrite slice_from by done.
  rewrite drop_0 in Hscan. by exists segment'.
Qed.

Lemma extracted_terminated buffer :
  Forall (λ s, ends_with_terminator s ∧ trim s = s)
    (extracted (extractCompleteSentences buffer)).
Proof.
  destruct (extract_scan_rest buffer) as (segment' & _ & Hscan).
  pose proof (scan_terminated [] buffer) as H. by rewrite Hscan in H.
Qed.

Lemma trimStart_split s : ∃ w, all_space w ∧ s = w ++ trimStart s.
Proof.
  induction s as [|c s (w & Hw & IH)]; simpl.
  - exists []. split; [constructor|done].
  - destruct (is_white_space c) eqn:Hc.
    + exists (c :: w). split; [by constructor|]. simpl. by rewrite <- IH.
    + exists []. split; [constructor|done].
Qed.

Lemma trimEnd_split s : ∃ w, all_space w ∧ s = trimEnd s ++ w.
Proof.
  destruct (trimStart_split (rev s)) as (w & Hw & Hs).
  exists (rev w). split; [by apply all_space_rev|].
  unfold trimEnd. by rewrite <- rev_app_distr, <- Hs, rev_involutive.
Qed.

Lemma trim_split s :
  ∃ w1 w2, all_space w1 ∧ all_space w2 ∧ s = w1 ++ trim s ++ w2.
Proof.
  destruct (trimStart_split s) as (w1 & Hw1 & Hs).
  destruct (trimEnd_split (trimStart s)) as (w2 & Hw2 & Ht).
  exists w1, w2. split_and!; [done..|]. unfold trim. by rewrite <- Ht.
Qed.

Lemma all_space_followed w : all_space w → followed_by_space_or_end w = true.
Proof. by destruct 1. Qed.

Lemma search_finds pre t w index :
  is_terminator t = true → all_space w →
  search (pre ++ t :: w) index ≠ None.
Proof.
  intros Ht Hw. revert index. induction pre as [|c pre IH]; intros index.
  - simpl. rewrite match_here_cons, Ht, all_space_followed by done. done.
  - simpl. destruct (match_here (c :: pre ++ t :: w)); [done|]. apply IH.
Qed.

(** Text without a sentence end does not end in a terminator, white space
    apart. *)
Lemma no_match_unterminated s :
  search s 0 = None → ¬ ends_with_terminator (trim s).
Proof.
  intros Hnone (t & Hlast & Ht).
  destruct (trim_split s) as (w1 & w2 & _ & Hw2 & Hs).
  apply last_Some in Hlast as [pre Hpre].
  rewrite Hpre in Hs.
  apply (search_finds (w1 ++ pre) t w2 0 Ht Hw2).
  rewrite <- Hnone, Hs. f_equal. by rewrite <- !app_assoc.
Qed.

Lemma visible_app s t : visible (s ++ t) = visible s ++ visible t.
Proof. apply filter_app. Qed.

Lemma visible_all_space w : all_space w → visible w = [].
Proof.
  induction 1 as [|c w Hc _ IH]; [done|].
  unfold visible in *. rewrite filter_cons_False; [done|]. by rewrite Hc.
Qed.

Lemma visible_trim s : visible (trim s) = visible s.
Proof.
  destruct (trim_split s) as (w1 & w2 & Hw1 & Hw2 & Hs).
  rewrite Hs at 2. rewrite !visible_app.
  rewrite (visible_all_space w1), (visible_all_space w2) by done.
  by rewrite app_nil_r.
Qed.

Lemma scan_visible segment rest :
  visible (concat (scan segment rest).1 ++ (scan segment rest).2)
  = visible (segment ++ rest).
Proof.
  revert segment. induction rest as [|c rest IH]; intros segment; simpl.
  - by rewrite app_nil_r.
  - destruct (is_terminator c && followed_by_space_or_end rest).
    + specialize (IH []). destruct (scan [] rest) as [sentences pending].
      simpl in *. rewrite <- app_assoc, visible_app, IH, visible_trim.
      by rewrite <- visible_app, <- app_assoc.
    + by rewrite IH, <- app_assoc.
Qed.

Lemma stream_visible chunks pending :
  visible (concat (stream chunks pending)) = visible (pending ++ concat chunks).
Proof.
  revert pending. induction chunks as [|chunk chunks IH]; intros pending; simpl.
  - rewrite app_nil_r. destruct (truthy (trim pending)) eqn:Ht; simpl.
    + by rewrite app_nil_r, visible_trim.
    + rewrite <- (visible_trim pending). by destruct (trim pending).
  - pose proof (scan_visible [] (pending ++ chunk)) as Hscan.
    destruct (scan [] (pending ++ chunk)) as [sentences pending'].
    simpl in Hscan.
    rewrite concat_app, visible_app, IH, <- visible_app.
    rewrite app_assoc, visible_app, Hscan, <- visible_app.
    by rewrite <- app_assoc.
Qed.

Lemma extract_none_rest buffer :
  extracted (extractCompleteSentences buffer) = [] →
  remaining (extractCompleteSentences buffer) = buffer.
Proof.
  unfold extractCompleteSentences.
  destruct (execLoop_scan (S (length buffer)) buffer 0 [] [])
    as (out & lastIndex' & segment' & Hloop & Hle & _ & _ & Hnil);
    [constructor|lia|lia|].
  rewrite Hloop. simpl. intros ->. rewrite Hnil by done.
  apply (slice_from buffer 0). lia.
Qed.

(** The [for await] loop hands complete sentences to the callback and
    leaves a buffer without a sentence end. *)
Lemma forAwait_sentences chunks fullResponse sentenceBuffer w :
  search sentenceBuffer 0 = None →
  ∃ sentenceBuffer' out,
    forAwait chunks fullResponse sentenceBuffer w
    = (Returned (fullResponse ++ concat chunks, sentenceBuffer'), say out w)
    ∧ Forall (λ s, ends_with_terminator s ∧ trim s = s) out
    ∧ search sentenceBuffer' 0 = None.
Proof.
  revert fullResponse sentenceBuffer w.
  induction chunks as [|chunk chunks IH];
    intros fullResponse sentenceBuffer w Hnone; simpl.
  - exists sentenceBuffer, []. rewrite say_nil, app_nil_r.
    split_and!; [done|constructor|done].
  - pose proof (extracted_terminated (sentenceBuffer ++ chunk)) as Hcut.
    destruct (remaining_no_match (sentenceBuffer ++ chunk)) as [Hrest _].
    pose proof (extract_none_rest (sentenceBuffer ++ chunk)) as Hsame.
    set (cut := extractCompleteSentences (sentenceBuffer ++ chunk)) in *.
    destruct (0 <? length (extracted cut))%nat eqn:Hn.
    + erewrite bind_returned by apply emitAll_say.
      destruct (IH (fullResponse ++ chunk) (remaining cut)
                  (say (extracted cut) w) Hrest)
        as (sentenceBuffer' & out & Hloop & Hout & Hnone').
      exists sentenceBuffer', (extracted cut ++ out).
      rewrite <- say_say, (app_assoc fullResponse).
      split_and!; [done| |done]. by apply Forall_app.
    + assert (Hnil : extracted cut = [])
        by (destruct (extracted cut); [done|discriminate Hn]).
      rewrite Hsame in Hrest by done.
      destruct (IH (fullResponse ++ chunk) (sentenceBuffer ++ chunk) w Hrest)
        as (sentenceBuffer' & out & Hloop & Hout & Hnone').
      exists sentenceBuffer', out. by rewrite (app_assoc fullResponse).
Qed.

(** X25.  What [extractCompleteSentences] cuts: every sentence ends with
    [.], [!] or [?] and has no white space around it; the rest is an end
    piece of the buffer in which no further sentence is found; and the
    sentences and the rest together hold the code units of the buffer that
    are not white space, in their order. *)
Theorem complete_sentences_are_cut buffer :
  let cut := extractCompleteSentences buffer in
  Forall (λ s, ends_with_terminator s ∧ trim s = s) (extracted cut)
  ∧ remaining cut `suffix_of` buffer
  ∧ extractCompleteSentences (remaining cut)
    = {| extracted := []; remaining := remaining cut |}
  ∧ visible (concat (extracted cut) ++ remaining cut) = visible buffer.
Proof.
  intros cut. subst cut.
  destruct (remaining_no_match buffer) as [Hnone Hsuffix].
  split_and!.
  - apply extracted_terminated.
  - exact Hsuffix.
  - by apply extract_nothing.
  - destruct (extract_scan_rest buffer) as (segment' & Hseg' & Hscan).
    pose proof (scan_visible [] buffer) as Hvisible.
    rewrite Hscan in Hvisible. simpl in Hvisible.
    rewrite <- Hvisible, !visible_app, (visible_all_space segment') by done.
    done.
Qed.

End Sentences.

(* ===================================================================== *)
(** ** Properties of the retry methods and of the history *)
(* ===================================================================== *)

Module Service.
Import AiService ServiceNotions ServiceRuns HistoryOps SegmentationSpec.
Import JsFacts Segmentation History Generation Sentences.

(** What one attempt of [generateResponse] does for a transcript that is
    not blank: it calls the model once, on the prompt of [buildMessages];
    a failure is thrown wrapped, a text is saved and returned. *)
Lemma generateResponse_run oracle options w :
  truthy (trim (transcript options)) = true →
  ∃ messages,
    buildMessages (roomName options) (transcript options) w
    = (Returned messages, w)
    ∧ generateResponse oracle options w
      = match failure (model oracle (modelCalls w) messages) with
        | Some e =>
          (Threw (AiGenerationError (lit "Failed to generate response") e
                    (isRetryableError e)), called w)
        | None =>
          (Returned (concat (chunks (model oracle (modelCalls w) messages))),
           (saveTurn (roomName options) (transcript options)
              (concat (chunks (model oracle (modelCalls w) messages)))
              (called w)).2)
        end.
Proof.
  intros Ht. eexists. split; [reflexivity|].
  unfold generateResponse. rewrite Ht.
  change (negb true) with false. cbv iota. unfold try_catch.
  erewrite bind_returned by reflexivity.
  unfold generateText.
  match goal with
  | |- context [callModel oracle ?messages] => set (prompt := messages)
  end.
  unfold mbind, M_bind, callModel. cbv beta iota.
  fold (called w).
  destruct (failure (model oracle (modelCalls w) prompt)) as [e|] eqn:He.
  - reflexivity.
  - unfold mret, M_ret.
    destruct (saveTurn_frame (roomName options) (transcript options)
                (concat (chunks (model oracle (modelCalls w) prompt)))
                (called w)) as [h Hh].
    by rewrite Hh.
Qed.
(** The same for [generateStreamingResponse]: the callback gets the
    complete sentences of the stream, and the unfinished rest only when the
    stream ends well. *)
Lemma generateStreamingResponse_run oracle options w :
  truthy (trim (transcript options)) = true →
  ∃ messages out rest,
    buildMessages (roomName options) (transcript options) w
    = (Returned messages, w)
    ∧ callbacks (chunks (model oracle (modelCalls w) messages)) = out ++ rest
    ∧ Forall ends_with_terminator out
    ∧ Forall (λ s, ¬ ends_with_terminator s) rest
    ∧ generateStreamingResponse oracle options w
      = match failure (model oracle (modelCalls w) messages) with
        | Some e =>
          (Threw (AiGenerationError (lit "Failed to generate streaming response")
                    e (isRetryableError e)), say out (called w))
        | None =>
          (Returned (concat (chunks (model oracle (modelCalls w) messages))),
           (saveTurn (roomName options) (transcript options)
              (concat (chunks (model oracle (modelCalls w) messages)))
              (say (out ++ rest) (called w))).2)
        end.
Proof.
  intros Ht.
  unfold generateStreamingResponse. rewrite Ht.
  change (negb true) with false. cbv iota. unfold try_catch.
  erewrite bind_returned by reflexivity.
  erewrite bind_returned by reflexivity.
  fold (called w).
  match goal with
  | |- context [model oracle (modelCalls w) ?messages] => set (prompt := messages)
  end.
  set (run := model oracle (modelCalls w) prompt).
  destruct (forAwait_stream (chunks run) [] [] [] (called w) (List.Forall_nil _))
    as (buffer' & out & Hloop & Hstream).
  destruct (forAwait_sentences (chunks run) [] [] (called w) eq_refl)
    as (buffer'' & out' & Hloop' & Hout & Hnone).
  rewrite Hloop in Hloop'. injection Hloop' as <- Hsame.
  apply app_inv_head in Hsame as <-.
  exists prompt, out,
    (if truthy (trim buffer') then [trim buffer'] else []).
  split; [reflexivity|]. split; [exact Hstream|].
  split; [by eapply Forall_impl; [exact Hout|intros ? []]|].
  split.
  { destruct (truthy (trim buffer')); [|constructor].
    constructor; [|constructor]. by apply no_match_unterminated. }
  erewrite bind_returned by exact Hloop. cbv beta iota.
  subst run.
  destruct (failure (model oracle (modelCalls w) prompt)) as [e|];
    [reflexivity|].
  assert (Hsaid :
    ((if truthy (trim buffer') then onSentence (trim buffer')
      else mret tt) : M unit) (say out (called w))
    = (Returned tt,
       say (out ++ (if truthy (trim buffer') then [trim buffer'] else []))
         (called w))).
  { rewrite <- say_say. destruct (truthy (trim buffer')); [reflexivity|].
    by rewrite say_nil. }
  erewrite bind_returned by exact Hsaid.
  change ([] ++ concat (chunks (model oracle (modelCalls w) prompt)))
    with (concat (chunks (model oracle (modelCalls w) prompt))).
  match goal with
  | |- context [saveTurn ?r ?t ?f] =>
    destruct (saveTurn_frame r t f
                (say (out ++ (if truthy (trim buffer') then [trim buffer']
                              else [])) (called w))) as [h Hh]
  end.
  erewrite bind_returned by exact Hh. by rewrite Hh.
Qed.

(** One step of the loop, by what the attempt did. *)
Lemma retryLoop_final {A} (body : M A) n attempt maxRetries w msg e w' :
  body w = (Threw (AiGenerationError msg e false), w') →
  retryLoop body (S n) attempt maxRetries w = (Returned None, w').
Proof.
  intros Hbody. simpl. unfold try_catch.
  by erewrite bind_threw by exact Hbody.
Qed.

Lemma retryLoop_again {A} (body : M A) n attempt maxRetries w msg e w' :
  body w = (Threw (AiGenerationError msg e true), w') →
  retryLoop body (S n) attempt maxRetries w
  = retryLoop body n (attempt + 1) maxRetries
      (if attempt <? maxRetries then (delay (1000 * (attempt + 1)) w').2
       else w').
Proof.
  intros Hbody. simpl. unfold try_catch.
  erewrite bind_threw by exact Hbody. simpl.
  by destruct (attempt <? maxRetries).
Qed.

Lemma isRetryableError_rate_limit e message :
  error_message e = Some message →
  includes message (lit "rate limit") = true →
  isRetryableError e = false.
Proof. intros He Hm. unfold isRetryableError. by rewrite He, Hm. Qed.

(** X21.  A rate-limit error ends the retries at once: when the model's
    call fails with an error whose message includes ["rate limit"], the two
    retry methods call the model once, wait for nothing, leave the history
    alone and return a fallback line. *)
Theorem rate_limit_stops_retrying oracle options maxRetries w e message :
  truthy (trim (transcript options)) = true →
  0 ≤ maxRetries →
  (∀ messages, failure (model oracle (modelCalls w) messages) = Some e) →
  error_message e = Some message →
  includes message (lit "rate limit") = true →
  (∃ fallback w',
     generateResponseWithRetry oracle options maxRetries w
     = (Returned fallback, w')
     ∧ fallback ∈ FALLBACK_RESPONSES
     ∧ modelCalls w' = S (modelCalls w)
     ∧ delays w' = delays w
     ∧ history w' = history w
     ∧ spoken w' = spoken w)
  ∧ (∃ fallback streamedBefore w',
       generateStreamingResponseWithRetry oracle options maxRetries w
       = (Returned fallback, w')
       ∧ fallback ∈ FALLBACK_RESPONSES
       ∧ modelCalls w' = S (modelCalls w)
       ∧ delays w' = delays w
       ∧ history w' = history w
       ∧ spoken w' = spoken w ++ streamedBefore ++ [fallback]).
Proof.
  intros Ht Hmax Hfail He Hm.
  pose proof (isRetryableError_rate_limit e message He Hm) as Hfinal.
  destruct (Z.to_nat (maxRetries + 1)) as [|n] eqn:Hn; [lia|].
  split.
  - destruct (generateResponse_run oracle options w Ht) as (messages & _ & Hrun).
    rewrite Hfail, Hfinal in Hrun.
    unfold generateResponseWithRetry. rewrite Hn.
    erewrite bind_returned by (eapply retryLoop_final; exact Hrun).
    do 2 eexists. split; [reflexivity|].
    split_and!; [apply fallback_in|done..].
  - destruct (generateStreamingResponse_run oracle options w Ht)
      as (messages & out & rest & _ & _ & _ & _ & Hrun).
    rewrite Hfail, Hfinal in Hrun.
    unfold generateStreamingResponseWithRetry. rewrite Hn.
    erewrite bind_returned by (eapply retryLoop_final; exact Hrun).
    eexists _, out, _. split; [reflexivity|].
    split_and!; [apply fallback_in|try done..].
    simpl. by rewrite <- app_assoc.
Qed.

Lemma rate_limit_stops_retrying_witness :
  ∃ fallback w',
    generateResponseWithRetry rateLimitedOracle demoOptions 2 (newService 0)
    = (Returned fallback, w')
    ∧ modelCalls w' = 1%nat
    ∧ delays w' = [].
Proof.
  destruct (rate_limit_stops_retrying rateLimitedOracle demoOptions 2
              (newService 0) (ErrorObject (lit "429: rate limit exceeded"))
              (lit "429: rate limit exceeded"))
    as [(fallback & w' & Hrun & _ & Hcalls & Hdelays & _) _];
    [reflexivity|lia|reflexivity|reflexivity|by vm_compute|].
  exists fallback, w'. split_and!; [exact Hrun|exact Hcalls|exact Hdelays].
Defined.

Lemma failedAttempt_called w : failedAttempt w (called w).
Proof. by split_and!. Qed.

Lemma failedAttempt_say out w : failedAttempt w (say out (called w)).
Proof. by split_and!. Qed.

(** An attempt whose model call fails with an error that may be retried. *)
Lemma retryable_generateResponse oracle options w :
  truthy (trim (transcript options)) = true →
  (∀ messages, ∃ e,
     failure (model oracle (modelCalls w) messages) = Some e
     ∧ isRetryableError e = true) →
  ∃ msg e w',
    generateResponse oracle options w
    = (Threw (AiGenerationError msg e true), w')
    ∧ failedAttempt w w' ∧ spoken w' = spoken w.
Proof.
  intros Ht Hfail.
  destruct (generateResponse_run oracle options w Ht) as (messages & _ & Hrun).
  destruct (Hfail messages) as (e & He & Hretry).
  rewrite He, Hretry in Hrun.
  eexists _, e, _. split; [exact Hrun|].
  split; [apply failedAttempt_called|done].
Qed.

Lemma retryable_generateStreamingResponse oracle options w :
  truthy (trim (transcript options)) = true →
  (∀ messages, ∃ e,
     failure (model oracle (modelCalls w) messages) = Some e
     ∧ isRetryableError e = true) →
  ∃ msg e w',
    generateStreamingResponse oracle options w
    = (Threw (AiGenerationError msg e true), w')
    ∧ failedAttempt w w'.
Proof.
  intros Ht Hfail.
  destruct (generateStreamingResponse_run oracle options w Ht)
    as (messages & out & rest & _ & _ & _ & _ & Hrun).
  destruct (Hfail messages) as (e & He & Hretry).
  rewrite He, Hretry in Hrun.
  eexists _, e, _. split; [exact Hrun|]. apply failedAttempt_say.
Qed.

Lemma backoff_cons first count :
  0 < count →
  backoff first count = 1000 * first :: backoff (first + 1) (count - 1).
Proof. intros H. unfold backoff. by rewrite seqZ_cons by lia. Qed.

Lemma backoff_nil first count : count ≤ 0 → backoff first count = [].
Proof. intros H. unfold backoff. by rewrite seqZ_nil by lia. Qed.

(** The loop after [k] failed attempts that may be retried: [k] calls of
    the model, [k] waits, each one second longer than the one before, and
    nothing else. *)
Lemma retryLoop_failures {A} (body : M A) (k : nat) :
  ∀ n attempt maxRetries w,
  attempt + Z.of_nat k ≤ maxRetries →
  (∀ w0, (modelCalls w ≤ modelCalls w0 < modelCalls w + k)%nat →
     ∃ msg e w1,
       body w0 = (Threw (AiGenerationError msg e true), w1)
       ∧ failedAttempt w0 w1) →
  ∃ w0,
    retryLoop body (k + n) attempt maxRetries w
    = retryLoop body n (attempt + Z.of_nat k) maxRetries w0
    ∧ modelCalls w0 = (modelCalls w + k)%nat
    ∧ randomCalls w0 = randomCalls w
    ∧ history w0 = history w
    ∧ delays w0 = delays w ++ backoff (attempt + 1) (Z.of_nat k)
    ∧ clock w0
      = clock w + 500 * Z.of_nat k * (2 * attempt + Z.of_nat k + 1).
Proof.
  induction k as [|k IH]; intros n attempt maxRetries w Hmax Hbody.
  - exists w. rewrite Z.add_0_r, backoff_nil, app_nil_r by done.
    split_and!; try done; lia.
  - destruct (Hbody w) as (msg & e & w1 & Hrun & Hcalls & Hrandom & Hdelays
                             & Hclock & Hhistory); [lia|].
    change (S k + n)%nat with (S (k + n)).
    erewrite retryLoop_again by exact Hrun.
    destruct (Z.ltb_spec attempt maxRetries); [|lia].
    destruct (IH n (attempt + 1) maxRetries (delay (1000 * (attempt + 1)) w1).2)
      as (w0 & Hloop & Hcalls0 & Hrandom0 & Hhistory0 & Hdelays0 & Hclock0).
    { lia. }
    { intros w2 Hw2. apply Hbody. simpl in Hw2. lia. }
    exists w0. simpl in *.
    split_and!.
    + rewrite Hloop. f_equal. lia.
    + lia.
    + congruence.
    + congruence.
    + rewrite Hdelays0, Hdelays, <- app_assoc. f_equal.
      rewrite (backoff_cons (attempt + 1)) by lia. simpl. do 2 f_equal. lia.
    + rewrite Hclock0, Hclock. lia.
Qed.

(** X22.  The waits between attempts: when every call of the model fails
    with an error that may be retried, the two retry methods wait 1000 ms
    after the first attempt, 2000 ms after the second and so on up to
    [1000 * maxRetries] ms, [500 * maxRetries * (maxRetries + 1)] ms in
    all.  There is no wait after the last attempt, and the history is left
    alone. *)
Theorem backoff_schedule oracle options maxRetries w :
  truthy (trim (transcript options)) = true →
  0 ≤ maxRetries →
  (∀ n messages, ∃ e,
     failure (model oracle n messages) = Some e ∧ isRetryableError e = true) →
  (∃ fallback w',
     generateResponseWithRetry oracle options maxRetries w
     = (Returned fallback, w')
     ∧ delays w' = delays w ++ backoff 1 maxRetries
     ∧ clock w' = clock w + 500 * maxRetries * (maxRetries + 1)
     ∧ history w' = history w)
  ∧ (∃ fallback w',
       generateStreamingResponseWithRetry oracle options maxRetries w
       = (Returned fallback, w')
       ∧ delays w' = delays w ++ backoff 1 maxRetries
       ∧ clock w' = clock w + 500 * maxRetries * (maxRetries + 1)
       ∧ history w' = history w).
Proof.
  intros Ht Hmax Hfail.
  split.
  - destruct (retryLoop_failures (generateResponse oracle options)
                (Z.to_nat maxRetries) 1 0 maxRetries w)
      as (w0 & Hloop & _ & _ & Hhistory & Hdelays & Hclock).
    { lia. }
    { intros w0 _.
      destruct (retryable_generateResponse oracle options w0 Ht (Hfail _))
        as (msg & e & w1 & Hrun & Hw1 & _).
      by exists msg, e, w1. }
    destruct (retryable_generateResponse oracle options w0 Ht (Hfail _))
      as (msg & e & w1 & Hrun & (_ & _ & Hdelays1 & Hclock1 & Hhistory1) & _).
    unfold generateResponseWithRetry.
    replace (Z.to_nat (maxRetries + 1)) with (Z.to_nat maxRetries + 1)%nat
      by lia.
    erewrite bind_returned; cycle 1.
    { rewrite Hloop. erewrite retryLoop_again by exact Hrun. reflexivity. }
    destruct (Z.ltb_spec (0 + Z.of_nat (Z.to_nat maxRetries)) maxRetries);
      [lia|].
    do 2 eexists. split; [reflexivity|]. simpl.
    rewrite Hdelays1, Hclock1, Hhistory1, Hdelays, Hclock, Hhistory.
    rewrite Z2Nat.id by lia. split_and!; [done|lia|done].
  - destruct (retryLoop_failures (generateStreamingResponse oracle options)
                (Z.to_nat maxRetries) 1 0 maxRetries w)
      as (w0 & Hloop & _ & _ & Hhistory & Hdelays & Hclock).
    { lia. }
    { intros w0 _.
      apply (retryable_generateStreamingResponse oracle options w0 Ht (Hfail _)). }
    destruct (retryable_generateStreamingResponse oracle options w0 Ht (Hfail _))
      as (msg & e & w1 & Hrun & (_ & _ & Hdelays1 & Hclock1 & Hhistory1)).
    unfold generateStreamingResponseWithRetry.
    replace (Z.to_nat (maxRetries + 1)) with (Z.to_nat maxRetries + 1)%nat
      by lia.
    erewrite bind_returned; cycle 1.
    { rewrite Hloop. erewrite retryLoop_again by exact Hrun. reflexivity. }
    destruct (Z.ltb_spec (0 + Z.of_nat (Z.to_nat maxRetries)) maxRetries);
      [lia|].
    do 2 eexists. split; [reflexivity|]. simpl.
    rewrite Hdelays1, Hclock1, Hhistory1, Hdelays, Hclock, Hhistory.
    rewrite Z2Nat.id by lia. split_and!; [done|lia|done].
Qed.

Lemma backoff_schedule_witness :
  ∃ fallback w',
    generateResponseWithRetry failingOracle demoOptions 2 (newService 0)
    = (Returned fallback, w')
    ∧ delays w' = [1000; 2000]
    ∧ clock w' = 3000.
Proof.
  destruct (backoff_schedule failingOracle demoOptions 2 (newService 0))
    as [(fallback & w' & Hrun & Hdelays & Hclock & _) _];
    [reflexivity|lia|exact (λ _ _, ex_intro _ _ (conj eq_refl eq_refl))|].
  exists fallback, w'. split_and!; [exact Hrun|exact Hdelays|exact Hclock].
Defined.

Lemma saveTurn_counters r t reply w :
  modelCalls (saveTurn r t reply w).2 = modelCalls w
  ∧ randomCalls (saveTurn r t reply w).2 = randomCalls w
  ∧ spoken (saveTurn r t reply w).2 = spoken w
  ∧ delays (saveTurn r t reply w).2 = delays w
  ∧ clock (saveTurn r t reply w).2 = clock w.
Proof. destruct (saveTurn_frame r t reply w) as [h ->]. by split_and!. Qed.

Lemma with_clock_id w : with_clock (clock w) w = w.
Proof. by destruct w. Qed.

(** Saving a turn is two appends, made at the time of the call. *)
Lemma saveTurn_appends room transcript reply w :
  truthy room = true →
  (saveTurn (Some room) transcript reply w).2
  = append
      (append w {| HistoryOps.room := room; role := user;
                   content := transcript; at_ := clock w |})
      {| HistoryOps.room := room; role := assistant; content := reply;
         at_ := clock w |}.
Proof.
  intros Hroom. unfold saveTurn. rewrite Hroom.
  unfold append. cbn [HistoryOps.room role content at_].
  rewrite with_clock_id.
  unfold mbind, M_bind.
  destruct (addToHistory_frame room user transcript w) as [h Hh].
  rewrite Hh. cbn [snd].
  change (clock w) with (clock (with_history h w)).
  by rewrite with_clock_id.
Qed.

(** Two appends in a row end with the two messages, whatever is pruned. *)
Lemma afterAppend_twice old a b :
  ∃ n,
    afterAppend (afterAppend old a) b = drop n old ++ [stored a; stored b]
    ∧ ((length old ≤ 18)%nat → n = 0%nat).
Proof.
  unfold afterAppend. rewrite !length_app. simpl.
  destruct (Nat.ltb_spec 20 (length old + 1)).
  - rewrite length_drop, length_app. simpl.
    destruct (Nat.ltb_spec 20 (length old + 1 - (length old + 1 - 10) + 1));
      [lia|].
    exists (length old + 1 - 10)%nat. split; [|lia].
    rewrite drop_app_le by lia. by rewrite <- app_assoc.
  - rewrite !length_app. simpl.
    destruct (Nat.ltb_spec 20 (length old + 1 + 1)).
    + exists (length old + 1 + 1 - 10)%nat. split; [|lia].
      rewrite <- app_assoc. rewrite drop_app_le by lia. done.
    + exists 0%nat. split; [|done]. by rewrite <- app_assoc.
Qed.

(** What saving a turn leaves in the histories, when the world has the
    histories of [w]. *)
Lemma saved_turn room transcript reply w0 w :
  truthy room = true → history w0 = history w →
  ∃ kept,
    contents room (saveTurn (Some room) transcript reply w0).2
    = kept ++ [(user, transcript); (assistant, reply)]
    ∧ kept `suffix_of` contents room w
    ∧ ((length (contents room w) ≤ 18)%nat → kept = contents room w)
    ∧ ∀ other, other ≠ room →
        getHistory other (saveTurn (Some room) transcript reply w0).2
        = getHistory other w.
Proof.
  intros Htruthy Hhistory.
  rewrite saveTurn_appends by done.
  set (a := {| HistoryOps.room := room; role := user;
               content := transcript; at_ := clock w0 |}).
  set (b := {| HistoryOps.room := room; role := assistant; content := reply;
               at_ := clock w0 |}).
  assert (Hold : ∀ r, getHistory r w0 = getHistory r w)
    by (intros r; unfold getHistory; by rewrite Hhistory).
  destruct (afterAppend_twice (getHistory room w) a b) as (n & Hn & Hall).
  assert (Hnew : getHistory room (append (append w0 a) b)
                 = drop n (getHistory room w) ++ [stored a; stored b]).
  { rewrite !getHistory_append. cbn [HistoryOps.room a b].
    rewrite !bool_decide_eq_true_2 by done. by rewrite Hold. }
  exists ((λ m, (ConversationMessage.role m, ConversationMessage.content m))
          <$> drop n (getHistory room w)).
  unfold contents. split_and!.
  - by rewrite Hnew, fmap_app.
  - rewrite fmap_drop. apply suffix_drop.
  - rewrite length_fmap. intros Hshort. by rewrite (Hall Hshort).
  - intros other Hother. rewrite !getHistory_append. cbn [HistoryOps.room a b].
    rewrite !bool_decide_eq_false_2 by done. apply Hold.
Qed.

(** X23.  Recovery: when the first [k] calls of the model fail with errors
    that may be retried, [k] being at most [maxRetries], and the next call
    answers, [generateResponseWithRetry] returns that answer after [k + 1]
    calls and the waits of 1000, 2000, ..., [1000 * k] ms, without any
    fallback line; the turn is saved once, and the failed attempts leave
    nothing in the history: the room's history ends with the transcript and
    the answer, after the newest of the messages it had. *)
Theorem recovery_after_failures oracle options maxRetries w (k : nat) reply :
  truthy (trim (transcript options)) = true →
  Z.of_nat k ≤ maxRetries →
  (∀ i messages, (i < k)%nat →
     ∃ e, failure (model oracle (modelCalls w + i) messages) = Some e
          ∧ isRetryableError e = true) →
  (∀ messages,
     model oracle (modelCalls w + k) messages
     = {| chunks := reply; failure := None |}) →
  ∃ w',
    generateResponseWithRetry oracle options maxRetries w
    = (Returned (concat reply), w')
    ∧ modelCalls w' = (modelCalls w + k + 1)%nat
    ∧ randomCalls w' = randomCalls w
    ∧ delays w' = delays w ++ backoff 1 (Z.of_nat k)
    ∧ ∀ room, roomName options = Some room → truthy room = true →
        ∃ kept,
          contents room w'
          = kept ++ [(user, transcript options); (assistant, concat reply)]
          ∧ kept `suffix_of` contents room w.
Proof.
  intros Ht Hk Hfail Hreply.
  destruct (retryLoop_failures (generateResponse oracle options) k
              (S (Z.to_nat maxRetries - k)) 0 maxRetries w)
    as (w0 & Hloop & Hcalls & Hrandom & Hhistory & Hdelays & Hclock).
  { lia. }
  { intros w0 Hw0.
    destruct (retryable_generateResponse oracle options w0 Ht)
      as (msg & e & w1 & Hrun & Hw1 & _).
    - intros messages.
      replace (modelCalls w0)
        with (modelCalls w + (modelCalls w0 - modelCalls w))%nat by lia.
      apply Hfail. lia.
    - by exists msg, e, w1. }
  destruct (generateResponse_run oracle options w0 Ht) as (messages & _ & Hrun).
  rewrite Hcalls, Hreply in Hrun. cbn [failure chunks] in Hrun.
  unfold generateResponseWithRetry.
  replace (Z.to_nat (maxRetries + 1))
    with (k + S (Z.to_nat maxRetries - k))%nat by lia.
  erewrite bind_returned; cycle 1.
  { rewrite Hloop. by apply retryLoop_first_returns. }
  eexists. split; [reflexivity|].
  destruct (saveTurn_counters (roomName options) (transcript options)
              (concat reply) (called w0)) as (-> & -> & _ & -> & _).
  simpl. split_and!; [lia|done|done|].
  intros room Hroom Htruthy. rewrite Hroom.
  destruct (saved_turn room (transcript options) (concat reply) (called w0) w
              Htruthy Hhistory) as (kept & Hkept & Hsuffix & _).
  by exists kept.
Qed.

Lemma recovery_after_failures_witness :
  ∃ w',
    generateResponseWithRetry recoveringOracle demoOptions 2 (newService 0)
    = (Returned (lit "One. Two."), w')
    ∧ modelCalls w' = 2%nat
    ∧ delays w' = [1000]
    ∧ contents (lit "room") w'
      = [(user, lit "hello"); (assistant, lit "One. Two.")].
Proof.
  destruct (recovery_after_failures recoveringOracle demoOptions 2
              (newService 0) 1 [lit "One. "; lit "Two."])
    as (w' & Hrun & Hcalls & _ & Hdelays & Hsaved).
  - reflexivity.
  - lia.
  - intros i messages Hi. replace i with 0%nat by lia.
    exact (ex_intro _ _ (conj eq_refl eq_refl)).
  - reflexivity.
  - exists w'. split_and!; [exact Hrun|exact Hcalls|exact Hdelays|].
    destruct (Hsaved (lit "room") eq_refl eq_refl) as (kept & Hkept & Hsuffix).
    rewrite Hkept.
    apply suffix_nil_inv in Hsuffix. by rewrite Hsuffix.
Defined.

(** X24.  A retry starts over and speaks again: when the first stream
    breaks with an error that may be retried and the second one is
    complete, [generateStreamingResponseWithRetry] has handed to the
    callback the complete sentences of the broken stream, but not its
    unfinished rest, and then all the sentences of the second stream, from
    its first one on; it waits 1000 ms in between and returns the second
    text only. *)
Theorem retry_speaks_again oracle options maxRetries w broken e reply :
  truthy (trim (transcript options)) = true →
  1 ≤ maxRetries →
  (∀ messages,
     model oracle (modelCalls w) messages
     = {| chunks := broken; failure := Some e |}) →
  isRetryableError e = true →
  (∀ messages,
     model oracle (S (modelCalls w)) messages
     = {| chunks := reply; failure := None |}) →
  ∃ spokenBefore unfinished w',
    generateStreamingResponseWithRetry oracle options maxRetries w
    = (Returned (concat reply), w')
    ∧ callbacks broken = spokenBefore ++ unfinished
    ∧ Forall ends_with_terminator spokenBefore
    ∧ Forall (λ s, ¬ ends_with_terminator s) unfinished
    ∧ spoken w' = spoken w ++ spokenBefore ++ callbacks reply
    ∧ delays w' = delays w ++ [1000]
    ∧ modelCalls w' = S (S (modelCalls w))
    ∧ randomCalls w' = randomCalls w.
Proof.
  intros Ht Hmax Hbroken Hretry Hreply.
  destruct (generateStreamingResponse_run oracle options w Ht)
    as (messages & out & rest & _ & Hout & Hcomplete & Hrest & Hrun).
  rewrite Hbroken in Hrun, Hout. cbn [failure chunks] in Hrun, Hout.
  rewrite Hretry in Hrun.
  set (w1 := (delay (1000 * (0 + 1)) (say out (called w))).2).
  destruct (generateStreamingResponse_run oracle options w1 Ht)
    as (messages' & out' & rest' & _ & Hout' & _ & _ & Hrun').
  change (modelCalls w1) with (S (modelCalls w)) in Hrun', Hout'.
  rewrite Hreply in Hrun', Hout'. cbn [failure chunks] in Hrun', Hout'.
  unfold generateStreamingResponseWithRetry.
  replace (Z.to_nat (maxRetries + 1))
    with (S (S (Z.to_nat maxRetries - 1))) by lia.
  erewrite bind_returned; cycle 1.
  { erewrite retryLoop_again by exact Hrun.
    destruct (Z.ltb_spec 0 maxRetries); [|lia].
    apply retryLoop_first_returns. exact Hrun'. }
  exists out, rest. eexists. split; [reflexivity|].
  destruct (saveTurn_counters (roomName options) (transcript options)
              (concat reply) (say (out' ++ rest') (called w1)))
    as (-> & -> & -> & -> & _).
  rewrite <- Hout'. simpl. rewrite <- app_assoc. by split_and!.
Qed.

Lemma retry_speaks_again_witness :
  ∃ w',
    generateStreamingResponseWithRetry recoveringOracle demoOptions 2
      (newService 0)
    = (Returned (lit "One. Two."), w')
    ∧ spoken w' = [lit "One."; lit "One."; lit "Two."].
Proof.
  destruct (retry_speaks_again recoveringOracle demoOptions 2 (newService 0)
              [lit "One. Tw"] (ErrorObject (lit "socket hang up"))
              [lit "One. "; lit "Two."])
    as (spokenBefore & unfinished & w' & Hrun & Hsplit & Hcomplete & Hrest
        & Hspoken & _);
    [reflexivity|lia|reflexivity|reflexivity|reflexivity|].
  exists w'. split; [exact Hrun|].
  rewrite Hspoken.
  change (callbacks [lit "One. Tw"]) with [lit "One."; lit "Tw"] in Hsplit.
  change (callbacks [lit "One. "; lit "Two."]) with [lit "One."; lit "Two."].
  assert (Hone : ends_with_terminator (lit "One."))
    by (exists 46%N; split; reflexivity).
  assert (Htw : ¬ ends_with_terminator (lit "Tw")).
  { intros (c & Hlast & Hc). injection Hlast as <-. discriminate Hc. }
  destruct spokenBefore as [|s1 [|s2 [|s3 l]]]; simpl in Hsplit.
  - subst unfinished. apply Forall_cons_1 in Hrest as [Hno _]. by destruct Hno.
  - injection Hsplit as <- _. reflexivity.
  - injection Hsplit as <- <- _.
    apply Forall_cons_1 in Hcomplete as [_ Hcomplete].
    apply Forall_cons_1 in Hcomplete as [Hyes _]. by destruct Htw.
  - discriminate Hsplit.
Defined.

(** A loop of attempts does not throw, whatever the attempts do. *)
Lemma retryLoop_result {A} (body : M A) (Q : A → World → World → Prop) :
  polite body →
  (∀ w, (modelCalls (body w).2 ≤ S (modelCalls w))%nat) →
  (∀ w a w', body w = (Returned a, w') → Q a w w') →
  ∀ n attempt maxRetries w,
  ∃ r w',
    retryLoop body n attempt maxRetries w = (Returned r, w')
    ∧ (modelCalls w' ≤ modelCalls w + n)%nat
    ∧ match r with
      | Some a => ∃ w0, extends w w0 ∧ Q a w0 w'
      | None => extends w w'
      end.
Proof.
  intros Hpolite Hcalls Hbody n.
  induction n as [|n IH]; intros attempt maxRetries w.
  - exists None, w. split_and!; [done|lia|apply extends_refl].
  - pose proof (Hpolite w) as Hw1. pose proof (Hcalls w) as Hc1.
    destruct (body w) as [[a|e] w1] eqn:Hrun.
    + exists (Some a), w1. split_and!.
      * by apply retryLoop_first_returns.
      * simpl in Hc1. lia.
      * exists w. split; [apply extends_refl|by apply Hbody].
    + simpl in Hw1, Hc1. simpl. unfold try_catch.
      erewrite bind_threw by exact Hrun.
      destruct (isFinalFailure e).
      { exists None, w1. split_and!; [done|lia|done]. }
      set (pause := (if attempt <? maxRetries
                     then delay (1000 * (attempt + 1)) else mret tt) : M unit).
      assert (∃ w2, pause w1 = (Returned tt, w2)
                    ∧ modelCalls w2 = modelCalls w1 ∧ spoken w2 = spoken w1)
        as (w2 & Hpause & Hc2 & Hs2).
      { unfold pause. destruct (attempt <? maxRetries); by eexists. }
      erewrite bind_returned by exact Hpause.
      destruct (IH (attempt + 1) maxRetries w2) as (r & w' & Hloop & Hc & Hr).
      exists r, w'. split_and!; [done|lia|].
      assert (Hw2 : extends w w2)
        by (eapply extends_trans; [exact Hw1|by apply extends_same]).
      destruct r as [a|].
      * destruct Hr as (w0 & Hw0 & HQ). exists w0.
        split; [by eapply extends_trans|done].
      * by eapply extends_trans.
Qed.

Lemma quiet_generateResponse oracle options :
  ∀ w, spoken (generateResponse oracle options w).2 = spoken w.
Proof.
  intros w.
  destruct (truthy (trim (transcript options))) eqn:Ht.
  - destruct (generateResponse_run oracle options w Ht)
      as (messages & _ & ->).
    destruct (failure _); [done|]. cbn [snd].
    by destruct (saveTurn_counters (roomName options) (transcript options)
                   (concat (chunks (model oracle (modelCalls w) messages)))
                   (called w)) as (_ & _ & -> & _).
  - by rewrite blank_generateResponse.
Qed.

Lemma calls_generateResponse oracle options w :
  (modelCalls (generateResponse oracle options w).2 ≤ S (modelCalls w))%nat.
Proof.
  destruct (truthy (trim (transcript options))) eqn:Ht.
  - destruct (generateResponse_run oracle options w Ht)
      as (messages & _ & ->).
    destruct (failure _); [simpl; lia|]. cbn [snd].
    destruct (saveTurn_counters (roomName options) (transcript options)
                (concat (chunks (model oracle (modelCalls w) messages)))
                (called w)) as (-> & _). simpl. lia.
  - rewrite blank_generateResponse by done. simpl. lia.
Qed.

Lemma calls_generateStreamingResponse oracle options w :
  (modelCalls (generateStreamingResponse oracle options w).2
   ≤ S (modelCalls w))%nat.
Proof.
  destruct (truthy (trim (transcript options))) eqn:Ht.
  - destruct (generateStreamingResponse_run oracle options w Ht)
      as (messages & out & rest & _ & _ & _ & _ & ->).
    destruct (failure _); [simpl; lia|]. cbn [snd].
    destruct (saveTurn_counters (roomName options) (transcript options)
                (concat (chunks (model oracle (modelCalls w) messages)))
                (say (out ++ rest) (called w))) as (-> & _). simpl. lia.
  - rewrite blank_generateStreamingResponse by done. simpl. lia.
Qed.

(** What a returning attempt has handed to the callback reads as the text
    it returns. *)
Lemma spoken_generateStreamingResponse oracle options w text w' :
  generateStreamingResponse oracle options w = (Returned text, w') →
  ∃ said,
    spoken w' = spoken w ++ said ∧ visible (concat said) = visible text.
Proof.
  intros Hrun.
  destruct (truthy (trim (transcript options))) eqn:Ht.
  - destruct (generateStreamingResponse_run oracle options w Ht)
      as (messages & out & rest & _ & Hsplit & _ & _ & Hgen).
    rewrite Hgen in Hrun.
    destruct (failure _); [done|].
    injection Hrun as <- <-.
    exists (out ++ rest).
    destruct (saveTurn_counters (roomName options) (transcript options)
                (concat (chunks (model oracle (modelCalls w) messages)))
                (say (out ++ rest) (called w))) as (_ & _ & -> & _).
    split; [done|].
    rewrite <- Hsplit. unfold callbacks. by rewrite stream_visible.
  - rewrite blank_generateStreamingResponse in Hrun by done.
    injection Hrun as <- <-.
    eexists [_]. split; [done|]. simpl. by rewrite app_nil_r.
Qed.

(** [generateResponseWithRetry] returns, whatever the model does. *)
Lemma response_retry_returns oracle options maxRetries w :
  ∃ text w',
    generateResponseWithRetry oracle options maxRetries w
    = (Returned text, w')
    ∧ (modelCalls w' ≤ modelCalls w + Z.to_nat (maxRetries + 1))%nat
    ∧ spoken w' = spoken w.
Proof.
  assert (Hquiet : ∀ n attempt w0,
    ∃ r w', retryLoop (generateResponse oracle options) n attempt
              maxRetries w0 = (Returned r, w')
            ∧ (modelCalls w' ≤ modelCalls w0 + n)%nat
            ∧ spoken w' = spoken w0).
  { induction n as [|n IH]; intros attempt w0.
    - exists None, w0. split_and!; [done|lia|done].
    - pose proof (quiet_generateResponse oracle options w0) as Hs.
      pose proof (calls_generateResponse oracle options w0) as Hc.
      destruct (generateResponse oracle options w0) as [[a|e] w1] eqn:Hrun.
      + exists (Some a), w1. split_and!.
        * by apply retryLoop_first_returns.
        * simpl in Hc. lia.
        * done.
      + simpl in Hs, Hc. simpl. unfold try_catch.
        erewrite bind_threw by exact Hrun.
        destruct (isFinalFailure e).
        { exists None, w1. split_and!; [done|lia|done]. }
        destruct (attempt <? maxRetries).
        * erewrite bind_returned by reflexivity.
          destruct (IH (attempt + 1) (delay (1000 * (attempt + 1)) w1).2)
            as (r & w' & Hloop & Hc' & Hs').
          exists r, w'. simpl in *. split_and!; [done|lia|congruence].
        * erewrite bind_returned by reflexivity.
          destruct (IH (attempt + 1) w1) as (r & w' & Hloop & Hc' & Hs').
          exists r, w'. split_and!; [done|lia|congruence]. }
  destruct (Hquiet (Z.to_nat (maxRetries + 1)) 0 w)
    as (r & w1 & Hloop & Hc & Hs).
  unfold generateResponseWithRetry.
  erewrite bind_returned by exact Hloop.
  destruct r as [text|]; by eexists _, _.
Qed.

(** So does [generateStreamingResponseWithRetry]; what it returns is what
    it said last. *)
Lemma streaming_retry_returns oracle options maxRetries w :
  ∃ text before said w',
    generateStreamingResponseWithRetry oracle options maxRetries w
    = (Returned text, w')
    ∧ (modelCalls w' ≤ modelCalls w + Z.to_nat (maxRetries + 1))%nat
    ∧ spoken w' = spoken w ++ before ++ said
    ∧ visible (concat said) = visible text
    ∧ Forall speakable (before ++ said).
Proof.
  assert (Hgood : ∀ text before said w',
    generateStreamingResponseWithRetry oracle options maxRetries w
    = (Returned text, w') →
    spoken w' = spoken w ++ before ++ said →
    Forall speakable (before ++ said)).
  { intros text before said w' Hrun Hspoken.
    destruct (polite_generateStreamingResponseWithRetry oracle options
                maxRetries w) as (out & Hout & Hgood).
    rewrite Hrun in Hout. simpl in Hout. rewrite Hspoken in Hout.
    by apply app_inv_head in Hout as <-. }
  destruct (retryLoop_result (generateStreamingResponse oracle options)
              (λ text w0 w',
                 ∃ said, spoken w' = spoken w0 ++ said
                         ∧ visible (concat said) = visible text)
              (polite_generateStreamingResponse oracle options)
              (calls_generateStreamingResponse oracle options)
              (spoken_generateStreamingResponse oracle options)
              (Z.to_nat (maxRetries + 1)) 0 maxRetries w)
    as (r & w1 & Hloop & Hc & Hr).
  unfold generateStreamingResponseWithRetry.
  erewrite bind_returned by exact Hloop.
  destruct r as [text|].
  + destruct Hr as (w0 & (before & Hbefore & _) & said & Hsaid & Hvisible).
    assert (Hspoken : spoken w1 = spoken w ++ before ++ said)
      by (by rewrite Hsaid, Hbefore, <- app_assoc).
    exists text, before, said, w1.
    split_and!; [done|done|done|done|].
    eapply Hgood; [|exact Hspoken].
    unfold generateStreamingResponseWithRetry.
    by erewrite bind_returned by exact Hloop.
  + destruct Hr as (before & Hbefore & _).
    eexists _, before, [_], _. split; [reflexivity|]. simpl.
    split_and!; [done|by rewrite Hbefore, <- app_assoc|by rewrite app_nil_r|].
    eapply Hgood.
    - unfold generateStreamingResponseWithRetry.
      erewrite bind_returned by exact Hloop. reflexivity.
    - simpl. by rewrite Hbefore, <- app_assoc.
Qed.

(** X26.  The retry methods do not throw, whatever the model does, as
    long as the callback does not: they return a text after at most
    [maxRetries + 1] calls of the model.  [generateResponseWithRetry]
    never calls the callback.  The last strings
    [generateStreamingResponseWithRetry] handed to the callback read,
    white space apart, as the text it returns. *)
Theorem retry_methods_do_not_throw oracle options maxRetries w :
  (∃ text w',
     generateResponseWithRetry oracle options maxRetries w
     = (Returned text, w')
     ∧ (modelCalls w' ≤ modelCalls w + Z.to_nat (maxRetries + 1))%nat
     ∧ spoken w' = spoken w)
  ∧ (∃ text before said w',
       generateStreamingResponseWithRetry oracle options maxRetries w
       = (Returned text, w')
       ∧ (modelCalls w' ≤ modelCalls w + Z.to_nat (maxRetries + 1))%nat
       ∧ spoken w' = spoken w ++ before ++ said
       ∧ visible (concat said) = visible text).
Proof.
  split; [apply response_retry_returns|].
  destruct (streaming_retry_returns oracle options maxRetries w)
    as (text & before & said & w' & Hrun & Hcalls & Hspoken & Hvisible & _).
  by exists text, before, said, w'.
Qed.

(** A call of the callback, and the loops that make such calls: they leave
    the history, the counters and the waits alone, and what they throw the
    callback threw. *)
Lemma onSentence_outcome callback sentence w :
  ∃ w',
    history w' = history w ∧ modelCalls w' = modelCalls w
    ∧ randomCalls w' = randomCalls w ∧ delays w' = delays w
    ∧ (Streaming.onSentence callback sentence w = (Returned tt, w')
       ∨ ∃ e, Streaming.onSentence callback sentence w = (Threw e, w')
              ∧ callback (length (spoken w)) sentence = Some e).
Proof.
  unfold Streaming.onSentence.
  destruct (callback (length (spoken w)) sentence) as [e|] eqn:Hcall.
  - eexists. split_and!; [| | | |right; exists e; split; reflexivity];
      reflexivity.
  - eexists. split_and!; [| | | |left; reflexivity]; reflexivity.
Qed.

Lemma emitAll_outcome callback sentences w :
  ∃ r w',
    Streaming.emitAll callback sentences w = (r, w')
    ∧ history w' = history w ∧ modelCalls w' = modelCalls w
    ∧ randomCalls w' = randomCalls w ∧ delays w' = delays w
    ∧ ∀ e, r = Threw e → ∃ n sentence, callback n sentence = Some e.
Proof.
  revert w. induction sentences as [|s l IH]; intros w; simpl.
  - exists (Returned tt), w. by split_and!.
  - unfold mbind, M_bind.
    destruct (onSentence_outcome callback s w)
      as (w1 & Hh & Hm & Hr & Hd & [Hrun | (e & Hrun & Hcall)]);
      rewrite Hrun.
    + destruct (IH w1) as (r & w' & Hloop & Hh' & Hm' & Hr' & Hd' & Hthrown).
      exists r, w'. split_and!; [done|congruence..|done].
    + exists (Threw e), w1. split_and!; [done..|].
      intros ? [= <-]. eauto.
Qed.

Lemma forAwait_outcome callback chunks fullResponse sentenceBuffer w :
  ∃ r w',
    Streaming.forAwait callback chunks fullResponse sentenceBuffer w = (r, w')
    ∧ history w' = history w ∧ modelCalls w' = modelCalls w
    ∧ randomCalls w' = randomCalls w ∧ delays w' = delays w
    ∧ ∀ e, r = Threw e → ∃ n sentence, callback n sentence = Some e.
Proof.
  revert fullResponse sentenceBuffer w.
  induction chunks as [|chunk chunks IH];
    intros fullResponse sentenceBuffer w; simpl.
  - eexists _, w. by split_and!.
  - destruct (0 <? _)%nat; [|apply IH].
    unfold mbind, M_bind.
    destruct (emitAll_outcome callback
                (extracted (extractCompleteSentences (sentenceBuffer ++ chunk)))
                w) as (r & w1 & Hrun & Hh & Hm & Hr & Hd & Hthrown).
    rewrite Hrun. destruct r as [[]|e].
    + destruct (IH (fullResponse ++ chunk)
                  (remaining (extractCompleteSentences
                                (sentenceBuffer ++ chunk))) w1)
        as (r & w' & Hloop & Hh' & Hm' & Hr' & Hd' & Hthrown').
      exists r, w'. split_and!; [done|congruence..|done].
    + exists (Threw e), w1. split_and!; [done..|].
      intros ? [= <-]. by apply Hthrown.
Qed.

(** X27.  A failed attempt.  Whenever [generateResponse] throws, the model
    was called once and that call failed; what is thrown is an
    [AiGenerationError] with the method's message, the model's error as
    its cause and [isRetryable] as [isRetryableError] judges the cause.
    Whenever [generateStreamingResponse] throws, with whatever callback:
    for a transcript that is not blank the model was called once and what
    is thrown is an [AiGenerationError] with the method's message whose
    cause, judged by [isRetryableError], is the error of the model or an
    error the callback threw; for a blank transcript the model was not
    called and what is thrown is, as it is, an error the callback threw
    when called with a fallback line.  In every case nothing was saved to
    the history and nothing was waited for. *)
Theorem failed_attempt_is_wrapped callback oracle options w thrown w' :
  (generateResponse oracle options w = (Threw thrown, w') →
   ∃ messages e,
     failure (model oracle (modelCalls w) messages) = Some e
     ∧ thrown = AiGenerationError (lit "Failed to generate response") e
                  (isRetryableError e)
     ∧ modelCalls w' = S (modelCalls w)
     ∧ randomCalls w' = randomCalls w
     ∧ history w' = history w
     ∧ delays w' = delays w
     ∧ spoken w' = spoken w)
  ∧ (Streaming.generateStreamingResponse callback oracle options w
     = (Threw thrown, w') →
     history w' = history w
     ∧ delays w' = delays w
     ∧ if truthy (trim (transcript options)) then
         modelCalls w' = S (modelCalls w)
         ∧ randomCalls w' = randomCalls w
         ∧ ∃ cause,
             thrown = AiGenerationError
                        (lit "Failed to generate streaming response") cause
                        (isRetryableError cause)
             ∧ ((∃ messages,
                   failure (model oracle (modelCalls w) messages)
                   = Some cause)
                ∨ ∃ n sentence, callback n sentence = Some cause)
       else
         modelCalls w' = modelCalls w
         ∧ randomCalls w' = S (randomCalls w)
         ∧ ∃ n fallback,
             callback n fallback = Some thrown
             ∧ fallback ∈ FALLBACK_RESPONSES).
Proof.
  split; intros Hrun.
  - destruct (truthy (trim (transcript options))) eqn:Ht;
      [|by rewrite blank_generateResponse in Hrun].
    destruct (generateResponse_run oracle options w Ht)
      as (messages & _ & Hgen).
    rewrite Hgen in Hrun.
    destruct (failure (model oracle (modelCalls w) messages)) as [e|] eqn:He;
      [|done].
    injection Hrun as <- <-. exists messages, e. by split_and!.
  - unfold Streaming.generateStreamingResponse in Hrun.
    destruct (truthy (trim (transcript options))) eqn:Ht; simpl in Hrun.
    + unfold try_catch, mbind, M_bind, buildMessages, callModel in Hrun.
      cbv beta iota in Hrun. fold (called w) in Hrun.
      match type of Hrun with
      | context [model oracle (modelCalls w) ?messages] =>
        set (prompt := messages) in Hrun
      end.
      destruct (forAwait_outcome callback
                  (chunks (model oracle (modelCalls w) prompt)) [] []
                  (called w))
        as (r & w1 & Hloop & Hh & Hm & Hr & Hd & Hthrown).
      rewrite Hloop in Hrun.
      destruct r as [[full buffer]|e].
      * destruct (failure (model oracle (modelCalls w) prompt)) as [e|] eqn:He.
        { injection Hrun as <- <-. split_and!; [done..|].
          exists e. split; [done|]. left. by exists prompt. }
        assert (Hsaid :
          ∃ w2, history w2 = history w1 ∧ modelCalls w2 = modelCalls w1
                ∧ randomCalls w2 = randomCalls w1 ∧ delays w2 = delays w1
                ∧ (((if truthy (trim buffer)
                     then Streaming.onSentence callback (trim buffer)
                     else mret tt) : M unit) w1 = (Returned tt, w2)
                   ∨ ∃ e, ((if truthy (trim buffer)
                            then Streaming.onSentence callback (trim buffer)
                            else mret tt) : M unit) w1 = (Threw e, w2)
                          ∧ ∃ n sentence, callback n sentence = Some e)).
        { destruct (truthy (trim buffer)).
          - destruct (onSentence_outcome callback (trim buffer) w1)
              as (w2 & ? & ? & ? & ? & [Hs | (e & Hs & Hcall)]);
              exists w2; (split_and!; [done..|]); [by left|right].
            exists e. split; [done|eauto].
          - exists w1. split_and!; [done..|]. by left. }
        destruct Hsaid as (w2 & Hh2 & Hm2 & Hr2 & Hd2 & [Hs | (e & Hs & Hcall)]);
          rewrite Hs in Hrun.
        { destruct (saveTurn_frame (roomName options) (transcript options)
                      full w2) as [h Hsave].
          rewrite Hsave in Hrun. done. }
        injection Hrun as <- <-. simpl in *.
        split_and!; [congruence..|].
        exists e. split; [done|]. by right.
      * injection Hrun as <- <-. simpl in *.
        split_and!; [congruence..|].
        exists e. split; [done|]. right. by apply Hthrown.
    + unfold mbind, M_bind, fallbackResponse, Math_random in Hrun.
      unfold mbind, M_bind, mret, M_ret in Hrun. cbv beta iota in Hrun.
      match type of Hrun with
      | context [Streaming.onSentence callback ?s ?w0] =>
        destruct (onSentence_outcome callback s w0)
          as (w1 & Hh & Hm & Hr & Hd & [Hs | (e & Hs & Hcall)]);
          rewrite Hs in Hrun
      end; [done|].
      injection Hrun as <- <-. simpl in *.
      split_and!; [done..|].
      eexists _, _. split; [exact Hcall|apply fallback_in].
Qed.

Lemma failed_attempt_is_wrapped_witness :
  (∃ messages,
     failure (model failingOracle 0 messages)
     = Some (ErrorObject (lit "socket hang up")))
  ∧ history (Streaming.generateStreamingResponse Streaming.returning
               failingOracle demoOptions (newService 0)).2 = ∅
  ∧ ∃ n fallback,
      Streaming.throwing Streaming.playbackError n fallback
      = Some Streaming.playbackError
      ∧ fallback ∈ FALLBACK_RESPONSES.
Proof.
  destruct (failed_attempt_is_wrapped Streaming.returning failingOracle
              demoOptions (newService 0)
              (AiGenerationError (lit "Failed to generate streaming response")
                 (ErrorObject (lit "socket hang up")) true)
              (Streaming.generateStreamingResponse Streaming.returning
                 failingOracle demoOptions (newService 0)).2)
    as [_ Hstreaming].
  destruct (Hstreaming eq_refl)
    as (Hhistory & _ & _ & _ & cause & Hcause & Hwho).
  injection Hcause as <-.
  destruct (failed_attempt_is_wrapped
              (Streaming.throwing Streaming.playbackError) demoOracle
              blankOptions (newService 0) Streaming.playbackError
              (Streaming.generateStreamingResponse
                 (Streaming.throwing Streaming.playbackError) demoOracle
                 blankOptions (newService 0)).2)
    as [_ Hblank].
  destruct (Hblank eq_refl) as (_ & _ & _ & _ & n & fallback & Hcall & Hin).
  split_and!.
  - destruct Hwho as [Hmodel | (k & s & Hk)]; [exact Hmodel|discriminate Hk].
  - exact Hhistory.
  - by exists n, fallback.
Defined.

(** X28.  A turn that succeeds is remembered: when [generateResponse] or
    [generateStreamingResponse] returns a text for a transcript that is
    not blank and a room, the room's history ends with the transcript, as
    said by the user, and that text, as said by the assistant, in this
    order; before them come the newest of the older messages, all of them
    when there were at most 18; the other rooms are untouched; and the
    next prompt for the room shows the turn right before the next
    transcript. *)
Theorem turn_is_remembered oracle options w room text w' :
  truthy (trim (transcript options)) = true →
  roomName options = Some room →
  truthy room = true →
  generateResponse oracle options w = (Returned text, w')
  ∨ generateStreamingResponse oracle options w = (Returned text, w') →
  ∃ kept,
    contents room w'
    = kept ++ [(user, transcript options); (assistant, text)]
    ∧ kept `suffix_of` contents room w
    ∧ ((length (contents room w) ≤ 18)%nat → kept = contents room w)
    ∧ (∀ other, other ≠ room → getHistory other w' = getHistory other w)
    ∧ ∀ next,
        buildMessages (Some room) next w'
        = (Returned
             ([(system, VOICE_ASSISTANT_PROMPT)]
              ++ ((λ said, (turn said.1, said.2)) <$> kept)
              ++ [(turn user, transcript options); (turn assistant, text);
                  (turn user, next)]), w').
Proof.
  intros Ht Hroom Htruthy Hrun.
  assert (∃ w0, history w0 = history w
                ∧ w' = (saveTurn (Some room) (transcript options) text w0).2)
    as (w0 & Hhistory & ->).
  { destruct Hrun as [Hrun|Hrun].
    - destruct (generateResponse_run oracle options w Ht)
        as (messages & _ & Hgen).
      rewrite Hgen, Hroom in Hrun. destruct (failure _); [done|].
      injection Hrun as <- <-. by exists (called w).
    - destruct (generateStreamingResponse_run oracle options w Ht)
        as (messages & out & rest & _ & _ & _ & _ & Hgen).
      rewrite Hgen, Hroom in Hrun. destruct (failure _); [done|].
      injection Hrun as <- <-. by exists (say (out ++ rest) (called w)). }
  destruct (saved_turn room (transcript options) text w0 w Htruthy Hhistory)
    as (kept & Hkept & Hsuffix & Hall & Hothers).
  exists kept. split_and!; [done..|].
  intros next. unfold buildMessages. rewrite Htruthy.
  unfold contents, getHistory in Hkept.
  destruct (history (saveTurn (Some room) (transcript options) text w0).2
            !! room) as [session|] eqn:Hs.
  - do 2 f_equal.
    apply (f_equal (fmap (λ said : ConversationRole * jsstring,
                            (turn said.1, said.2)))) in Hkept.
    rewrite <- list_fmap_compose, fmap_app in Hkept.
    change (map ?f ?l) with (f <$> l).
    change ((λ msg, (turn (ConversationMessage.role msg),
                     ConversationMessage.content msg)) <$> messages session)
      with ((λ said : ConversationRole * jsstring, (turn said.1, said.2))
            ∘ (λ m, (ConversationMessage.role m,
                     ConversationMessage.content m)) <$> messages session).
    rewrite Hkept. simpl. by rewrite <- !app_assoc.
  - by destruct kept.
Qed.

Lemma turn_is_remembered_witness :
  contents (lit "room")
    (generateResponse demoOracle demoOptions (newService 5)).2
  = [(user, lit "hello"); (assistant, lit "Hi there. How are you?")].
Proof.
  destruct (turn_is_remembered demoOracle demoOptions (newService 5)
              (lit "room") (lit "Hi there. How are you?")
              (generateResponse demoOracle demoOptions (newService 5)).2)
    as (kept & Hnew & _ & Hall & _);
    [reflexivity|reflexivity|reflexivity|left; reflexivity|].
  rewrite Hnew, Hall by (vm_compute; lia). reflexivity.
Defined.

(** X29.  Clearing a room forgets it and nothing else: its history is
    empty, the other rooms keep theirs, the next prompt for the room holds
    the system prompt and the transcript only, and the next message saved
    for the room starts a new history. *)
Theorem clearHistory_forgets_room room w :
  let w' := (clearHistory room w).2 in
  getHistory room w' = []
  ∧ (∀ other, other ≠ room → getHistory other w' = getHistory other w)
  ∧ (∀ transcript,
       buildMessages (Some room) transcript w'
       = (Returned [(system, VOICE_ASSISTANT_PROMPT); (turn user, transcript)],
          w'))
  ∧ (∀ a, HistoryOps.room a = room →
       getHistory room (append w' a) = [stored a]).
Proof.
  intros w'. subst w'. unfold clearHistory. cbn [snd].
  assert (Hgone : getHistory room (with_history (delete room (history w)) w)
                  = []).
  { unfold getHistory. simpl. by rewrite lookup_delete_eq. }
  split_and!.
  - exact Hgone.
  - intros other Hother. unfold getHistory. simpl.
    by rewrite lookup_delete_ne.
  - intros transcript. unfold buildMessages. simpl.
    rewrite lookup_delete_eq. by destruct (truthy room).
  - intros a Ha. rewrite getHistory_append, bool_decide_eq_true_2 by done.
    by rewrite Hgone.
Qed.

Lemma clearHistory_forgets_room_witness :
  getHistory (lit "room") (clearHistory (lit "room") twoRooms).2 = []
  ∧ getHistory (lit "lobby") (clearHistory (lit "room") twoRooms).2
    = [stored lobbyAppend].
Proof.
  destruct (clearHistory_forgets_room (lit "room") twoRooms)
    as (Hgone & Hothers & _).
  split; [exact Hgone|].
  rewrite (Hothers (lit "lobby")) by discriminate. reflexivity.
Defined.

End Service.

(* ===================================================================== *)
(** ** Properties of the voice agent *)
(* ===================================================================== *)

Module AgentFacts.
Import AiService ServiceNotions ServiceRuns VoiceAgent.
Import JsFacts Generation Service.

Lemma joined_snoc said sentence :
  Forall (λ s, truthy s = true) said →
  joined (said ++ [sentence])
  = joined said
    ++ ((if truthy (joined said) then lit " " else lit "") ++ sentence).
Proof.
  intros Hsaid. destruct Hsaid as [|first rest Hfirst _]; simpl.
  - by rewrite app_nil_r.
  - rewrite map_app, concat_app. simpl. rewrite app_nil_r.
    destruct first; [done|]. simpl. by rewrite <- !app_assoc.
Qed.

(** The callback, called on each sentence in turn by an agent that is
    running and ready. *)
Lemma callbacks_replayed sentences :
  ∀ said c a,
  isRunning a = true → ready a = true →
  Forall (λ s, truthy s = true) said →
  Forall (λ s, truthy s = true) sentences →
  accumulatedText c = joined said →
  (foldl sentenceCallback (c, a) sentences).2
  = {| isRunning := true; ready := true;
       calls := calls a ++ replyCalls said sentences |}.
Proof.
  induction sentences as [|sentence rest IH];
    intros said c a Hrun Hready Hsaid Hsentences Hacc; simpl.
  - rewrite app_nil_r. destruct a. simpl in *. by subst.
  - apply Forall_cons_1 in Hsentences as [Hsentence Hrest].
    unfold sendAiResponseMessage. rewrite Hrun, Hready. simpl.
    rewrite Hrun, Hready. simpl.
    rewrite (IH (said ++ [sentence])).
    + cbn [calls call]. rewrite Hacc, <- joined_snoc by done.
      cbn [replyCalls]. by rewrite <- !app_assoc.
    + done.
    + done.
    + apply Forall_app. split; [done|]. by constructor.
    + done.
    + cbn [accumulatedText]. by rewrite joined_snoc, Hacc.
Qed.

Lemma speakable_truthy l :
  Forall speakable l → Forall (λ s, truthy s = true) l.
Proof.
  intros Hl. eapply Forall_impl; [exact Hl|].
  intros s [Hs _]. by destruct s.
Qed.

(** X30.  What the agent does with a speech-to-text result.  An agent that
    is running on a ready client sends every result whose transcript is
    not blank to the room as a user message, trimmed, marked final exactly
    when [is_final] and [is_speech_final] both hold.  Only then does it ask
    the service, and it does so with the trimmed transcript: for every
    string the service hands to the callback it sends a message that is not
    final with all the strings so far, one space between them, and speaks
    the string; the service returns, and the agent sends the returned text
    as the final message, which reads, white space apart, as the last
    strings spoken.  An agent that is not running or whose client is not
    ready does nothing with a result; so it is after [stop]. *)
Theorem agent_answers_final_transcripts
  oracle roomName transcript is_final is_speech_final a w :
  (isRunning a = true → ready a = true →
   let '(a', w') :=
     onSttResult oracle roomName transcript is_final is_speech_final a w in
   isRunning a' = true
   ∧ if truthy (trim transcript) && (is_final && is_speech_final) then
       ∃ before said fullResponse,
         generateStreamingResponseWithRetry oracle
           {| AiService.transcript := trim transcript;
              AiService.roomName := Some roomName; maxTokens := None |} 2 w
         = (Returned fullResponse, w')
         ∧ spoken w' = spoken w ++ before ++ said
         ∧ visible (concat said) = visible fullResponse
         ∧ calls a'
           = calls a
             ++ [SendMessage (trim transcript) (lit "user") (lit "chat") true]
             ++ replyCalls [] (before ++ said)
             ++ [SendMessage fullResponse (lit "ai") (lit "chat") true]
     else
       w' = w
       ∧ calls a'
         = calls a
           ++ (if truthy (trim transcript)
               then [SendMessage (trim transcript) (lit "user") (lit "chat")
                       false]
               else []))
  ∧ (isRunning a = false ∨ ready a = false →
     onSttResult oracle roomName transcript is_final is_speech_final a w
     = (a, w))
  ∧ (∀ w2,
       onSttResult oracle roomName transcript is_final is_speech_final
         (stop roomName a w).1 w2
       = ((stop roomName a w).1, w2)).
Proof.
  assert (Hidle : ∀ a0 w0,
    isRunning a0 = false ∨ ready a0 = false →
    onSttResult oracle roomName transcript is_final is_speech_final a0 w0
    = (a0, w0)).
  { intros a0 w0 Hoff.
    unfold onSttResult, sendTranscriptMessage, processTranscript.
    destruct (truthy (trim transcript)); [|done]. simpl.
    assert (Hidle : negb (isRunning a0) || negb (ready a0) = true)
      by (destruct Hoff as [-> | ->];
          [reflexivity|destruct (isRunning a0); reflexivity]).
    rewrite Hidle.
    destruct (is_final && is_speech_final); [|done].
    by rewrite Hidle. }
  split_and!.
  - intros Hrun Hready. unfold onSttResult.
    destruct (truthy (trim transcript)) eqn:Ht; simpl.
    2: { split; [done|]. split; [done|]. by rewrite app_nil_r. }
    unfold sendTranscriptMessage. rewrite Hrun, Hready. simpl.
    destruct (is_final && is_speech_final) eqn:Hfinal; [|done].
    unfold processTranscript. simpl. rewrite Hrun, Hready. simpl.
    destruct (streaming_retry_returns oracle
                {| AiService.transcript := trim transcript;
                   AiService.roomName := Some roomName; maxTokens := None |}
                2 w)
      as (text & before & said & w' & Hgen & _ & Hspoken & Hvisible & Hgood).
    rewrite Hgen, Hspoken, drop_app_length.
    pose proof (callbacks_replayed (before ++ said) []
                  {| accumulatedText := lit ""; sentenceCount := 0 |}
                  (call (SendMessage (trim transcript) (lit "user")
                           (lit "chat") true) a)
                  Hrun Hready (List.Forall_nil _)
                  (speakable_truthy _ Hgood) eq_refl) as Hfold.
    destruct (foldl sentenceCallback _ (before ++ said)) as [c a1].
    simpl in Hfold. subst a1. unfold sendAiResponseMessage. simpl.
    split; [done|].
    exists before, said, text. split_and!; [done..|].
    by rewrite <- !app_assoc.
  - apply Hidle.
  - intros w2. apply Hidle. left. unfold stop.
    by destruct (isRunning a) eqn:Hrun.
Qed.

Lemma agent_answers_final_transcripts_witness :
  ∃ before said,
    calls (onSttResult demoOracle (lit "room") (lit " hello ") true true
             liveAgent (newService 0)).1
    = [SendMessage (lit "hello") (lit "user") (lit "chat") true]
      ++ replyCalls [] (before ++ said)
      ++ [SendMessage (lit "Hi there. How are you?") (lit "ai") (lit "chat")
            true].
Proof.
  destruct (agent_answers_final_transcripts demoOracle (lit "room")
              (lit " hello ") true true liveAgent (newService 0))
    as (Hlive & _).
  specialize (Hlive eq_refl eq_refl).
  destruct (onSttResult demoOracle (lit "room") (lit " hello ") true true
              liveAgent (newService 0)) as [a' w'].
  destruct Hlive as (_ & before & said & fullResponse & Hgen & _ & _ & Hcalls).
  exists before, said. simpl. rewrite Hcalls.
  assert (Hfull : fullResponse = lit "Hi there. How are you?").
  { assert (Hrun : (generateStreamingResponseWithRetry demoOracle
                      {| AiService.transcript := trim (lit " hello ");
                         AiService.roomName := Some (lit "room");
                         maxTokens := None |} 2 (newService 0)).1
                   = Returned (lit "Hi there. How are you?")) by reflexivity.
    rewrite Hgen in Hrun. by injection Hrun. }
  by rewrite Hfull.
Defined.

End AgentFacts.
